(** * atlasctl: the Confluence page and comment retrieval pipeline

    A shallow embedding of [src/confluence.ts] and the properties of
    its input resolver, paginated fetcher, comment tree builder and
    page export assembler.

    Conventions of the embedding.
    - A JavaScript string is a [string]; each [ascii] stands for one
      code unit in the range U+0000..U+00FF.  [trim], [toLowerCase] and
      the regular expressions below are the platform's, on that range.
    - A value decoded from a JSON body is a [value]; a JSON number is
      carried as an integer.
    - The upstream service is a function from the requested URL to the
      response it gives; the asynchronous code runs in a monad that
      threads the list of requests issued so far and may throw.
    - Loops whose number of turns depends on what the service answers
      take a [fuel] argument; running out of fuel is the outcome
      [OutOfFuel], which is neither a result nor an error. *)

From Stdlib Require Import String Ascii List ZArith Lia Bool Arith.
From Stdlib Require Import DecimalString Relations Sorted.
Import ListNotations.
Set Warnings "-register-all".
Set Implicit Arguments.
Open Scope string_scope.

(** ** Strings as the platform handles them *)

Module JsString.

Definition code (c : ascii) : nat := nat_of_ascii c.

(** [\d] without the unicode flag: the ten ASCII digits. *)
Definition is_digit (c : ascii) : bool :=
  ((48 <=? code c) && (code c <=? 57))%nat.

Fixpoint every (p : ascii -> bool) (s : string) : bool :=
  match s with
  | EmptyString => true
  | String c s' => p c && every p s'
  end.

(** [/^\d+$/.test(s)] *)
Definition all_digits (s : string) : bool :=
  match s with
  | EmptyString => false
  | String _ _ => every is_digit s
  end.

(** White space and line terminators of [String.prototype.trim]
    below U+0100: TAB, LF, VT, FF, CR, SP and NBSP. *)
Definition is_space (c : ascii) : bool :=
  (((9 <=? code c) && (code c <=? 13)) || (code c =? 32) || (code c =? 160))%nat.

Fixpoint trimStart (s : string) : string :=
  match s with
  | EmptyString => EmptyString
  | String c s' => if is_space c then trimStart s' else s
  end.

Fixpoint trimEnd (s : string) : string :=
  match s with
  | EmptyString => EmptyString
  | String c s' =>
      match trimEnd s' with
      | EmptyString => if is_space c then EmptyString else String c EmptyString
      | t => String c t
      end
  end.

Definition trim (s : string) : string := trimEnd (trimStart s).

(** [String.prototype.toLowerCase] below U+0100: A-Z, and the
    Latin-1 capitals U+00C0..U+00DE except the multiplication sign. *)
Definition lower_char (c : ascii) : ascii :=
  let n := code c in
  if (((65 <=? n) && (n <=? 90))
      || ((192 <=? n) && (n <=? 222) && negb (n =? 215)))%nat
  then ascii_of_nat (n + 32)
  else c.

Fixpoint toLowerCase (s : string) : string :=
  match s with
  | EmptyString => EmptyString
  | String c s' => String (lower_char c) (toLowerCase s')
  end.

(** [s.startsWith(p)] *)
Fixpoint startsWith (p s : string) : bool :=
  match p, s with
  | EmptyString, _ => true
  | String a p', String b s' => Ascii.eqb a b && startsWith p' s'
  | String _ _, EmptyString => false
  end.

(** [s.slice(n)] for [0 <= n] *)
Fixpoint slice (n : nat) (s : string) : string :=
  match n, s with
  | 0, _ => s
  | S n', String _ s' => slice n' s'
  | S _, EmptyString => EmptyString
  end.

(** The longest prefix of [s] made of characters satisfying [p], and
    what follows it. *)
Fixpoint span (p : ascii -> bool) (s : string) : string * string :=
  match s with
  | EmptyString => (EmptyString, EmptyString)
  | String c s' =>
      if p c then let (a, b) := span p s' in (String c a, b)
      else (EmptyString, s)
  end.

(** [x] occurs in [s]. *)
Definition occurs_in (x s : string) : Prop :=
  exists pre post, s = pre ++ x ++ post.

End JsString.
Import JsString.

(** ** Values decoded from JSON, and the operators the code applies to them *)

Inductive value : Type :=
| VUndefined
| VNull
| VBool (b : bool)
| VNum (n : Z)
| VStr (s : string)
| VArr (items : list value)
| VObj (fields : list (string * value)).

Module Js.

(** The own properties of a decoded object are listed with their
    values; the first entry of a name is the property. *)
Fixpoint lookup (k : string) (fields : list (string * value)) : value :=
  match fields with
  | [] => VUndefined
  | (k', v) :: rest => if String.eqb k k' then v else lookup k rest
  end.

(** [v.k] for a [v] that is neither [null] nor [undefined], and for
    the property names this program reads: only an object has them. *)
Definition get (v : value) (k : string) : value :=
  match v with
  | VObj fields => lookup k fields
  | _ => VUndefined
  end.

Definition nullish (v : value) : bool :=
  match v with
  | VUndefined | VNull => true
  | _ => false
  end.

(** [v?.k] *)
Definition opt (v : value) (k : string) : value :=
  if nullish v then VUndefined else get v k.

(** [a ?? b] *)
Definition coalesce (a b : value) : value :=
  if nullish a then b else a.

(** [ToBoolean] *)
Definition truthy (v : value) : bool :=
  match v with
  | VUndefined | VNull => false
  | VBool b => b
  | VNum n => negb (n =? 0)%Z
  | VStr s => negb (String.eqb s "")
  | VArr _ | VObj _ => true
  end.

(** [a === "literal"] *)
Definition strict_eq_str (a : value) (lit : string) : bool :=
  match a with
  | VStr s => String.eqb s lit
  | _ => false
  end.

Definition isArray (v : value) : bool :=
  match v with
  | VArr _ => true
  | _ => false
  end.

Definition number_to_string (n : Z) : string :=
  NilZero.string_of_int (Z.to_int n).

Fixpoint join (parts : list string) : string :=
  match parts with
  | [] => ""
  | [p] => p
  | p :: rest => p ++ "," ++ join rest
  end.

(** [`${v}`]: the string conversion of a template literal, for the
    values that [converts] accepts. *)
Fixpoint to_string (v : value) : string :=
  match v with
  | VUndefined => "undefined"
  | VNull => "null"
  | VBool true => "true"
  | VBool false => "false"
  | VNum n => number_to_string n
  | VStr s => s
  | VArr items =>
      join (map (fun item => if nullish item then "" else to_string item) items)
  | VObj _ => "[object Object]"
  end.

(** The values on which a template literal does what [to_string]
    says.  The conversion of an object looks up its [toString] member
    first: in a decoded JSON object that has one of its own, the member
    is not a function and the conversion throws a type error, also when
    the object is an item of an array.  A number is printed in full
    decimal digits when it is a safe integer, at most [2^53 - 1] in
    absolute value. *)
Fixpoint converts (v : value) : bool :=
  match v with
  | VUndefined | VNull | VBool _ | VStr _ => true
  | VNum n => (Z.abs n <=? 9007199254740991)%Z
  | VArr items => forallb converts items
  | VObj fields =>
      negb (existsb (fun member => String.eqb (fst member) "toString") fields)
  end.

End Js.
Import Js.

Infix "@." := get (at level 20, left associativity).
Infix "?." := opt (at level 20, left associativity).
Infix "??" := coalesce (at level 45, right associativity).

(** ** Errors *)

(** Every failure of the program is a thrown [Error] carrying a
    message, or an exception of the platform.  The three messages
    the program writes itself are told apart by the site that throws
    them. *)
Inductive error : Type :=
| InvalidInput (message : string)    (* parsePageInput *)
| HostMismatch (message : string)    (* resolvePageIdForSite *)
| TransportError (message : string)  (* apiGet, on a response that is not ok *)
| TypeError                          (* a property of null, a call of a non-function *)
| FetchFailed                        (* fetch rejected: no HTTP response *)
| BodyNotJson.                       (* response.json() rejected *)

Inductive result (A : Type) : Type :=
| Ok (a : A)
| Err (e : error).
Arguments Err {A} e.

(** ** Input resolver *)

Record URL : Type := mkURL {
  host : string;
  pathname : string;
  searchParams : list (string * string)
}.

Record ParsedPageInput : Type := mkParsed {
  pageId : string;
  hostFromUrl : option string
}.

Module Resolver.

(** [url.searchParams.get(name)]: the value of the first pair named
    [name], or [null]. *)
Fixpoint searchParams_get (name : string) (pairs : list (string * string))
  : option string :=
  match pairs with
  | [] => None
  | (k, v) :: rest =>
      if String.eqb k name then Some v else searchParams_get name rest
  end.

(** [/\/pages\/(\d+)(?:\/|$)/] tried at the first character of [s].
    The group is greedy; a shorter run of digits is followed by a
    digit, which is neither a slash nor the end, so only the longest
    run can lead to a match. *)
Definition match_pages_here (s : string) : option string :=
  if startsWith "/pages/" s then
    match span is_digit (slice 7 s) with
    | (EmptyString, _) => None
    | (digits, EmptyString) => Some digits
    | (digits, String c _) => if Ascii.eqb c "/" then Some digits else None
    end
  else None.

(** [s.match(/\/pages\/(\d+)(?:\/|$)/)?.[1]]: the leftmost position
    at which the expression matches decides. *)
Fixpoint match_pages (s : string) : option string :=
  match match_pages_here s with
  | Some digits => Some digits
  | None =>
      match s with
      | EmptyString => None
      | String _ s' => match_pages s'
      end
  end.

Definition msg_invalid_identifier : string :=
  "Invalid page identifier. Provide a numeric page ID or a full Confluence page URL.".

Definition msg_no_page_id : string :=
  "Could not extract a numeric page ID from the provided URL.".

Definition msg_host_mismatch (hostFromUrl configuredSite : string) : string :=
  "URL host mismatch: URL uses " ++ hostFromUrl
    ++ " but config site is " ++ configuredSite ++ ".".

Section WithURL.

(** [new URL(value)] of the platform: [None] when it throws. *)
Variable parseURL : string -> option URL.

Definition parsePageInput (idOrUrl : string) : result ParsedPageInput :=
  let value := trim idOrUrl in
  if all_digits value then Ok {| pageId := value; hostFromUrl := None |}
  else
    match parseURL value with
    | None => Err (InvalidInput msg_invalid_identifier)
    | Some url =>
        let fromPath := match_pages (pathname url) in
        let fromQuery := searchParams_get "pageId" (searchParams url) in
        let pageId :=
          match fromPath with
          | Some p => Some p
          | None => fromQuery
          end in
        match pageId with
        | None => Err (InvalidInput msg_no_page_id)
        | Some p =>
            if String.eqb p "" || negb (all_digits p)
            then Err (InvalidInput msg_no_page_id)
            else Ok {| pageId := p;
                       hostFromUrl := Some (toLowerCase (host url)) |}
        end
    end.

Definition resolvePageIdForSite (idOrUrl configuredSite : string)
  : result string :=
  match parsePageInput idOrUrl with
  | Err e => Err e
  | Ok parsed =>
      match hostFromUrl parsed with
      | Some h =>
          if negb (String.eqb h "")
             && negb (String.eqb h (toLowerCase configuredSite))
          then Err (HostMismatch (msg_host_mismatch h configuredSite))
          else Ok (pageId parsed)
      | None => Ok (pageId parsed)
      end
  end.

End WithURL.

End Resolver.
Import Resolver.

(** ** Comments *)

Record InlineContext : Type := mkInline {
  textSelection : value;
  markerRef : value;
  resolved : bool
}.

Inductive Comment : Type := mkComment {
  id : value;
  title : value;
  author : value;
  created : value;
  updated : value;
  bodyHtml : value;
  inlineContext : option InlineContext;
  children : list Comment
}.

(** [comment.children = replies] *)
Definition set_children (c : Comment) (replies : list Comment) : Comment :=
  {| id := id c; title := title c; author := author c; created := created c;
     updated := updated c; bodyHtml := bodyHtml c;
     inlineContext := inlineContext c; children := replies |}.

(** [countComments(comment.children)], by recursion on the comment. *)
Fixpoint count_below (c : Comment) : nat :=
  fold_left (fun total comment => total + 1 + count_below comment) (children c) 0.

(** [comments.reduce((total, comment) =>
       total + 1 + countComments(comment.children), 0)].  The source
    recurses on the call stack of the engine, one nesting of calls for
    each level of replies; the stack is not part of this embedding, which
    gives the count of a forest of every depth. *)
Definition countComments (comments : list Comment) : nat :=
  fold_left (fun total comment => total + 1 + count_below comment) comments 0.

(** Every node of the forest, parents before their replies. *)
Fixpoint nodes_of (c : Comment) : list Comment :=
  c :: flat_map nodes_of (children c).

Definition nodes (comments : list Comment) : list Comment :=
  flat_map nodes_of comments.

(** The forest in which every comment down to depth [depth] has
    [fanout] replies, and the comments at depth [depth] have none. *)
Definition blank_comment (replies : list Comment) : Comment :=
  {| id := VStr "0"; title := VStr ""; author := VStr "unknown";
     created := VStr ""; updated := VStr ""; bodyHtml := VStr "";
     inlineContext := None; children := replies |}.

Fixpoint full_forest (depth fanout : nat) : list Comment :=
  match depth with
  | 0 => []
  | S depth' => repeat (blank_comment (full_forest depth' fanout)) fanout
  end.

Definition parseComment (raw : value) : result Comment :=
  if nullish raw then Err TypeError
  else
    let ext := raw @. "extensions" ?? VObj [] in
    let inlineContext :=
      if truthy (ext @. "inlineProperties") then
        Some {| textSelection :=
                  ext @. "inlineProperties" @. "originalSelection" ?? VStr "";
                markerRef := ext @. "inlineProperties" @. "markerRef" ?? VStr "";
                resolved :=
                  strict_eq_str (ext @. "resolution" ?. "status") "resolved" |}
      else None in
    Ok {| id := raw @. "id";
          title := raw @. "title" ?? VStr "";
          author :=
            raw @. "version" ?. "by" ?. "displayName"
              ?? raw @. "history" ?. "createdBy" ?. "displayName"
              ?? VStr "unknown";
          created :=
            raw @. "version" ?. "when" ?? raw @. "history" ?. "createdDate"
              ?? VStr "";
          updated := raw @. "version" ?. "when" ?? VStr "";
          bodyHtml :=
            raw @. "body" ?. "storage" ?. "value"
              ?? raw @. "body" ?. "view" ?. "value" ?? VStr "";
          inlineContext := inlineContext;
          children := [] |}.

Definition normalizePaginationLink (next : string) : string :=
  if startsWith "http://" next || startsWith "https://" next then next
  else if startsWith "/wiki/" next then slice (String.length "/wiki") next
  else next.

(** ** The export document *)

Module Page.
Record t : Type := mk {
  id : value;
  title : value;
  space : value;
  url : string;
  author : value;
  created : value;
  lastUpdated : value;
  version : value;
  labels : list value;
  bodyHtml : value
}.
End Page.

Record Meta : Type := mkMeta {
  fetchedAt : string;
  totalComments : nat
}.

Record PageExport : Type := mkExport {
  page : Page.t;
  comments : list Comment;
  meta : Meta
}.

Record RequiredConfig : Type := mkConfig {
  site : string;
  email : string;
  apikey : string
}.

(** ** The upstream service and the monad of the asynchronous code *)

Inductive Response : Type :=
| NoResponse
| Http (status : nat) (statusText : string) (body : option value).

(** [response.ok] *)
Definition ok (status : nat) : bool := (200 <=? status)%nat && (status <=? 299)%nat.

Inductive outcome (A : Type) : Type :=
| Done (a : A)
| Throw (e : error)
| OutOfFuel.
Arguments Throw {A} e.
Arguments OutOfFuel {A}.

(** A computation is run on the URLs requested so far, oldest first,
    and hands back its outcome with the URLs requested by then. *)
Definition M (A : Type) : Type := list string -> outcome A * list string.

Definition ret {A} (a : A) : M A := fun log => (Done a, log).

Definition bind {A B} (m : M A) (k : A -> M B) : M B :=
  fun log =>
    match m log with
    | (Done a, log') => k a log'
    | (Throw e, log') => (Throw e, log')
    | (OutOfFuel, log') => (OutOfFuel, log')
    end.

Definition throw {A} (e : error) : M A := fun log => (Throw e, log).

Definition out_of_fuel {A} : M A := fun log => (OutOfFuel, log).

Definition lift {A} (r : result A) : M A :=
  match r with
  | Ok a => ret a
  | Err e => throw e
  end.

Notation "x <- m ;; k" := (bind m (fun x => k))
  (at level 61, m at next level, right associativity).

(** ** The client, the comment tree builder and the assembler *)

Record ApiClient : Type := mkClient {
  baseUrl : string;
  apiGet : string -> M value;
  fetchAllPages : nat -> string -> M (list value)
}.

Definition msg_api_error (status : nat) (statusText url : string) : string :=
  "Confluence API error " ++ number_to_string (Z.of_nat status) ++ " "
    ++ statusText ++ ": GET " ++ url.

Definition page_path (pageId : string) : string :=
  "/rest/api/content/" ++ pageId
    ++ "?expand=body.storage,version,history,space,metadata.labels".

Definition comments_path (parentId : string) : string :=
  "/rest/api/content/" ++ parentId
    ++ "/child/comment?expand=body.storage,version,extensions.inlineProperties,extensions.resolution&limit=100".

(** [results.map((label) => label.name)] on a value that need not be
    an array, whose items need not be objects. *)
Fixpoint label_names (items : list value) : result (list value) :=
  match items with
  | [] => Ok []
  | label :: rest =>
      if nullish label then Err TypeError
      else
        match label_names rest with
        | Ok names => Ok (label @. "name" :: names)
        | Err e => Err e
        end
  end.

Definition page_labels (page : value) : result (list value) :=
  match page @. "metadata" ?. "labels" ?. "results" ?? VArr [] with
  | VArr items => label_names items
  | _ => Err TypeError
  end.

(** The [page] member of the object that [fetchConfluencePage]
    returns. *)
Definition page_info (baseUrl : string) (page : value) : result Page.t :=
  if nullish page then Err TypeError
  else
    match page_labels page with
    | Err e => Err e
    | Ok labels =>
        Ok {| Page.id := page @. "id";
              Page.title := page @. "title";
              Page.space := page @. "space" ?. "key" ?? VStr "";
              Page.url :=
                baseUrl ++ to_string (page @. "_links" ?. "webui" ?? VStr "");
              Page.author :=
                page @. "version" ?. "by" ?. "displayName" ?? VStr "unknown";
              Page.created :=
                page @. "history" ?. "createdDate"
                  ?? page @. "version" ?. "when" ?? VStr "";
              Page.lastUpdated := page @. "version" ?. "when" ?? VStr "";
              Page.version := page @. "version" ?. "number" ?? VNum 1;
              Page.labels := labels;
              Page.bodyHtml := page @. "body" ?. "storage" ?. "value" ?? VStr "" |}
    end.

(** [for (const raw of raws) { ...; replies.push(comment) }] *)
Fixpoint for_each_raw (body : value -> M Comment) (raws : list value)
  (replies : list Comment) : M (list Comment) :=
  match raws with
  | [] => ret replies
  | raw :: rest =>
      comment <- body raw ;;
      for_each_raw body rest (replies ++ [comment])%list
  end.

Section Pipeline.

(** [new URL(value)] of the platform. *)
Variable parseURL : string -> option URL.

(** What the service answers to a GET of a URL with the client's
    headers. *)
Variable upstream : string -> Response.

(** [new Date().toISOString()] when the export is assembled. *)
Variable now : string.

Section Client.

Variable base : string.

(** The [url] that [apiGet] requests for [pathOrUrl]. *)
Definition request_url (pathOrUrl : string) : string :=
  if startsWith "http://" pathOrUrl || startsWith "https://" pathOrUrl
  then pathOrUrl
  else base ++ (if startsWith "/" pathOrUrl then pathOrUrl
                else "/" ++ pathOrUrl).

Definition client_apiGet (pathOrUrl : string) : M value :=
  let url := request_url pathOrUrl in
  fun log =>
    let log' := (log ++ [url])%list in
    match upstream url with
    | NoResponse => (Throw FetchFailed, log')
    | Http status statusText body =>
        if negb (ok status)
        then (Throw (TransportError (msg_api_error status statusText url)), log')
        else
          match body with
          | Some json => (Done json, log')
          | None => (Throw BodyNotJson, log')
          end
    end.

(** The loop of [fetchAllPages]: [while (next) { ... }]. *)
Fixpoint fetchAllPages_loop (fuel : nat) (results : list value)
  (next : option string) : M (list value) :=
  match next with
  | None => ret results
  | Some path =>
      if String.eqb path "" then ret results
      else
        match fuel with
        | 0 => out_of_fuel
        | S fuel' =>
            page <- client_apiGet path ;;
            if nullish page then throw TypeError
            else
              let results' :=
                match page @. "results" with
                | VArr items => (results ++ items)%list
                | _ => results
                end in
              let link := page @. "_links" ?. "next" in
              if truthy link then
                match link with
                | VStr l =>
                    fetchAllPages_loop fuel' results'
                      (Some (normalizePaginationLink l))
                | _ => throw TypeError
                end
              else fetchAllPages_loop fuel' results' None
        end
  end.

Definition client_fetchAllPages (fuel : nat) (path : string)
  : M (list value) :=
  fetchAllPages_loop fuel [] (Some path).

End Client.

(** [createClient(config)].  The [Authorization] and [Accept]
    headers, built once from [config.email] and [config.apikey], are the
    same in every request of the client; [upstream] is the service as it
    answers to them. *)
Definition createClient (config : RequiredConfig) : ApiClient :=
  let baseUrl := "https://" ++ site config ++ "/wiki" in
  {| baseUrl := baseUrl;
     apiGet := client_apiGet baseUrl;
     fetchAllPages := client_fetchAllPages baseUrl |}.

Fixpoint fetchReplies (client : ApiClient) (fuel : nat) (commentId : value)
  : M (list Comment) :=
  match fuel with
  | 0 => out_of_fuel
  | S fuel' =>
      rawReplies <-
        fetchAllPages client fuel (comments_path (to_string commentId)) ;;
      for_each_raw
        (fun raw =>
           reply <- lift (parseComment raw) ;;
           replies <- fetchReplies client fuel' (raw @. "id") ;;
           ret (set_children reply replies))
        rawReplies []
  end.

Definition fetchConfluencePage (fuel : nat) (config : RequiredConfig)
  (idOrUrl : string) : M PageExport :=
  pageId <- lift (resolvePageIdForSite parseURL idOrUrl (site config)) ;;
  let client := createClient config in
  page <- apiGet client (page_path pageId) ;;
  rawComments <- fetchAllPages client fuel (comments_path pageId) ;;
  comments <-
    for_each_raw
      (fun raw =>
         comment <- lift (parseComment raw) ;;
         replies <- fetchReplies client fuel (raw @. "id") ;;
         ret (set_children comment replies))
      rawComments [] ;;
  info <- lift (page_info (baseUrl client) page) ;;
  ret {| page := info;
         comments := comments;
         meta := {| fetchedAt := now;
                    totalComments := countComments comments |} |}.

End Pipeline.

(** ** A URL parser for plain web addresses

    The platform's [URL] class is not part of this program.  The
    theorems below hold for every parser.  Concrete runs use this
    one.  It reads [http://host/path?query#fragment] and [https://...]
    written with characters that the platform's parser leaves as they
    are (lower-casing the host apart), and answers as the platform
    does on them; on any other input it gives [None], also where the
    platform's parser would accept the input. *)

Module SimpleURL.

Definition one_of (chars : string) (c : ascii) : bool :=
  existsb (Ascii.eqb c) (list_ascii_of_string chars).

Definition is_letter (c : ascii) : bool :=
  (((65 <=? code c) && (code c <=? 90))
   || ((97 <=? code c) && (code c <=? 122)))%nat.

Definition host_char (c : ascii) : bool :=
  is_letter c || is_digit c || one_of "-" c.

Definition path_char (c : ascii) : bool :=
  is_letter c || is_digit c || one_of "-._~/+" c.

Definition query_char (c : ascii) : bool :=
  is_letter c || is_digit c || one_of "-._~=&" c.

(** The pieces of [s] between occurrences of [sep]. *)
Fixpoint split_on (sep : ascii) (s : string) : list string :=
  match s with
  | EmptyString => [EmptyString]
  | String c s' =>
      if Ascii.eqb c sep then EmptyString :: split_on sep s'
      else
        match split_on sep s' with
        | piece :: pieces => String c piece :: pieces
        | [] => [String c EmptyString]
        end
  end.

Fixpoint contains (x s : string) : bool :=
  startsWith x s
  || match s with
     | EmptyString => false
     | String _ s' => contains x s'
     end.

Definition label_ok (label : string) : bool :=
  negb (String.eqb label "") && every host_char label
  && negb (contains "--" label).

Definition host_ok (authority : string) : bool :=
  let labels := split_on "." authority in
  forallb label_ok labels
  && match last labels "" with
     | String c _ => is_letter c
     | EmptyString => false
     end.

Definition pair_of (piece : string) : string * string :=
  let (name, rest) := span (fun c => negb (Ascii.eqb c "=")) piece in
  (name, slice 1 rest).

Definition parse (input : string) : option URL :=
  let after_scheme :=
    if startsWith "https://" input then Some (slice 8 input)
    else if startsWith "http://" input then Some (slice 7 input)
    else None in
  match after_scheme with
  | None => None
  | Some rest =>
      let (authority, rest1) := span (fun c => negb (one_of "/?#" c)) rest in
      let (path, rest2) := span (fun c => negb (one_of "?#" c)) rest1 in
      let query :=
        if startsWith "?" rest2
        then fst (span (fun c => negb (Ascii.eqb c "#")) (slice 1 rest2))
        else "" in
      if host_ok authority && every path_char path
         && negb (contains "/." path) && every query_char query
      then
        Some {| host := toLowerCase authority;
                pathname := if String.eqb path "" then "/" else path;
                searchParams :=
                  map pair_of
                    (filter (fun piece => negb (String.eqb piece ""))
                       (split_on "&" query)) |}
      else None
  end.

End SimpleURL.

(** ** A service answering from a table *)

Module Sample.

Definition json_ok (body : value) : Response := Http 200 "OK" (Some body).

Fixpoint serve (table : list (string * Response)) (url : string) : Response :=
  match table with
  | [] => Http 404 "Not Found" None
  | (u, r) :: rest => if String.eqb u url then r else serve rest url
  end.

Definition config : RequiredConfig :=
  {| site := "example.atlassian.net";
     email := "user@example.com";
     apikey := "secret-token" |}.

Definition base : string := "https://example.atlassian.net/wiki".

Definition result_page (items : list value) (next : option string) : value :=
  VObj (("results", VArr items)
        :: match next with
           | Some l => [("_links", VObj [("next", VStr l)])]
           | None => []
           end).

Definition listing (items : list value) (next : option string) : Response :=
  json_ok (result_page items next).

Definition no_results_page (next : string) : value :=
  VObj [("results", VStr "none"); ("_links", VObj [("next", VStr next)])].

Definition raw_comment (id : string) (body : string) : value :=
  VObj [("id", VStr id);
        ("title", VStr ("Re: " ++ id));
        ("version", VObj [("by", VObj [("displayName", VStr "Ada")]);
                          ("when", VStr "2026-01-02T03:04:05.000Z")]);
        ("body", VObj [("storage", VObj [("value", VStr body)])])].

Definition raw_inline (id : string) (status : string) : value :=
  VObj [("id", VStr id);
        ("history", VObj [("createdBy", VObj [("displayName", VStr "Bob")]);
                          ("createdDate", VStr "2026-01-01T00:00:00.000Z")]);
        ("body", VObj [("view", VObj [("value", VStr "<p>inline</p>")])]);
        ("extensions",
          VObj [("inlineProperties", VObj [("originalSelection", VStr "some text")]);
                ("resolution", VObj [("status", VStr status)])])].

Definition raw_page : value :=
  VObj [("id", VStr "100");
        ("title", VStr "Home");
        ("space", VObj [("key", VStr "ENG")]);
        ("_links", VObj [("webui", VStr "/spaces/ENG/pages/100/Home")]);
        ("version", VObj [("number", VNum 3);
                          ("when", VStr "2026-01-02T00:00:00.000Z")])].

(** Page 100 has two top-level comments, served on two result
    pages; comment 201 has the reply 301, which has the reply 401.
    Page 500 is refused, page 600 carries the version number 0, and the
    first result page of the comments of 700 has no array of
    results. *)
Definition wiki : string -> Response :=
  serve
    [ (base ++ page_path "100", json_ok raw_page);
      (base ++ comments_path "100",
       listing [raw_comment "201" "<p>first</p>"]
         (Some "/wiki/rest/api/content/100/child/comment?start=1"));
      (base ++ "/rest/api/content/100/child/comment?start=1",
       listing [raw_inline "202" "resolved"] None);
      (base ++ comments_path "201", listing [raw_comment "301" "<p>reply</p>"] None);
      (base ++ comments_path "202", json_ok (VObj []));
      (base ++ comments_path "301", listing [raw_comment "401" "<p>deep</p>"] None);
      (base ++ comments_path "401", listing [] None);
      (base ++ page_path "500", Http 503 "Service Unavailable" None);
      (base ++ page_path "600",
       json_ok (VObj [("id", VStr "600"); ("version", VObj [("number", VNum 0)])]));
      (base ++ comments_path "600", listing [] None);
    (base ++ comments_path "700",
     json_ok
       (no_results_page (base ++ "/rest/api/content/700/child/comment?start=25")));
    (base ++ "/rest/api/content/700/child/comment?start=25",
     listing [raw_comment "701" "<p>late</p>"] None) ].

Definition now : string := "2026-11-03T00:00:00.000Z".

Definition run (fuel : nat) (idOrUrl : string) : outcome PageExport * list string :=
  fetchConfluencePage SimpleURL.parse wiki now fuel config idOrUrl [].

End Sample.

(** ** A service with one chain of replies of a chosen length *)

Module Chain.

(** The comment IDs 1, 11, 111, ... *)
Fixpoint ones (k : nat) : string :=
  match k with
  | 0 => ""
  | S k' => String "1" (ones k')
  end.

Definition prefix : string := Sample.base ++ "/rest/api/content/".

(** The ID that a request under [/rest/api/content/] names. *)
Definition parent_of (url : string) : option string :=
  if startsWith prefix url
  then Some (fst (span (fun c => negb (Ascii.eqb c "/"))
                    (slice (String.length prefix) url)))
  else None.

Definition raw_reply (id : string) : value := VObj [("id", VStr id)].

(** The comments 1 to [n] have one reply each, the comment after
    them; every other comment has none. *)
Definition service (n : nat) (url : string) : Response :=
  match parent_of url with
  | Some parent =>
      if every (Ascii.eqb "1") parent
         && (1 <=? String.length parent)%nat && (String.length parent <=? n)%nat
      then Sample.listing [raw_reply (parent ++ "1")] None
      else Sample.listing [] None
  | None => Http 404 "Not Found" None
  end.

Definition reply (id : string) (replies : list Comment) : Comment :=
  {| id := VStr id; title := VStr ""; author := VStr "unknown";
     created := VStr ""; updated := VStr ""; bodyHtml := VStr "";
     inlineContext := None; children := replies |}.

(** The replies under the comment [ones k], [levels] deep. *)
Fixpoint below (k levels : nat) : list Comment :=
  match levels with
  | 0 => []
  | S levels' => [reply (ones (S k)) (below (S k) levels')]
  end.

End Chain.

(** ** The local configuration ([src/config.ts]) *)

(** A function of [config.ts] returns or throws an [Error] with a
    message. *)
Inductive attempt (A : Type) : Type :=
| Success (a : A)
| Failure (message : string).
Arguments Failure {A} message.

(** [ConfigKey]: the literals ["site"], ["email"] and ["apikey"]. *)
Inductive ConfigKey : Type := KeySite | KeyEmail | KeyApikey.

Definition key_name (key : ConfigKey) : string :=
  match key with
  | KeySite => "site"
  | KeyEmail => "email"
  | KeyApikey => "apikey"
  end.

Definition CONFIG_KEYS : list ConfigKey := [KeySite; KeyEmail; KeyApikey].

Module AtlasCtlConfig.
Record t : Type := mk {
  site : option string;
  email : option string;
  apikey : option string
}.

(** [config[key]] *)
Definition get (config : t) (key : ConfigKey) : option string :=
  match key with
  | KeySite => site config
  | KeyEmail => email config
  | KeyApikey => apikey config
  end.

(** [config[key] = value] *)
Definition set (config : t) (key : ConfigKey) (value : string) : t :=
  match key with
  | KeySite => {| site := Some value; email := email config; apikey := apikey config |}
  | KeyEmail => {| site := site config; email := Some value; apikey := apikey config |}
  | KeyApikey => {| site := site config; email := email config; apikey := Some value |}
  end.

Definition empty : t := {| site := None; email := None; apikey := None |}.
End AtlasCtlConfig.

Module ConfigFile.

(** [!value] for a member that is a string or is missing. *)
Definition unset (v : option string) : bool :=
  match v with
  | None => true
  | Some s => String.eqb s ""
  end.

(** [s.includes(x)] *)
Fixpoint includes (x s : string) : bool :=
  startsWith x s
  || match s with
     | EmptyString => false
     | String _ s' => includes x s'
     end.

(** [parts.join(sep)] *)
Fixpoint join_with (sep : string) (parts : list string) : string :=
  match parts with
  | [] => ""
  | [p] => p
  | p :: rest => p ++ sep ++ join_with sep rest
  end.

(** [[^@\s]] *)
Definition email_char (c : ascii) : bool :=
  negb (Ascii.eqb c "@") && negb (is_space c).

(** [\.[^@\s]+$] at the start of [s]. *)
Definition dot_and_rest (s : string) : bool :=
  match s with
  | String c (String _ _ as rest) => Ascii.eqb c "." && every email_char rest
  | _ => false
  end.

(** [[^@\s]+\.[^@\s]+$] at the start of [s].  The dot is in the
    class too: the first group may end before any dot that has a
    character after it. *)
Fixpoint dotted (s : string) : bool :=
  match s with
  | EmptyString => false
  | String c s' => email_char c && (dot_and_rest s' || dotted s')
  end.

(** [/^[^@\s]+@[^@\s]+\.[^@\s]+$/.test(s)].  The first group cannot
    hold an [@], so it ends at the first one. *)
Definition is_email (s : string) : bool :=
  match span email_char s with
  | (EmptyString, _) => false
  | (_, String c domain) => Ascii.eqb c "@" && dotted domain
  | (_, EmptyString) => false
  end.

Definition msg_site_empty : string := "Site cannot be empty".

Definition msg_site_invalid : string :=
  "Invalid site. Use a hostname like your-domain.atlassian.net".

Definition msg_email_invalid : string := "Invalid email address".

Definition msg_apikey_empty : string := "API key cannot be empty".

Definition msg_not_object : string := "Config must be a JSON object".

Definition mask : string := "***hidden***".

Definition msg_missing (missing : list ConfigKey) : string :=
  "Missing required config values: " ++ join_with ", " (map key_name missing)
    ++ ". Set each with: atlasctl config set <site|email|apikey> <value>".

Definition normalizeEmail (input : string) : attempt string :=
  let value := trim input in
  if negb (is_email value) then Failure msg_email_invalid else Success value.

Definition normalizeApiKey (input : string) : attempt string :=
  let value := trim input in
  if String.eqb value "" then Failure msg_apikey_empty else Success value.

Section WithURL.

(** [new URL(value)] of the platform, and the [hostname] member of
    what it returns. *)
Variable parseURL : string -> option URL.
Variable hostname : URL -> string.

Definition normalizeSite (input : string) : attempt string :=
  let value := trim input in
  if String.eqb value "" then Failure msg_site_empty
  else
    match (if includes "://" value then parseURL value
           else parseURL ("https://" ++ value)) with
    | None => Failure msg_site_invalid
    | Some url =>
        if String.eqb (hostname url) "" then Failure msg_site_invalid
        else Success (toLowerCase (host url))
    end.

Definition normalizeConfigValue (key : ConfigKey) (rawValue : string)
  : attempt string :=
  match key with
  | KeySite => normalizeSite rawValue
  | KeyEmail => normalizeEmail rawValue
  | KeyApikey => normalizeApiKey rawValue
  end.

(** One step of [normalizeConfig]:
    [if (typeof raw[key] === "string" && raw[key].trim())
       config[key] = normalize(raw[key])]. *)
Definition normalize_member (raw : value) (key : ConfigKey)
  (normalize : string -> attempt string) (config : AtlasCtlConfig.t)
  : attempt AtlasCtlConfig.t :=
  match raw @. (key_name key) with
  | VStr s =>
      if String.eqb (trim s) "" then Success config
      else
        match normalize s with
        | Success v => Success (AtlasCtlConfig.set config key v)
        | Failure message => Failure message
        end
  | _ => Success config
  end.

Definition normalizeConfig (raw : value) : attempt AtlasCtlConfig.t :=
  match raw with
  | VObj _ =>
      match normalize_member raw KeySite normalizeSite AtlasCtlConfig.empty with
      | Failure message => Failure message
      | Success c1 =>
          match normalize_member raw KeyEmail normalizeEmail c1 with
          | Failure message => Failure message
          | Success c2 => normalize_member raw KeyApikey normalizeApiKey c2
          end
      end
  | _ => Failure msg_not_object
  end.

(** The object that [writeConfig] hands to [normalizeConfig]: a
    missing member reads as [undefined]. *)
Definition as_object (config : AtlasCtlConfig.t) : value :=
  let member v := match v with Some s => VStr s | None => VUndefined end in
  VObj [("site", member (AtlasCtlConfig.site config));
        ("email", member (AtlasCtlConfig.email config));
        ("apikey", member (AtlasCtlConfig.apikey config))].

(** What [setConfigValue(key, rawValue)] gives to [JSON.stringify],
    [config] being what [readConfig] returned: [config[key]] is set to
    the normalized value, and [writeConfig] normalizes the whole again.
    Reading and writing the file are left out. *)
Definition written_by_set (config : AtlasCtlConfig.t) (key : ConfigKey)
  (rawValue : string) : attempt AtlasCtlConfig.t :=
  match normalizeConfigValue key rawValue with
  | Failure message => Failure message
  | Success v => normalizeConfig (as_object (AtlasCtlConfig.set config key v))
  end.

End WithURL.

Definition maskConfig (config : AtlasCtlConfig.t) : AtlasCtlConfig.t :=
  if unset (AtlasCtlConfig.apikey config) then config
  else {| AtlasCtlConfig.site := AtlasCtlConfig.site config;
          AtlasCtlConfig.email := AtlasCtlConfig.email config;
          AtlasCtlConfig.apikey := Some mask |}.

Definition requireFetchConfig (config : AtlasCtlConfig.t) : attempt RequiredConfig :=
  let missing :=
    filter (fun key => unset (AtlasCtlConfig.get config key)) CONFIG_KEYS in
  match missing with
  | _ :: _ => Failure (msg_missing missing)
  | [] =>
      match AtlasCtlConfig.site config, AtlasCtlConfig.email config,
            AtlasCtlConfig.apikey config with
      | Some s, Some e, Some k => Success {| site := s; email := e; apikey := k |}
      | _, _, _ => Failure (msg_missing missing)
      end
  end.

End ConfigFile.

(** * Vocabulary of the specification

    The notions in which the properties below are stated.  They
    describe inputs and results; none of them is part of the program. *)

(** ** Fields of a record and their fallbacks *)

(** The specification speaks of fields that a record carries or omits
    and of ordered fallbacks.  [FallbackSpec] says that in its own
    terms, for comparison with the expressions of [parseComment]. *)
Module FallbackSpec.

(** The value found by following [path] from [v] through nested
    objects; [None] when a step is missing or the value is [null]. *)
Fixpoint field_at (path : list string) (v : value) : option value :=
  match path with
  | [] => if nullish v then None else Some v
  | k :: rest =>
      match v with
      | VObj fields => field_at rest (lookup k fields)
      | _ => None
      end
  end.

(** The first candidate that is there, else the default. *)
Fixpoint first_of (candidates : list (option value)) (default : value) : value :=
  match candidates with
  | [] => default
  | Some v :: _ => v
  | None :: rest => first_of rest default
  end.

End FallbackSpec.
Import FallbackSpec.

(** The inline-annotation data a record carries: the value at
    [extensions.inlineProperties] when there is one; the scalars
    [false], [0] and the empty string are no data. *)
Definition inline_data (raw : value) : option value :=
  match field_at ["extensions"; "inlineProperties"] raw with
  | Some ip => if truthy ip then Some ip else None
  | None => None
  end.

(** The upstream resolution status is the literal ["resolved"]. *)
Definition status_is_resolved (raw : value) : Prop :=
  field_at ["extensions"; "resolution"; "status"] raw = Some (VStr "resolved").

(** ** Page identifiers *)

(** What the regular expression [/\/pages\/(\d+)(?:\/|$)/] says, as a
    statement about the path: after [pre] comes [/pages/], then the
    digits of the group, then a slash or the end. *)
Definition pages_match_at (path pre digits post : string) : Prop :=
  path = pre ++ "/pages/" ++ digits ++ post
  /\ all_digits digits = true
  /\ (post = "" \/ startsWith "/" post = true).

(** The match that [String.prototype.match] reports: no match starts
    further to the left. *)
Definition first_pages_match (path pre digits post : string) : Prop :=
  pages_match_at path pre digits post
  /\ forall pre' digits' post',
      pages_match_at path pre' digits' post' ->
      String.length pre <= String.length pre'.

(** ** Result pages and the listings they form *)

(** The items a result page contributes: those of its [results]
    member when that is an array. *)
Definition results_of (page : value) : list value :=
  match page @. "results" with
  | VArr items => items
  | _ => []
  end.

(** The page's [_links.next]. *)
Definition next_of (page : value) : value := page @. "_links" ?. "next".

Section Listings.

Variable upstream : string -> Response.
Variable base : string.

(** The service answers the request for [path] with [page]. *)
Definition answers (path : string) (page : value) : Prop :=
  exists status statusText,
    upstream (request_url base path) = Http status statusText (Some page)
    /\ ok status = true
    /\ nullish page = false.

(** [served path pages]: starting at [path] and following the next
    links, the service answers with [pages], in this order; every
    page but the last carries a next link, a string that is not empty,
    and the last carries none. *)
Inductive served : string -> list value -> Prop :=
| served_last path page :
    answers path page ->
    truthy (next_of page) = false ->
    served path [page]
| served_more path page link pages :
    answers path page ->
    next_of page = VStr link ->
    link <> "" ->
    served (normalizePaginationLink link) pages ->
    served path (page :: pages).

(** The URLs requested to collect [pages] from [path]. *)
Fixpoint requests (path : string) (pages : list value) : list string :=
  match pages with
  | [] => []
  | page :: rest =>
      request_url base path
      :: match next_of page with
         | VStr link => requests (normalizePaginationLink link) rest
         | _ => []
         end
  end.

(** ** Reply trees *)

(** [thread parent replies]: the replies the service lists under
    the comment or page [parent], each with its own replies, down to
    comments without replies, are the forest [replies].  A derivation is
    finite: every chain of replies ends. *)
Inductive thread : string -> list Comment -> Prop :=
| thread_listed parent pages replies :
    served (comments_path parent) pages ->
    forest (flat_map results_of pages) replies ->
    thread parent replies
with forest : list value -> list Comment -> Prop :=
| forest_none : forest [] []
| forest_reply raw raws comment replies rest :
    parseComment raw = Ok comment ->
    thread (to_string (raw @. "id")) replies ->
    forest raws rest ->
    forest (raw :: raws) (set_children comment replies :: rest).

(** The reply relation of the service: [lists parent raws] when the
    listing under [parent] is served and holds the records [raws];
    [reply_of child parent] when one of these records has the ID
    [child]. *)
Definition lists (parent : string) (raws : list value) : Prop :=
  exists pages,
    served (comments_path parent) pages /\ raws = flat_map results_of pages.

Definition reply_of (child parent : string) : Prop :=
  exists raws raw,
    lists parent raws /\ In raw raws /\ child = to_string (raw @. "id").

(** The listing under [parent] is served, its records are not
    [null], and their IDs are values that a template literal converts
    to the string [to_string] gives. *)
Definition well_served (parent : string) : Prop :=
  exists raws,
    lists parent raws
    /\ Forall (fun raw => nullish raw = false /\ converts (raw @. "id") = true) raws.

Scheme thread_forest := Minimality for thread Sort Prop
  with forest_thread := Minimality for forest Sort Prop.

Combined Scheme reply_trees_ind from thread_forest, forest_thread.

End Listings.

(** The longest chain of replies in a forest. *)
Fixpoint depth_of (c : Comment) : nat :=
  S (fold_right (fun reply d => Nat.max (depth_of reply) d) 0 (children c)).

Definition depth (comments : list Comment) : nat :=
  fold_right (fun c d => Nat.max (depth_of c) d) 0 comments.

(** ** Claims that the program does not satisfy as they are written *)

(** The claim C2 as it is written: the call fails with a host
    mismatch exactly when the input is a URL whose host differs, in any
    letter case, from the configured site. *)
Definition host_mismatch_iff_host_differs (parseURL : string -> option URL) : Prop :=
  forall idOrUrl configuredSite,
    (exists message,
        resolvePageIdForSite parseURL idOrUrl configuredSite
        = Err (HostMismatch message))
    <-> (all_digits (trim idOrUrl) = false
         /\ exists url,
             parseURL (trim idOrUrl) = Some url
             /\ toLowerCase (host url) <> toLowerCase configuredSite).

(** The rule for next links as the claim C4 writes it: the prefix
    [/wiki] is stripped from every relative link that begins with it. *)
Definition strips_every_wiki_prefix : Prop :=
  forall next,
    normalizePaginationLink next
    = if startsWith "http://" next || startsWith "https://" next then next
      else if startsWith "/wiki" next then slice (String.length "/wiki") next
      else next.

(** The claim C9 as it is written: the version of every export is
    an integer, at least 1. *)
Definition version_always_at_least_one
  (parseURL : string -> option URL) (upstream : string -> Response)
  (now : string) : Prop :=
  forall fuel config idOrUrl log export log',
    fetchConfluencePage parseURL upstream now fuel config idOrUrl log
    = (Done export, log') ->
    exists n, Page.version (page export) = VNum n /\ (1 <= n)%Z.

(** * Properties *)

Unset Implicit Arguments.

(** ** Strings *)

Lemma startsWith_append (p r : string) : startsWith p (p ++ r) = true.
Proof.
  induction p as [|a p IH]; simpl; [reflexivity|].
  now rewrite Ascii.eqb_refl, IH.
Qed.

Lemma startsWith_split (p s : string) :
  startsWith p s = true -> s = p ++ slice (String.length p) s.
Proof.
  revert s; induction p as [|a p IH]; intros [|b s] H; simpl in *;
    try reflexivity; try discriminate.
  apply andb_true_iff in H as [Hab Hps].
  apply Ascii.eqb_eq in Hab; subst b.
  now rewrite <- (IH s Hps).
Qed.

Lemma startsWith_iff (p s : string) :
  startsWith p s = true <-> exists r, s = p ++ r.
Proof.
  split.
  - intros H. eexists. now apply startsWith_split.
  - intros [r ->]. apply startsWith_append.
Qed.

Lemma slice_append (p r : string) : slice (String.length p) (p ++ r) = r.
Proof. induction p; simpl; auto. Qed.

Lemma append_assoc (a b c : string) : (a ++ b) ++ c = a ++ (b ++ c).
Proof. induction a; simpl; congruence. Qed.

Lemma append_empty_r (a : string) : a ++ "" = a.
Proof. induction a; simpl; congruence. Qed.

Lemma occurs_in_here (x post : string) : occurs_in x (x ++ post).
Proof. exists "", post. reflexivity. Qed.

Lemma occurs_in_later (x pre s : string) : occurs_in x s -> occurs_in x (pre ++ s).
Proof.
  intros (a & b & ->). exists (pre ++ a), b. now rewrite append_assoc.
Qed.

(** ** The monad *)

Lemma bind_done A B (m : M A) (k : A -> M B) log b log' :
  bind m k log = (Done b, log') ->
  exists a log1, m log = (Done a, log1) /\ k a log1 = (Done b, log').
Proof.
  unfold bind. destruct (m log) as [[a|e|] log1]; intros H; try discriminate.
  now exists a, log1.
Qed.

Lemma lift_done A (r : result A) log a log' :
  lift r log = (Done a, log') -> r = Ok a /\ log' = log.
Proof.
  destruct r; simpl; unfold ret, throw; intros H; inversion H; auto.
Qed.

Lemma ret_done A (a b : A) log log' :
  ret a log = (Done b, log') -> a = b /\ log' = log.
Proof. unfold ret. intros H; inversion H; auto. Qed.

(** ** Counting comments *)

Section CommentInduction.

Variable P : Comment -> Prop.
Hypothesis step : forall c, Forall P (children c) -> P c.

Fixpoint Comment_forest_ind (c : Comment) : P c :=
  step c
    ((fix replies_ok (cs : list Comment) : Forall P cs :=
        match cs with
        | [] => Forall_nil P
        | c' :: cs' => Forall_cons c' (Comment_forest_ind c') (replies_ok cs')
        end) (children c)).

End CommentInduction.

Lemma count_below_children (c : Comment) :
  count_below c = countComments (children c).
Proof. destruct c; reflexivity. Qed.

Lemma fold_count_from (cs : list Comment) (start : nat) :
  fold_left (fun total comment => total + 1 + count_below comment) cs start
  = start + countComments cs.
Proof.
  unfold countComments. revert start.
  induction cs as [|c cs IH]; intros start; cbn [fold_left]; [lia|].
  rewrite IH, (IH (0 + 1 + count_below c)). lia.
Qed.

Lemma countComments_cons (c : Comment) (cs : list Comment) :
  countComments (c :: cs) = 1 + countComments (children c) + countComments cs.
Proof.
  unfold countComments at 1; cbn [fold_left].
  rewrite fold_count_from, count_below_children. lia.
Qed.

Lemma countComments_sum (cs : list Comment) :
  countComments cs
  = list_sum (map (fun c => 1 + countComments (children c)) cs).
Proof.
  induction cs as [|c cs IH]; [reflexivity|].
  rewrite countComments_cons, IH. reflexivity.
Qed.

Lemma nodes_of_unfold (c : Comment) :
  nodes_of c = c :: flat_map nodes_of (children c).
Proof. destruct c; reflexivity. Qed.

Lemma countComments_nodes_of (c : Comment) :
  1 + countComments (children c) = length (nodes_of c).
Proof.
  induction c as [c IH] using Comment_forest_ind.
  rewrite nodes_of_unfold. cbn [length Nat.add]. f_equal.
  induction IH as [|r rs Hr _ IHrs]; [reflexivity|].
  rewrite countComments_cons. cbn [flat_map].
  rewrite length_app, <- Hr, <- IHrs. lia.
Qed.

Lemma countComments_nodes (cs : list Comment) :
  countComments cs = length (nodes cs).
Proof.
  unfold nodes. induction cs as [|c cs IH]; [reflexivity|].
  rewrite countComments_cons. cbn [flat_map].
  rewrite length_app, <- countComments_nodes_of, <- IH. lia.
Qed.

Lemma export_total parseURL upstream now fuel config idOrUrl log export log' :
  fetchConfluencePage parseURL upstream now fuel config idOrUrl log
  = (Done export, log') ->
  totalComments (meta export) = countComments (comments export).
Proof.
  unfold fetchConfluencePage. intros H.
  repeat (apply bind_done in H as (? & ? & _ & H)).
  apply ret_done in H as [<- _]. reflexivity.
Qed.

(** C1.  In every export that [fetchConfluencePage] returns,
    [meta.totalComments] is the number of comment nodes reachable from
    [comments] through [children], at every level.  It is the sum,
    over the top-level comments, of one plus the count of the
    comment's replies, the count being that same sum one level down.
    An export without comments has [totalComments] 0, and the forest of
    depth 3 with fan-out 2 counts 14. *)
Theorem totalComments_counts_every_node :
  (forall parseURL upstream now fuel config idOrUrl log export log',
      fetchConfluencePage parseURL upstream now fuel config idOrUrl log
      = (Done export, log') ->
      totalComments (meta export) = length (nodes (comments export))
      /\ totalComments (meta export)
         = list_sum (map (fun c => 1 + countComments (children c))
                       (comments export))
      /\ (comments export = [] -> totalComments (meta export) = 0))
  /\ (forall cs,
        countComments cs
        = list_sum (map (fun c => 1 + countComments (children c)) cs))
  /\ countComments [] = 0
  /\ countComments (full_forest 3 2) = 14
  /\ length (nodes (full_forest 3 2)) = 14.
Proof.
  split; [|split; [exact countComments_sum | repeat split; reflexivity]].
  intros parseURL upstream now fuel config idOrUrl log export log' H.
  apply export_total in H. rewrite H.
  split; [apply countComments_nodes|].
  split; [apply countComments_sum|].
  intros ->. reflexivity.
Qed.

(** The sample page 100 is exported with its four comments counted. *)
Lemma totalComments_counts_every_node_witness :
  exists export log',
    Sample.run 10 " 100 " = (Done export, log')
    /\ length (comments export) = 2
    /\ totalComments (meta export) = 4
    /\ length (nodes (comments export)) = 4.
Proof.
  destruct (Sample.run 10 " 100 ") as [[export| |] log'] eqn:E;
    try (vm_compute in E; discriminate).
  exists export, log'. split; [reflexivity|].
  pose proof (proj1 totalComments_counts_every_node _ _ _ _ _ _ _ _ _ E)
    as (Hnodes & _ & _).
  assert (Hexp : fst (Sample.run 10 " 100 ") = Done export) by now rewrite E.
  vm_compute in Hexp. injection Hexp as <-.
  split; [reflexivity|]. split; [reflexivity|].
  rewrite <- Hnodes. reflexivity.
Defined.

(** ** Normalizing a raw comment *)

Lemma opt_chain_undefined (path : list string) :
  fold_left opt path VUndefined = VUndefined.
Proof. induction path; simpl; auto. Qed.

Lemma field_at_opt_chain (path : list string) (v : value) :
  field_at path v
  = let r := fold_left opt path v in if nullish r then None else Some r.
Proof.
  revert v; induction path as [|k rest IH]; intros v; [reflexivity|].
  cbn [field_at fold_left].
  destruct v; try (cbn; rewrite opt_chain_undefined; reflexivity).
  apply IH.
Qed.

Lemma coalesce_first_of (a : value) (path : list string) (v rest : value) :
  a = fold_left opt path v ->
  a ?? rest = first_of [field_at path v] rest.
Proof.
  intros ->. rewrite field_at_opt_chain. cbv zeta. unfold coalesce.
  destruct (nullish (fold_left opt path v)); reflexivity.
Qed.

Lemma coalesce2_first_of (path1 path2 : list string) (v default : value) :
  fold_left opt path1 v ?? fold_left opt path2 v ?? default
  = first_of [field_at path1 v; field_at path2 v] default.
Proof.
  rewrite !field_at_opt_chain. cbv zeta. unfold coalesce.
  destruct (nullish (fold_left opt path1 v)); [|reflexivity].
  destruct (nullish (fold_left opt path2 v)); reflexivity.
Qed.

Lemma get_is_opt (v : value) (k : string) :
  nullish v = false -> v @. k = v ?. k.
Proof. unfold opt. now intros ->. Qed.

Lemma parseComment_total (raw : value) :
  nullish raw = false -> exists c, parseComment raw = Ok c.
Proof. unfold parseComment. intros ->. eauto. Qed.

Lemma parseComment_id (raw : value) (c : Comment) :
  parseComment raw = Ok c -> id c = raw @. "id".
Proof.
  unfold parseComment. destruct (nullish raw); [discriminate|].
  now intros [= <-].
Qed.

Lemma parseComment_ok (raw : value) (c : Comment) :
  parseComment raw = Ok c -> nullish raw = false.
Proof. unfold parseComment. destruct (nullish raw); [discriminate | auto]. Qed.

(** C6.  For every raw comment record, the normalized comment has
    [author] equal to the version author's display name, else the
    history creator's display name, else ["unknown"]; [created] equal to
    the version timestamp, else the history creation date, else the empty
    string; [bodyHtml] equal to the storage-format body, else the
    view-format body, else the empty string.  Every record that is not
    [null] is normalized. *)
Theorem parseComment_fallbacks :
  forall raw,
    nullish raw = false ->
    exists c,
      parseComment raw = Ok c
      /\ author c
         = first_of [field_at ["version"; "by"; "displayName"] raw;
                     field_at ["history"; "createdBy"; "displayName"] raw]
             (VStr "unknown")
      /\ created c
         = first_of [field_at ["version"; "when"] raw;
                     field_at ["history"; "createdDate"] raw]
             (VStr "")
      /\ bodyHtml c
         = first_of [field_at ["body"; "storage"; "value"] raw;
                     field_at ["body"; "view"; "value"] raw]
             (VStr "").
Proof.
  intros raw Hraw. unfold parseComment. rewrite Hraw.
  eexists; split; [reflexivity|]. cbn [author created bodyHtml].
  rewrite !(fun k => @get_is_opt raw k Hraw).
  repeat split.
  - exact (coalesce2_first_of ["version"; "by"; "displayName"]
             ["history"; "createdBy"; "displayName"] raw (VStr "unknown")).
  - exact (coalesce2_first_of ["version"; "when"]
             ["history"; "createdDate"] raw (VStr "")).
  - exact (coalesce2_first_of ["body"; "storage"; "value"]
             ["body"; "view"; "value"] raw (VStr "")).
Qed.

(** A record with history and a view body only, and one with a
    version and a storage body. *)
Lemma parseComment_fallbacks_witness :
  (exists c,
      parseComment (Sample.raw_inline "202" "open") = Ok c
      /\ author c = VStr "Bob"
      /\ created c = VStr "2026-01-01T00:00:00.000Z"
      /\ bodyHtml c = VStr "<p>inline</p>")
  /\ (exists c,
         parseComment (VObj [("id", VStr "7")]) = Ok c
         /\ author c = VStr "unknown"
         /\ created c = VStr ""
         /\ bodyHtml c = VStr "").
Proof.
  split.
  - destruct (parseComment_fallbacks (Sample.raw_inline "202" "open") eq_refl)
      as (c & Hc & Ha & Hcr & Hb).
    exists c. repeat split; assumption.
  - destruct (parseComment_fallbacks (VObj [("id", VStr "7")]) eq_refl)
      as (c & Hc & Ha & Hcr & Hb).
    exists c. repeat split; assumption.
Defined.

Lemma ext_field (raw : value) (k : string) :
  nullish raw = false ->
  (raw @. "extensions" ?? VObj []) @. k = fold_left opt ["extensions"; k] raw.
Proof.
  intros Hraw. cbn [fold_left]. rewrite <- (get_is_opt raw "extensions" Hraw).
  unfold coalesce, opt.
  destruct (nullish (raw @. "extensions")); reflexivity.
Qed.

Lemma truthy_not_nullish (v : value) : truthy v = true -> nullish v = false.
Proof. destruct v; simpl; congruence. Qed.

Lemma strict_eq_str_iff (v : value) (lit : string) :
  strict_eq_str v lit = true <-> v = VStr lit.
Proof.
  destruct v; simpl; try (split; [discriminate | intros H; discriminate H]).
  rewrite String.eqb_eq. split; [congruence | now intros [= ->]].
Qed.

Lemma field_at_literal (path : list string) (raw : value) (lit : string) :
  fold_left opt path raw = VStr lit <-> field_at path raw = Some (VStr lit).
Proof.
  rewrite field_at_opt_chain. cbv zeta.
  destruct (fold_left opt path raw); simpl; split; congruence.
Qed.

(** C7.  For every raw comment record, [inlineContext] is there exactly
    when the record carries inline-annotation data at
    [extensions.inlineProperties]; otherwise the member is absent
    ([None]: it is neither [null] nor an empty object).  When it is there,
    [textSelection] and [markerRef] are the upstream values with the
    empty string as default, and [resolved] is true exactly when the
    upstream resolution status is the literal ["resolved"]. *)
Theorem parseComment_inlineContext :
  forall raw,
    nullish raw = false ->
    exists c,
      parseComment raw = Ok c
      /\ (inlineContext c <> None <-> inline_data raw <> None)
      /\ (inline_data raw = None -> inlineContext c = None)
      /\ (forall ip,
             inline_data raw = Some ip ->
             exists ic,
               inlineContext c = Some ic
               /\ textSelection ic
                  = first_of [field_at ["originalSelection"] ip] (VStr "")
               /\ markerRef ic = first_of [field_at ["markerRef"] ip] (VStr "")
               /\ (resolved ic = true <-> status_is_resolved raw)).
Proof.
  intros raw Hraw. unfold parseComment. rewrite Hraw.
  eexists; split; [reflexivity|]. cbn [inlineContext].
  rewrite !(fun k => ext_field raw k Hraw).
  unfold inline_data, status_is_resolved.
  rewrite (field_at_opt_chain ["extensions"; "inlineProperties"]). cbv zeta.
  set (ip := fold_left opt ["extensions"; "inlineProperties"] raw).
  destruct (truthy ip) eqn:Hip.
  - rewrite (truthy_not_nullish _ Hip), ?Hip.
    split; [split; discriminate|]. split; [discriminate|].
    intros ip' [= <-]. eexists; split; [reflexivity|].
    cbn [textSelection markerRef resolved].
    pose proof (truthy_not_nullish _ Hip) as Hnn.
    split; [|split].
    + apply (coalesce_first_of _ ["originalSelection"]). cbn [fold_left].
      now apply get_is_opt.
    + apply (coalesce_first_of _ ["markerRef"]). cbn [fold_left].
      now apply get_is_opt.
    + rewrite strict_eq_str_iff.
      apply (field_at_literal ["extensions"; "resolution"; "status"]).
  - assert (Hnone : match (if nullish ip then None else Some ip) with
                     | Some ip0 => if truthy ip0 then Some ip0 else None
                     | None => None
                     end = None)
      by (destruct (nullish ip); [|rewrite Hip]; reflexivity).
    rewrite Hnone.
    split; [split; intros H; now elim H|]. split; [reflexivity|discriminate].
Qed.

(** The sample inline comment, resolved and open, and a record
    without extensions. *)
Lemma parseComment_inlineContext_witness :
  (exists c,
      parseComment (Sample.raw_inline "202" "resolved") = Ok c
      /\ inlineContext c
         = Some {| textSelection := VStr "some text";
                   markerRef := VStr "";
                   resolved := true |})
  /\ (exists c,
         parseComment (Sample.raw_inline "202" "open") = Ok c
         /\ inlineContext c
            = Some {| textSelection := VStr "some text";
                      markerRef := VStr "";
                      resolved := false |})
  /\ (exists c,
         parseComment (Sample.raw_comment "201" "<p>first</p>") = Ok c
         /\ inlineContext c = None).
Proof.
  split; [|split].
  - destruct (parseComment_inlineContext (Sample.raw_inline "202" "resolved") eq_refl)
      as (c & Hc & _).
    exists c. split; [exact Hc|]. injection Hc as <-. reflexivity.
  - destruct (parseComment_inlineContext (Sample.raw_inline "202" "open") eq_refl)
      as (c & Hc & _).
    exists c. split; [exact Hc|]. injection Hc as <-. reflexivity.
  - destruct (parseComment_inlineContext (Sample.raw_comment "201" "<p>first</p>") eq_refl)
      as (c & Hc & _ & Hnone & _).
    exists c. split; [exact Hc|]. apply Hnone. reflexivity.
Defined.

(** ** The input resolver *)

Definition stops (p : ascii -> bool) (s : string) : Prop :=
  match s with
  | EmptyString => True
  | String c _ => p c = false
  end.

Lemma span_split (p : ascii -> bool) (s a b : string) :
  span p s = (a, b) -> s = a ++ b /\ every p a = true /\ stops p b.
Proof.
  revert a b; induction s as [|c s IH]; intros a b H; simpl in H.
  - injection H as <- <-. simpl; auto.
  - destruct (p c) eqn:Hc.
    + destruct (span p s) as [a' b'] eqn:E. injection H as <- <-.
      destruct (IH a' b' eq_refl) as (-> & Ha & Hb).
      simpl. rewrite Hc, Ha. auto.
    + injection H as <- <-. simpl. auto.
Qed.

Lemma span_append (p : ascii -> bool) (a b : string) :
  every p a = true -> stops p b -> span p (a ++ b) = (a, b).
Proof.
  induction a as [|c a IH]; simpl; intros Ha Hb.
  - destruct b as [|c b]; [reflexivity|]. simpl in *. now rewrite Hb.
  - apply andb_true_iff in Ha as [Hc Ha]. now rewrite Hc, IH.
Qed.

Lemma all_digits_every (s : string) :
  all_digits s = true <-> s <> "" /\ every is_digit s = true.
Proof.
  destruct s as [|c s]; simpl.
  - split; [discriminate | now intros [H _]].
  - split; [intros H; split; [discriminate | exact H] | now intros [_ H]].
Qed.

Lemma startsWith_slash (post : string) :
  startsWith "/" post = true <-> exists rest, post = String "/" rest.
Proof. apply startsWith_iff. Qed.

Lemma slash_stops_digits (post : string) :
  post = "" \/ startsWith "/" post = true -> stops is_digit post.
Proof.
  intros [-> | H]; [exact I|].
  apply startsWith_slash in H as [rest ->]. reflexivity.
Qed.

Lemma match_pages_here_sound (s digits : string) :
  match_pages_here s = Some digits -> exists post, pages_match_at s "" digits post.
Proof.
  unfold match_pages_here. destruct (startsWith "/pages/" s) eqn:Hs; [|discriminate].
  apply startsWith_split in Hs. change (String.length "/pages/") with 7 in Hs.
  destruct (span is_digit (slice 7 s)) as [d rest] eqn:E.
  apply span_split in E as (Hsplit & Hd & _). rewrite Hsplit in Hs.
  intros H. exists rest.
  destruct d as [|c d]; [discriminate|].
  destruct rest as [|r rest].
  - injection H as <-. split; [exact Hs|]. split; [exact Hd|]. now left.
  - destruct (Ascii.eqb r "/") eqn:Hr; [|discriminate]. injection H as <-.
    apply Ascii.eqb_eq in Hr as ->.
    split; [exact Hs|]. split; [exact Hd|]. right. reflexivity.
Qed.

Lemma match_pages_here_complete (s digits post : string) :
  pages_match_at s "" digits post -> match_pages_here s = Some digits.
Proof.
  intros (-> & Hd & Hpost). unfold match_pages_here.
  change ("" ++ "/pages/" ++ digits ++ post) with ("/pages/" ++ (digits ++ post)).
  rewrite startsWith_append.
  change 7 with (String.length "/pages/"). rewrite slice_append.
  apply all_digits_every in Hd as [Hne Hd].
  rewrite (span_append _ _ _ Hd (slash_stops_digits _ Hpost)).
  destruct digits as [|c d]; [congruence|].
  destruct Hpost as [-> | Hpost]; [reflexivity|].
  apply startsWith_slash in Hpost as [rest ->]. reflexivity.
Qed.

Lemma pages_match_at_shift (c : ascii) (s pre digits post : string) :
  pages_match_at (String c s) (String c pre) digits post
  <-> pages_match_at s pre digits post.
Proof.
  unfold pages_match_at; simpl; split; intros (H & Hd & Hp); repeat split; auto;
    congruence.
Qed.

Lemma pages_match_at_cons (c : ascii) (s pre digits post : string) :
  pages_match_at (String c s) pre digits post ->
  pre = "" \/ exists pre', pre = String c pre' /\ pages_match_at s pre' digits post.
Proof.
  destruct pre as [|b pre]; [now left|]. intros H. right.
  assert (b = c) as -> by (destruct H as (H & _); simpl in H; congruence).
  exists pre. split; [reflexivity|]. exact (proj1 (pages_match_at_shift _ _ _ _ _) H).
Qed.

Lemma match_pages_some (s digits : string) :
  match_pages s = Some digits ->
  exists pre post, first_pages_match s pre digits post.
Proof.
  revert digits; induction s as [|c s IH]; intros digits H.
  - discriminate.
  - cbn [match_pages] in H.
    destruct (match_pages_here (String c s)) as [d|] eqn:Here.
    + injection H as ->. apply match_pages_here_sound in Here as [post Hm].
      exists "", post. split; [exact Hm|]. intros; simpl; lia.
    + destruct (IH _ H) as (pre & post & Hm & Hleft).
      exists (String c pre), post.
      split; [exact (proj2 (pages_match_at_shift _ _ _ _ _) Hm)|].
      intros pre' d' post' Hm'.
      destruct (pages_match_at_cons _ _ _ _ _ Hm') as [-> | (pre'' & -> & Hm'')].
      * apply match_pages_here_complete in Hm'. congruence.
      * simpl. apply Hleft in Hm''. lia.
Qed.

Lemma match_pages_none (s : string) :
  match_pages s = None ->
  forall pre digits post, ~ pages_match_at s pre digits post.
Proof.
  induction s as [|c s IH]; intros H pre digits post Hm.
  - destruct Hm as (Hm & _). destruct pre; discriminate.
  - cbn [match_pages] in H.
    destruct (match_pages_here (String c s)) as [d|] eqn:Here; [discriminate|].
    destruct (pages_match_at_cons _ _ _ _ _ Hm) as [-> | (pre' & -> & Hm')].
    + apply match_pages_here_complete in Hm. congruence.
    + exact (IH H _ _ _ Hm').
Qed.

(** The digits of a match are decided by where it starts. *)
Lemma pages_match_at_unique (s pre d1 post1 d2 post2 : string) :
  pages_match_at s pre d1 post1 -> pages_match_at s pre d2 post2 -> d1 = d2.
Proof.
  revert s; induction pre as [|c pre IH]; intros s H1 H2.
  - apply match_pages_here_complete in H1, H2. congruence.
  - destruct s as [|b s]; [destruct H1 as (H1 & _); discriminate|].
    assert (b = c) as -> by (destruct H1 as (H1 & _); simpl in H1; congruence).
    apply (proj1 (pages_match_at_shift _ _ _ _ _)) in H1.
    apply (proj1 (pages_match_at_shift _ _ _ _ _)) in H2. eauto.
Qed.

Lemma first_pages_match_found (s pre digits post : string) :
  first_pages_match s pre digits post -> match_pages s = Some digits.
Proof.
  intros [Hm Hleft].
  destruct (match_pages s) as [d|] eqn:E.
  - apply match_pages_some in E as (pre' & post' & Hm' & Hleft').
    pose proof (Hleft _ _ _ Hm'). pose proof (Hleft' _ _ _ Hm).
    assert (pre = pre') as <-.
    { destruct Hm as (Hs & _), Hm' as (Hs' & _). rewrite Hs in Hs'.
      clear - Hs' H H0. revert pre' Hs' H H0.
      induction pre as [|a pre IH]; intros [|b pre'] Hs' H H0; simpl in *;
        try reflexivity; try lia.
      injection Hs' as -> Hs'. f_equal. apply IH; auto; lia. }
    f_equal. symmetry. eapply pages_match_at_unique; eauto.
  - exfalso. eapply match_pages_none; eauto.
Qed.

Lemma all_digits_not_empty (s : string) :
  all_digits s = true -> String.eqb s "" || negb (all_digits s) = false.
Proof. intros H. rewrite H. now destruct s. Qed.

(** C3.  [parsePageInput] on an input whose trimmed form is made of
    digits only returns that digit string as [pageId], with
    [hostFromUrl] absent.  On any other input that parses as an absolute
    URL, the [pageId] is the digits of the first match of
    [/pages/<digits>] in the path (the digits ending a path segment);
    without such a match it is the [pageId] query parameter; the
    [hostFromUrl] is the URL's host in lower case.  When the input is
    neither, or the URL yields no value made of digits only, the call
    fails with an invalid-input error.  A [pageId] that is returned is
    always made of digits only. *)
Theorem parsePageInput_spec :
  forall (parseURL : string -> option URL) (idOrUrl : string),
    (all_digits (trim idOrUrl) = true ->
     parsePageInput parseURL idOrUrl
     = Ok {| pageId := trim idOrUrl; hostFromUrl := None |})
    /\ (all_digits (trim idOrUrl) = false ->
        forall url,
          parseURL (trim idOrUrl) = Some url ->
          (forall pre digits post,
              first_pages_match (pathname url) pre digits post ->
              parsePageInput parseURL idOrUrl
              = Ok {| pageId := digits;
                      hostFromUrl := Some (toLowerCase (host url)) |})
          /\ ((forall pre digits post,
                  ~ pages_match_at (pathname url) pre digits post) ->
              parsePageInput parseURL idOrUrl
              = match searchParams_get "pageId" (searchParams url) with
                | Some q =>
                    if all_digits q
                    then Ok {| pageId := q;
                               hostFromUrl := Some (toLowerCase (host url)) |}
                    else Err (InvalidInput msg_no_page_id)
                | None => Err (InvalidInput msg_no_page_id)
                end))
    /\ (all_digits (trim idOrUrl) = false ->
        parseURL (trim idOrUrl) = None ->
        parsePageInput parseURL idOrUrl = Err (InvalidInput msg_invalid_identifier))
    /\ (forall parsed,
           parsePageInput parseURL idOrUrl = Ok parsed ->
           all_digits (pageId parsed) = true).
Proof.
  intros parseURL idOrUrl. unfold parsePageInput.
  destruct (all_digits (trim idOrUrl)) eqn:Hnum.
  { repeat split; try discriminate.
    intros parsed [= <-]. exact Hnum. }
  split; [discriminate|].
  destruct (parseURL (trim idOrUrl)) as [url|] eqn:Hurl.
  2:{ repeat split; try discriminate. }
  split; [|split; [discriminate|]].
  - intros _ url' [= <-]. split.
    + intros pre digits post Hfirst.
      rewrite (first_pages_match_found _ _ _ _ Hfirst).
      destruct Hfirst as [(_ & Hd & _) _].
      now rewrite (all_digits_not_empty _ Hd).
    + intros Hnone.
      destruct (match_pages (pathname url)) as [d|] eqn:E.
      * apply match_pages_some in E as (pre & post & Hm & _).
        now elim (Hnone _ _ _ Hm).
      * destruct (searchParams_get "pageId" (searchParams url)) as [q|];
          [|reflexivity].
        destruct (all_digits q) eqn:Hq.
        -- destruct q; [discriminate Hq | reflexivity].
        -- cbn [negb]. now rewrite orb_true_r.
  - intros parsed.
    destruct (match_pages (pathname url)) as [d|] eqn:E.
    + apply match_pages_some in E as (pre & post & (_ & Hd & _) & _).
      rewrite (all_digits_not_empty _ Hd). now intros [= <-].
    + destruct (searchParams_get "pageId" (searchParams url)) as [q|];
        [|discriminate].
      destruct (all_digits q) eqn:Hq.
      * destruct q; [discriminate Hq|]. now intros [= <-].
      * cbn [negb]. rewrite orb_true_r. discriminate.
Qed.

(** The inputs of the project's own tests, and one that is no URL. *)
Lemma parsePageInput_spec_witness :
  parsePageInput SimpleURL.parse "22982787097"
  = Ok {| pageId := "22982787097"; hostFromUrl := None |}
  /\ parsePageInput SimpleURL.parse
       "https://example.atlassian.net/wiki/spaces/ENG/pages/22982787097/My+Page"
     = Ok {| pageId := "22982787097";
             hostFromUrl := Some "example.atlassian.net" |}
  /\ parsePageInput SimpleURL.parse
       "https://Example.Atlassian.net/wiki/pages/viewpage.action?pageId=22982787097"
     = Ok {| pageId := "22982787097";
             hostFromUrl := Some "example.atlassian.net" |}
  /\ parsePageInput SimpleURL.parse
       "https://example.atlassian.net/wiki/spaces/ENG/overview"
     = Err (InvalidInput msg_no_page_id)
  /\ parsePageInput SimpleURL.parse "page 22982787097"
     = Err (InvalidInput msg_invalid_identifier).
Proof.
  split; [|split; [|split; [|split]]].
  - exact (proj1 (parsePageInput_spec SimpleURL.parse "22982787097") eq_refl).
  - match goal with |- parsePageInput _ ?i = _ => set (input := i) end.
    destruct (SimpleURL.parse (trim input)) as [url|] eqn:Hurl;
      [|vm_compute in Hurl; discriminate].
    destruct (match_pages_some (pathname url) "22982787097") as (pre & post & Hfirst).
    { vm_compute in Hurl. injection Hurl as <-. reflexivity. }
    destruct (parsePageInput_spec SimpleURL.parse input) as (_ & Hparsed & _).
    rewrite (proj1 (Hparsed eq_refl url Hurl) pre "22982787097" post Hfirst).
    vm_compute in Hurl. injection Hurl as <-. reflexivity.
  - match goal with |- parsePageInput _ ?i = _ => set (input := i) end.
    destruct (SimpleURL.parse (trim input)) as [url|] eqn:Hurl;
      [|vm_compute in Hurl; discriminate].
    destruct (parsePageInput_spec SimpleURL.parse input) as (_ & Hparsed & _).
    rewrite (proj2 (Hparsed eq_refl url Hurl)).
    + vm_compute in Hurl. injection Hurl as <-. reflexivity.
    + apply match_pages_none. vm_compute in Hurl. injection Hurl as <-. reflexivity.
  - match goal with |- parsePageInput _ ?i = _ => set (input := i) end.
    destruct (SimpleURL.parse (trim input)) as [url|] eqn:Hurl;
      [|vm_compute in Hurl; discriminate].
    destruct (parsePageInput_spec SimpleURL.parse input) as (_ & Hparsed & _).
    rewrite (proj2 (Hparsed eq_refl url Hurl)).
    + vm_compute in Hurl. injection Hurl as <-. reflexivity.
    + apply match_pages_none. vm_compute in Hurl. injection Hurl as <-. reflexivity.
  - destruct (parsePageInput_spec SimpleURL.parse "page 22982787097")
      as (_ & _ & Hinvalid & _).
    exact (Hinvalid eq_refl eq_refl).
Defined.

Lemma toLowerCase_empty (s : string) : toLowerCase s = "" <-> s = "".
Proof. destruct s; simpl; split; congruence. Qed.

Lemma parsePageInput_host (parseURL : string -> option URL) (idOrUrl : string)
  (parsed : ParsedPageInput) (h : string) :
  parsePageInput parseURL idOrUrl = Ok parsed ->
  hostFromUrl parsed = Some h ->
  all_digits (trim idOrUrl) = false
  /\ exists url, parseURL (trim idOrUrl) = Some url /\ h = toLowerCase (host url).
Proof.
  unfold parsePageInput.
  destruct (all_digits (trim idOrUrl)); [intros [= <-]; discriminate|].
  destruct (parseURL (trim idOrUrl)) as [url|]; [|discriminate].
  destruct (match match_pages (pathname url) with
            | Some p => Some p
            | None => searchParams_get "pageId" (searchParams url)
            end) as [p|]; [|discriminate].
  destruct (String.eqb p "" || negb (all_digits p)); [discriminate|].
  intros [= <-] [= <-]. eauto.
Qed.

Lemma msg_host_mismatch_names (h configuredSite : string) :
  occurs_in h (msg_host_mismatch h configuredSite)
  /\ occurs_in configuredSite (msg_host_mismatch h configuredSite).
Proof.
  unfold msg_host_mismatch. split.
  - apply occurs_in_later, occurs_in_here.
  - do 3 apply occurs_in_later. apply occurs_in_here.
Qed.

(** A URL on another host from which no page ID can be extracted is
    refused as invalid input, before the hosts are compared. *)
Lemma host_mismatch_iff_host_differs_fails :
  resolvePageIdForSite SimpleURL.parse
    "https://other.atlassian.net/wiki/spaces/ENG/overview" "example.atlassian.net"
  = Err (InvalidInput msg_no_page_id)
  /\ ~ host_mismatch_iff_host_differs SimpleURL.parse.
Proof.
  split; [reflexivity|]. intros H.
  destruct (proj2 (H "https://other.atlassian.net/wiki/spaces/ENG/overview"
                     "example.atlassian.net")) as [message Hm].
  - split; [reflexivity|]. eexists. split; [reflexivity|]. vm_compute. discriminate.
  - vm_compute in Hm. discriminate.
Qed.

(** C2, amended.  [resolvePageIdForSite] fails with a host mismatch
    exactly when [parsePageInput] extracts a page ID from the input as a
    URL, and the URL's host is not empty and differs, letter case
    apart, from the configured site; the message names both hosts.  A
    URL whose host equals the site up to letter case resolves to its page
    ID, an input made of digits is resolved without any comparison of
    hosts, and when [fetchConfluencePage] fails with the mismatch it has
    issued no request.  A URL from which no numeric page ID can be
    extracted, no [/pages/<digits>] in its path and no [pageId] of
    digits in its query, fails as invalid input, whatever its host and
    whatever the configured site; so does an input that is neither
    digits nor a URL; and the call fails as invalid input in no other
    case than those in which [parsePageInput] does. *)
Theorem resolvePageIdForSite_host_check :
  forall (parseURL : string -> option URL) (idOrUrl configuredSite : string),
    ((exists message,
         resolvePageIdForSite parseURL idOrUrl configuredSite
         = Err (HostMismatch message))
     <-> (all_digits (trim idOrUrl) = false
          /\ exists url id,
              parseURL (trim idOrUrl) = Some url
              /\ parsePageInput parseURL idOrUrl
                 = Ok {| pageId := id;
                         hostFromUrl := Some (toLowerCase (host url)) |}
              /\ host url <> ""
              /\ toLowerCase (host url) <> toLowerCase configuredSite))
    /\ (forall message,
           resolvePageIdForSite parseURL idOrUrl configuredSite
           = Err (HostMismatch message) ->
           exists url,
             parseURL (trim idOrUrl) = Some url
             /\ message = msg_host_mismatch (toLowerCase (host url)) configuredSite
             /\ occurs_in (toLowerCase (host url)) message
             /\ occurs_in configuredSite message)
    /\ (forall id h,
           parsePageInput parseURL idOrUrl
           = Ok {| pageId := id; hostFromUrl := Some h |} ->
           h = toLowerCase configuredSite ->
           resolvePageIdForSite parseURL idOrUrl configuredSite = Ok id)
    /\ (all_digits (trim idOrUrl) = true ->
        resolvePageIdForSite parseURL idOrUrl configuredSite = Ok (trim idOrUrl))
    /\ (forall upstream now fuel config log message,
           resolvePageIdForSite parseURL idOrUrl (site config)
           = Err (HostMismatch message) ->
           fetchConfluencePage parseURL upstream now fuel config idOrUrl log
           = (Throw (HostMismatch message), log))
    /\ (all_digits (trim idOrUrl) = false ->
        forall url,
          parseURL (trim idOrUrl) = Some url ->
          (forall pre digits post,
              ~ pages_match_at (pathname url) pre digits post) ->
          (forall q,
              searchParams_get "pageId" (searchParams url) = Some q ->
              all_digits q = false) ->
          resolvePageIdForSite parseURL idOrUrl configuredSite
          = Err (InvalidInput msg_no_page_id))
    /\ (all_digits (trim idOrUrl) = false ->
        parseURL (trim idOrUrl) = None ->
        resolvePageIdForSite parseURL idOrUrl configuredSite
        = Err (InvalidInput msg_invalid_identifier))
    /\ (forall message,
           resolvePageIdForSite parseURL idOrUrl configuredSite
           = Err (InvalidInput message)
           <-> parsePageInput parseURL idOrUrl = Err (InvalidInput message)).
Proof.
  intros parseURL idOrUrl configuredSite.
  assert (Hfail : forall message,
             resolvePageIdForSite parseURL idOrUrl configuredSite
             = Err (HostMismatch message) ->
             exists parsed h,
               parsePageInput parseURL idOrUrl = Ok parsed
               /\ hostFromUrl parsed = Some h
               /\ h <> "" /\ h <> toLowerCase configuredSite
               /\ message = msg_host_mismatch h configuredSite).
  { intros message. unfold resolvePageIdForSite.
    destruct (parsePageInput parseURL idOrUrl) as [parsed|e] eqn:Hp.
    - destruct (hostFromUrl parsed) as [h|] eqn:Hh; [|discriminate].
      destruct (String.eqb h "") eqn:He; [discriminate|].
      destruct (String.eqb h (toLowerCase configuredSite)) eqn:Hs; [discriminate|].
      cbn [negb andb]. intros [= <-].
      apply String.eqb_neq in He, Hs. exists parsed, h. auto.
    - intros [= ->]. exfalso. revert Hp. unfold parsePageInput.
      destruct (all_digits _); [discriminate|].
      destruct (parseURL _) as [url|]; [|discriminate].
      destruct (match match_pages (pathname url) with
                | Some p => Some p
                | None => searchParams_get "pageId" (searchParams url)
                end) as [p|]; [|discriminate].
      destruct (String.eqb p "" || negb (all_digits p)); discriminate. }
  split; [split|split; [|split; [|split; [|split; [|split; [|split]]]]]].
  - intros [message Hm].
    destruct (Hfail _ Hm) as (parsed & h & Hp & Hh & He & Hs & _).
    destruct (parsePageInput_host _ _ _ _ Hp Hh) as (Hnum & url & Hurl & ->).
    split; [exact Hnum|]. exists url, (pageId parsed).
    split; [exact Hurl|]. split; [destruct parsed; simpl in *; congruence|].
    split; [|exact Hs]. intros E. apply He. now apply toLowerCase_empty.
  - intros (_ & url & id & _ & Hp & He & Hs).
    exists (msg_host_mismatch (toLowerCase (host url)) configuredSite).
    unfold resolvePageIdForSite. rewrite Hp. cbn [hostFromUrl pageId].
    assert (He' : toLowerCase (host url) <> "")
      by (intros E; apply He; now apply toLowerCase_empty).
    apply String.eqb_neq in He', Hs. now rewrite He', Hs.
  - intros message Hm.
    destruct (Hfail _ Hm) as (parsed & h & Hp & Hh & _ & _ & ->).
    destruct (parsePageInput_host _ _ _ _ Hp Hh) as (_ & url & Hurl & ->).
    exists url. split; [exact Hurl|]. split; [reflexivity|].
    apply msg_host_mismatch_names.
  - intros id h Hp ->. unfold resolvePageIdForSite. rewrite Hp.
    cbn [hostFromUrl pageId]. rewrite String.eqb_refl, andb_false_r. reflexivity.
  - intros Hnum. unfold resolvePageIdForSite, parsePageInput. now rewrite Hnum.
  - intros upstream now fuel config log message Hm.
    unfold fetchConfluencePage, bind. now rewrite Hm.
  - intros Hnum url Hurl Hnone Hquery.
    unfold resolvePageIdForSite, parsePageInput. rewrite Hnum, Hurl.
    destruct (match_pages (pathname url)) as [d|] eqn:E.
    { apply match_pages_some in E as (pre & post & Hm & _).
      now elim (Hnone _ _ _ Hm). }
    destruct (searchParams_get "pageId" (searchParams url)) as [q|];
      [|reflexivity].
    rewrite (Hquery q eq_refl). cbn [negb]. now rewrite orb_true_r.
  - intros Hnum Hurl.
    unfold resolvePageIdForSite, parsePageInput. now rewrite Hnum, Hurl.
  - intros message. unfold resolvePageIdForSite.
    destruct (parsePageInput parseURL idOrUrl) as [parsed|e];
      [|split; intros [= ->]; reflexivity].
    split; [|discriminate].
    destruct (hostFromUrl parsed) as [h|]; [|discriminate].
    destruct (negb (String.eqb h "")
              && negb (String.eqb h (toLowerCase configuredSite)));
      discriminate.
Qed.

(** The second end-to-end scenario of the specification, the same
    page addressed on the configured site in capitals, a bare ID, and an
    address on another host that names no page. *)
Lemma resolvePageIdForSite_host_check_witness :
  (exists message,
      resolvePageIdForSite SimpleURL.parse
        "https://other.atlassian.net/wiki/pages/viewpage.action?pageId=55"
        "example.atlassian.net"
      = Err (HostMismatch message)
      /\ occurs_in "other.atlassian.net" message
      /\ occurs_in "example.atlassian.net" message
      /\ Sample.run 10 "https://other.atlassian.net/wiki/pages/viewpage.action?pageId=55"
         = (Throw (HostMismatch message), []))
  /\ resolvePageIdForSite SimpleURL.parse
       "https://EXAMPLE.atlassian.net/wiki/pages/viewpage.action?pageId=55"
       "Example.Atlassian.NET"
     = Ok "55"
  /\ resolvePageIdForSite SimpleURL.parse "22982787097" "example.atlassian.net"
     = Ok "22982787097"
  /\ resolvePageIdForSite SimpleURL.parse
       "https://other.atlassian.net/wiki/spaces/ENG/overview"
       "example.atlassian.net"
     = Err (InvalidInput msg_no_page_id)
  /\ resolvePageIdForSite SimpleURL.parse "page 22982787097"
       "example.atlassian.net"
     = Err (InvalidInput msg_invalid_identifier).
Proof.
  split; [|split; [|split; [|split]]].
  - destruct (resolvePageIdForSite_host_check SimpleURL.parse
                "https://other.atlassian.net/wiki/pages/viewpage.action?pageId=55"
                "example.atlassian.net")
      as (Hiff & Hnames & _ & _ & Hquiet & _).
    destruct (proj2 Hiff) as [message Hm].
    { split; [reflexivity|].
      eexists; exists "55". split; [reflexivity|]. split; [reflexivity|].
      split; vm_compute; discriminate. }
    exists message. split; [exact Hm|].
    destruct (Hnames message Hm) as (url & Hurl & _ & Hh & Hs).
    vm_compute in Hurl. injection Hurl as <-.
    split; [exact Hh|]. split; [exact Hs|].
    exact (Hquiet Sample.wiki Sample.now 10 Sample.config [] message Hm).
  - destruct (resolvePageIdForSite_host_check SimpleURL.parse
                "https://EXAMPLE.atlassian.net/wiki/pages/viewpage.action?pageId=55"
                "Example.Atlassian.NET")
      as (_ & _ & Hsame & _).
    exact (Hsame "55" "example.atlassian.net" eq_refl eq_refl).
  - exact (proj1 (proj2 (proj2 (proj2
             (resolvePageIdForSite_host_check SimpleURL.parse "22982787097"
                "example.atlassian.net")))) eq_refl).
  - destruct (resolvePageIdForSite_host_check SimpleURL.parse
                "https://other.atlassian.net/wiki/spaces/ENG/overview"
                "example.atlassian.net")
      as (_ & _ & _ & _ & _ & Hnone & _).
    eapply (Hnone eq_refl); [reflexivity | now apply match_pages_none | discriminate].
  - destruct (resolvePageIdForSite_host_check SimpleURL.parse
                "page 22982787097" "example.atlassian.net")
      as (_ & _ & _ & _ & _ & _ & Hinvalid & _).
    exact (Hinvalid eq_refl eq_refl).
Defined.

(** ** The paginated fetcher *)

Lemma normalizePaginationLink_spec (next : string) :
  (startsWith "http://" next = true \/ startsWith "https://" next = true ->
   normalizePaginationLink next = next)
  /\ (forall rest, next = "/wiki/" ++ rest -> normalizePaginationLink next = "/" ++ rest)
  /\ (startsWith "/wiki/" next = false -> normalizePaginationLink next = next).
Proof.
  unfold normalizePaginationLink. split; [|split].
  - intros [-> | ->]; [reflexivity | now rewrite orb_true_r].
  - intros rest ->. reflexivity.
  - intros ->. now destruct (_ || _).
Qed.

Lemma normalizePaginationLink_not_empty (next : string) :
  next <> "" -> normalizePaginationLink next <> "".
Proof.
  intros Hne. unfold normalizePaginationLink.
  destruct (_ || _); [exact Hne|].
  destruct (startsWith "/wiki/" next) eqn:Hw; [|exact Hne].
  apply startsWith_iff in Hw as [rest ->]. discriminate.
Qed.

Section FetchAllPages.

Variable upstream : string -> Response.
Variable base : string.

Local Notation "'apiGet''" := (client_apiGet upstream base).
Local Notation "'loop'" := (fetchAllPages_loop upstream base).

Lemma apiGet_answers (path : string) (page : value) (log : list string) :
  answers upstream base path page ->
  apiGet' path log = (Done page, (log ++ [request_url base path])%list).
Proof.
  intros (status & statusText & Hup & Hok & _).
  unfold client_apiGet. now rewrite Hup, Hok.
Qed.

Lemma apiGet_done (path : string) (page : value) (log log' : list string) :
  apiGet' path log = (Done page, log') ->
  (exists status statusText,
      upstream (request_url base path) = Http status statusText (Some page)
      /\ ok status = true)
  /\ log' = (log ++ [request_url base path])%list.
Proof.
  unfold client_apiGet.
  destruct (upstream (request_url base path)) as [|status statusText body];
    [discriminate|].
  destruct (ok status) eqn:Hok; cbn [negb]; [|discriminate].
  destruct body as [json|]; [|discriminate].
  intros [= -> <-]. eauto.
Qed.

Lemma loop_stop (fuel : nat) (results : list value) :
  loop fuel results None = ret results.
Proof. destruct fuel; reflexivity. Qed.

Lemma loop_step (fuel : nat) (results : list value) (path : string)
  (page : value) (log : list string) :
  path <> "" ->
  answers upstream base path page ->
  loop (S fuel) results (Some path) log
  = (if truthy (next_of page) then
       match next_of page with
       | VStr link =>
           loop fuel (results ++ results_of page)%list
             (Some (normalizePaginationLink link))
       | _ => throw TypeError
       end
     else loop fuel (results ++ results_of page)%list None)
      (log ++ [request_url base path])%list.
Proof.
  intros Hne Hans. cbn [fetchAllPages_loop].
  apply String.eqb_neq in Hne. rewrite Hne.
  unfold bind. rewrite (apiGet_answers _ _ _ Hans).
  destruct Hans as (_ & _ & _ & _ & Hnn). rewrite Hnn.
  unfold results_of, next_of.
  destruct (page @. "results"); try rewrite app_nil_r; reflexivity.
Qed.

Lemma requests_last (path : string) (page : value) :
  requests base path [page] = [request_url base path].
Proof. cbn [requests]. now destruct (next_of page). Qed.

(** With fuel for every page, the loop collects a served listing. *)
Lemma loop_served (path : string) (pages : list value) :
  served upstream base path pages ->
  path <> "" ->
  forall fuel results log,
    length pages <= fuel ->
    loop fuel results (Some path) log
    = (Done (results ++ flat_map results_of pages)%list,
       (log ++ requests base path pages)%list).
Proof.
  induction 1 as [path page Hans Hlast | path page link pages Hans Hnext Hlink _ IH];
    intros Hne fuel results log Hfuel;
    (destruct fuel as [|fuel]; [simpl in Hfuel; lia|]);
    rewrite (loop_step _ _ _ _ _ Hne Hans).
  - rewrite Hlast, loop_stop, requests_last. cbn [flat_map]. unfold ret.
    now rewrite app_nil_r.
  - rewrite Hnext. cbn [truthy]. apply String.eqb_neq in Hlink as Hl.
    rewrite Hl. cbn [negb].
    rewrite IH by (try apply normalizePaginationLink_not_empty; auto;
                   simpl in Hfuel; lia).
    cbn [flat_map requests]. rewrite Hnext, <- !app_assoc. reflexivity.
Qed.

(** Whatever the loop returns was served as a listing. *)
Lemma loop_done (fuel : nat) :
  forall path results log rs log',
    path <> "" ->
    loop fuel results (Some path) log = (Done rs, log') ->
    exists pages,
      served upstream base path pages
      /\ length pages <= fuel
      /\ rs = (results ++ flat_map results_of pages)%list
      /\ log' = (log ++ requests base path pages)%list.
Proof.
  induction fuel as [|fuel IH]; intros path results log rs log' Hne H.
  - cbn [fetchAllPages_loop] in H. apply String.eqb_neq in Hne.
    rewrite Hne in H. discriminate.
  - pose proof H as H0. cbn [fetchAllPages_loop] in H.
    apply String.eqb_neq in Hne as Hne'. rewrite Hne' in H.
    apply bind_done in H as (page & log1 & Hget & H).
    apply apiGet_done in Hget as ((status & statusText & Hup & Hok) & ->).
    destruct (nullish page) eqn:Hnn; [discriminate|].
    assert (Hans : answers upstream base path page)
      by (exists status, statusText; auto).
    clear H. rewrite (loop_step _ _ _ _ _ Hne Hans) in H0.
    destruct (truthy (next_of page)) eqn:Htruthy.
    + destruct (next_of page) as [| | | |link| |] eqn:Hnext; try discriminate.
      assert (Hlink : link <> "").
      { simpl in Htruthy. apply negb_true_iff in Htruthy.
        now apply String.eqb_neq. }
      apply IH in H0 as (pages & Hserved & Hlen & -> & ->);
        [|now apply normalizePaginationLink_not_empty].
      exists (page :: pages). split; [eapply served_more; eauto|].
      split; [simpl; lia|].
      cbn [flat_map requests]. rewrite Hnext, <- !app_assoc. auto.
    + rewrite loop_stop in H0. injection H0 as <- <-.
      exists [page]. split; [now apply served_last|].
      split; [simpl; lia|].
      rewrite requests_last. cbn [flat_map]. now rewrite app_nil_r.
Qed.

End FetchAllPages.

Lemma requests_length (upstream : string -> Response) (base path : string)
  (pages : list value) :
  served upstream base path pages ->
  length (requests base path pages) = length pages.
Proof.
  induction 1 as [path page _ _ | path page link pages _ Hnext _ _ IH].
  - now rewrite requests_last.
  - cbn [requests length]. now rewrite Hnext, IH.
Qed.

(** A link that begins with [/wiki] but not with [/wiki/] is left
    as it is: here the prefix is followed by the query. *)
Lemma strips_every_wiki_prefix_fails :
  normalizePaginationLink "/wiki?start=100" = "/wiki?start=100"
  /\ ~ strips_every_wiki_prefix.
Proof.
  split; [reflexivity|]. intros H.
  specialize (H "/wiki?start=100").
  vm_compute in H. discriminate.
Qed.

(** C4, amended.  For every listing that the service serves from a
    path, [fetchAllPages] returns the items of the pages' [results], page
    after page in the order of the responses, having requested each page
    once, in that order, and nothing after the first page that carries
    no next link (none, or an empty one).  Whatever it returns is such
    a concatenation.  A next link is used as it is when it begins with
    [http://] or [https://]; when it begins with [/wiki/], the prefix
    [/wiki] is taken off; any other link is used as it is. *)
Theorem fetchAllPages_collects :
  forall (upstream : string -> Response) (base path : string),
    (forall pages fuel log,
        path <> "" ->
        served upstream base path pages ->
        length pages <= fuel ->
        client_fetchAllPages upstream base fuel path log
        = (Done (flat_map results_of pages),
           (log ++ requests base path pages)%list)
        /\ length (requests base path pages) = length pages)
    /\ (forall fuel log items log',
           path <> "" ->
           client_fetchAllPages upstream base fuel path log = (Done items, log') ->
           exists pages,
             served upstream base path pages
             /\ items = flat_map results_of pages
             /\ log' = (log ++ requests base path pages)%list)
    /\ (forall next,
           (startsWith "http://" next = true \/ startsWith "https://" next = true ->
            normalizePaginationLink next = next)
           /\ (forall rest,
                  next = "/wiki/" ++ rest ->
                  normalizePaginationLink next = "/" ++ rest)
           /\ (startsWith "/wiki/" next = false ->
               normalizePaginationLink next = next)).
Proof.
  intros upstream base path. split; [|split].
  - intros pages fuel log Hne Hserved Hfuel. split.
    + unfold client_fetchAllPages.
      now rewrite (loop_served _ _ _ _ Hserved Hne fuel [] log Hfuel).
    + eapply requests_length; eauto.
  - intros fuel log items log' Hne H. unfold client_fetchAllPages in H.
    apply loop_done in H as (pages & Hserved & _ & -> & ->); [|exact Hne].
    exists pages. auto.
  - exact normalizePaginationLink_spec.
Qed.

Lemma sample_answers (path : string) (page : value) :
  Sample.wiki (request_url Sample.base path) = Sample.json_ok page ->
  nullish page = false ->
  answers Sample.wiki Sample.base path page.
Proof. intros H Hnn. exists 200, "OK". rewrite H. auto. Qed.

(** The two result pages of the comments of the sample page 100: the
    next link of the first begins with [/wiki/]. *)
Lemma fetchAllPages_collects_witness :
  client_fetchAllPages Sample.wiki Sample.base 2 (comments_path "100") []
  = (Done [Sample.raw_comment "201" "<p>first</p>";
           Sample.raw_inline "202" "resolved"],
     [Sample.base ++ comments_path "100";
      Sample.base ++ "/rest/api/content/100/child/comment?start=1"]).
Proof.
  refine (proj1 (proj1 (fetchAllPages_collects Sample.wiki Sample.base
                          (comments_path "100"))
                   [Sample.result_page [Sample.raw_comment "201" "<p>first</p>"]
                      (Some "/wiki/rest/api/content/100/child/comment?start=1");
                    Sample.result_page [Sample.raw_inline "202" "resolved"] None]
                   2 [] _ _ _)).
  - discriminate.
  - eapply served_more;
      [apply sample_answers; reflexivity | reflexivity | discriminate |].
    apply served_last; [apply sample_answers; reflexivity | reflexivity].
  - simpl. lia.
Defined.

Lemma flat_map_results_arrays (pages : list value) :
  flat_map results_of pages
  = flat_map results_of (filter (fun page => isArray (page @. "results")) pages).
Proof.
  induction pages as [|page pages IH]; [reflexivity|].
  cbn [flat_map filter]. unfold results_of at 1.
  destruct (page @. "results") eqn:E; cbn [isArray app]; try exact IH.
  cbn [flat_map]. unfold results_of at 2. now rewrite E, IH.
Qed.

(** C10.  A result page whose [results] member is missing or is not an
    array does not make [fetchAllPages] fail: the page contributes no
    item, its next link is followed like any other, and what is
    returned is the concatenation of the [results] that are arrays. *)
Theorem fetchAllPages_skips_missing_results :
  forall (upstream : string -> Response) (base path : string)
         (pages : list value) (fuel : nat) (log : list string),
    path <> "" ->
    served upstream base path pages ->
    length pages <= fuel ->
    client_fetchAllPages upstream base fuel path log
    = (Done (flat_map results_of
               (filter (fun page => isArray (page @. "results")) pages)),
       (log ++ requests base path pages)%list)
    /\ length (requests base path pages) = length pages
    /\ (forall page,
           In page pages ->
           isArray (page @. "results") = false ->
           results_of page = []).
Proof.
  intros upstream base path pages fuel log Hne Hserved Hfuel.
  split; [|split].
  - unfold client_fetchAllPages.
    rewrite (loop_served _ _ _ _ Hserved Hne fuel [] log Hfuel).
    now rewrite <- flat_map_results_arrays.
  - eapply requests_length; eauto.
  - intros page _ Harr. unfold results_of.
    now destruct (page @. "results").
Qed.

(** The comments of the sample page 700: the first result page has a
    string for [results] and an absolute next link. *)
Lemma fetchAllPages_skips_missing_results_witness :
  client_fetchAllPages Sample.wiki Sample.base 2 (comments_path "700") []
  = (Done [Sample.raw_comment "701" "<p>late</p>"],
     [Sample.base ++ comments_path "700";
      Sample.base ++ "/rest/api/content/700/child/comment?start=25"]).
Proof.
  refine (proj1 (fetchAllPages_skips_missing_results Sample.wiki Sample.base
                   (comments_path "700")
                   [Sample.no_results_page
                      (Sample.base ++ "/rest/api/content/700/child/comment?start=25");
                    Sample.result_page [Sample.raw_comment "701" "<p>late</p>"] None]
                   2 [] _ _ _)).
  - discriminate.
  - eapply served_more;
      [apply sample_answers; reflexivity | reflexivity | discriminate |].
    apply served_last; [apply sample_answers; reflexivity | reflexivity].
  - simpl. lia.
Defined.

(** ** The page export assembler *)

Lemma request_url_page (base pageId : string) :
  request_url base (page_path pageId) = base ++ page_path pageId.
Proof. reflexivity. Qed.

Lemma request_url_comments (base parent : string) :
  request_url base (comments_path parent) = base ++ comments_path parent.
Proof. reflexivity. Qed.

Lemma page_info_version (base : string) (record : value) (info : Page.t) :
  page_info base record = Ok info ->
  nullish record = false
  /\ Page.version info = first_of [field_at ["version"; "number"] record] (VNum 1).
Proof.
  unfold page_info. destruct (nullish record) eqn:Hnn; [discriminate|].
  destruct (page_labels record); [|discriminate].
  intros [= <-]. split; [reflexivity|]. cbn [Page.version].
  apply coalesce_first_of. cbn [fold_left]. f_equal. now apply get_is_opt.
Qed.

(** What a successful run of [fetchConfluencePage] went through. *)
Lemma fetchConfluencePage_done parseURL upstream now fuel config idOrUrl log
  export log' :
  fetchConfluencePage parseURL upstream now fuel config idOrUrl log
  = (Done export, log') ->
  exists pageId record rawComments info log1 log2,
    resolvePageIdForSite parseURL idOrUrl (site config) = Ok pageId
    /\ client_apiGet upstream (baseUrl (createClient upstream config))
         (page_path pageId) log = (Done record, log1)
    /\ client_fetchAllPages upstream (baseUrl (createClient upstream config))
         fuel (comments_path pageId) log1 = (Done rawComments, log2)
    /\ page_info (baseUrl (createClient upstream config)) record = Ok info
    /\ page export = info
    /\ totalComments (meta export) = countComments (comments export)
    /\ fetchedAt (meta export) = now.
Proof.
  unfold fetchConfluencePage. intros H.
  apply bind_done in H as (pageId & log0 & Hid & H).
  apply lift_done in Hid as [Hid ->].
  apply bind_done in H as (record & log1 & Hpage & H).
  apply bind_done in H as (rawComments & log2 & Hraw & H).
  apply bind_done in H as (comments & log3 & _ & H).
  apply bind_done in H as (info & log4 & Hinfo & H).
  apply lift_done in Hinfo as [Hinfo ->].
  apply ret_done in H as [<- _].
  exists pageId, record, rawComments, info, log1, log2. cbn. auto 10.
Qed.

(** The sample page 600, whose record carries the version number 0,
    is exported with the version 0. *)
Lemma version_always_at_least_one_fails :
  (exists export log',
      Sample.run 10 "600" = (Done export, log')
      /\ Page.version (page export) = VNum 0)
  /\ ~ version_always_at_least_one SimpleURL.parse Sample.wiki Sample.now.
Proof.
  destruct (Sample.run 10 "600") as [[export| |] log'] eqn:E;
    try (vm_compute in E; discriminate).
  assert (Hversion : Page.version (page export) = VNum 0).
  { assert (Hexp : fst (Sample.run 10 "600") = Done export) by now rewrite E.
    vm_compute in Hexp. injection Hexp as <-. reflexivity. }
  split; [exists export, log'; auto|]. intros H.
  destruct (H 10 Sample.config "600" [] export log' E) as (n & Hn & Hle).
  rewrite Hversion in Hn. injection Hn as <-. lia.
Qed.

(** C9, amended.  In every export that [fetchConfluencePage]
    returns, [page.version] is the version number of the upstream page
    record when the record carries one, and 1 when it carries none.  It
    is an integer, at least 1, whenever the upstream number is. *)
Theorem page_version_default :
  forall parseURL upstream now fuel config idOrUrl log export log',
    fetchConfluencePage parseURL upstream now fuel config idOrUrl log
    = (Done export, log') ->
    exists pageId status statusText record,
      resolvePageIdForSite parseURL idOrUrl (site config) = Ok pageId
      /\ upstream ("https://" ++ site config ++ "/wiki" ++ page_path pageId)
         = Http status statusText (Some record)
      /\ Page.version (page export)
         = first_of [field_at ["version"; "number"] record] (VNum 1)
      /\ (field_at ["version"; "number"] record = None ->
          Page.version (page export) = VNum 1)
      /\ (forall n,
             field_at ["version"; "number"] record = Some (VNum n) ->
             (1 <= n)%Z ->
             Page.version (page export) = VNum n /\ (1 <= n)%Z).
Proof.
  intros parseURL upstream now fuel config idOrUrl log export log' H.
  apply fetchConfluencePage_done in H
    as (pageId & record & _ & info & log1 & _ & Hid & Hget & _ & Hinfo & Hpage & _).
  apply apiGet_done in Hget as ((status & statusText & Hup & _) & _).
  apply page_info_version in Hinfo as [_ Hversion].
  exists pageId, status, statusText, record.
  split; [exact Hid|]. split.
  { rewrite request_url_page in Hup. unfold createClient, baseUrl in Hup.
    now rewrite !append_assoc in Hup. }
  rewrite Hpage, Hversion.
  split; [reflexivity|]. split.
  - now intros ->.
  - intros n -> Hn. auto.
Qed.

(** The sample page 100 carries the version number 3. *)
Lemma page_version_default_witness :
  exists export log',
    Sample.run 10 "100" = (Done export, log')
    /\ Page.version (page export) = VNum 3.
Proof.
  destruct (Sample.run 10 "100") as [[export| |] log'] eqn:E;
    try (vm_compute in E; discriminate).
  exists export, log'. split; [reflexivity|].
  destruct (page_version_default _ _ _ _ _ _ _ _ _ E)
    as (pageId & status & statusText & record & Hid & Hup & _ & _ & Hnum).
  vm_compute in Hid. injection Hid as <-.
  vm_compute in Hup. injection Hup as _ _ <-.
  exact (proj1 (Hnum 3%Z eq_refl ltac:(lia))).
Defined.

(** ** Responses that are not a success *)

Section Transport.

Variable upstream : string -> Response.

(** The request of [url] is not answered with a failing status. *)
Definition accepted (url : string) : Prop :=
  forall status statusText body,
    upstream url = Http status statusText body -> ok status = true.

(** [m] issues requests only as long as they are accepted: run after
    accepted requests, either all its requests were accepted, or the last
    one was refused and [m] threw the error that reports it. *)
Definition stops_at_refusal {A} (m : M A) : Prop :=
  forall log out log',
    Forall accepted log ->
    m log = (out, log') ->
    Forall accepted log'
    \/ exists earlier url status statusText body,
        log' = (earlier ++ [url])%list
        /\ Forall accepted earlier
        /\ upstream url = Http status statusText body
        /\ ok status = false
        /\ out = Throw (TransportError (msg_api_error status statusText url)).

Lemma stops_ret A (a : A) : stops_at_refusal (ret a).
Proof. intros log out log' Hlog [= <- <-]. now left. Qed.

Lemma stops_throw A (e : error) : stops_at_refusal (@throw A e).
Proof. intros log out log' Hlog [= <- <-]. now left. Qed.

Lemma stops_out_of_fuel A : stops_at_refusal (@out_of_fuel A).
Proof. intros log out log' Hlog [= <- <-]. now left. Qed.

Lemma stops_lift A (r : result A) : stops_at_refusal (lift r).
Proof. destruct r; [apply stops_ret | apply stops_throw]. Qed.

Lemma stops_bind A B (m : M A) (k : A -> M B) :
  stops_at_refusal m ->
  (forall a, stops_at_refusal (k a)) ->
  stops_at_refusal (bind m k).
Proof.
  intros Hm Hk log out log' Hlog. unfold bind.
  destruct (m log) as [[a|e|] log1] eqn:E; intros H.
  - destruct (Hm _ _ _ Hlog E) as [Hlog1 | (? & ? & ? & ? & ? & _ & _ & _ & _ & [=])].
    exact (Hk a _ _ _ Hlog1 H).
  - injection H as <- <-.
    destruct (Hm _ _ _ Hlog E)
      as [Hlog1 | (earlier & url & st & tx & bd & H1 & H2 & H3 & H4 & [= ->])];
      [now left|].
    right. exists earlier, url, st, tx, bd. auto.
  - injection H as <- <-.
    destruct (Hm _ _ _ Hlog E)
      as [Hlog1 | (? & ? & ? & ? & ? & _ & _ & _ & _ & [=])].
    now left.
Qed.

Lemma stops_apiGet (base pathOrUrl : string) :
  stops_at_refusal (client_apiGet upstream base pathOrUrl).
Proof.
  intros log out log' Hlog. unfold client_apiGet.
  set (url := request_url base pathOrUrl).
  destruct (upstream url) as [|status statusText body] eqn:Hup.
  - intros [= <- <-]. left. apply Forall_app; split; [exact Hlog|].
    constructor; [|constructor]. intros ? ? ? H. congruence.
  - destruct (ok status) eqn:Hok; cbn [negb].
    + assert (Hacc : Forall accepted (log ++ [url])).
      { apply Forall_app; split; [exact Hlog|]. constructor; [|constructor].
        intros ? ? ? H. congruence. }
      destruct body; intros [= <- <-]; now left.
    + intros [= <- <-]. right. exists log, url, status, statusText, body. auto.
Qed.

Lemma stops_loop (base : string) (fuel : nat) :
  forall results next,
    stops_at_refusal (fetchAllPages_loop upstream base fuel results next).
Proof.
  induction fuel as [|fuel IH]; intros results [path|]; cbn [fetchAllPages_loop];
    try apply stops_ret;
    (destruct (String.eqb path ""); [apply stops_ret|]);
    [apply stops_out_of_fuel|].
  apply stops_bind; [apply stops_apiGet|]. intros page.
  destruct (nullish page); [apply stops_throw|].
  destruct (truthy _); [|apply IH].
  destruct (page @. "_links" ?. "next"); try apply stops_throw. apply IH.
Qed.

Lemma stops_for_each (body : value -> M Comment) (raws : list value) :
  (forall raw, stops_at_refusal (body raw)) ->
  forall replies, stops_at_refusal (for_each_raw body raws replies).
Proof.
  intros Hbody. induction raws as [|raw raws IH]; intros replies;
    cbn [for_each_raw]; [apply stops_ret|].
  apply stops_bind; [apply Hbody | intros; apply IH].
Qed.

Lemma stops_fetchReplies (config : RequiredConfig) (fuel : nat) :
  forall commentId,
    stops_at_refusal (fetchReplies (createClient upstream config) fuel commentId).
Proof.
  induction fuel as [|fuel IH]; intros commentId; cbn [fetchReplies];
    [apply stops_out_of_fuel|].
  apply stops_bind; [apply stops_loop|]. intros rawReplies.
  apply stops_for_each. intros raw.
  apply stops_bind; [apply stops_lift|]. intros reply.
  apply stops_bind; [apply IH | intros; apply stops_ret].
Qed.

Lemma stops_fetchConfluencePage parseURL now fuel config idOrUrl :
  stops_at_refusal (fetchConfluencePage parseURL upstream now fuel config idOrUrl).
Proof.
  unfold fetchConfluencePage.
  apply stops_bind; [apply stops_lift|]. intros pageId.
  apply stops_bind; [apply stops_apiGet|]. intros record.
  apply stops_bind; [apply stops_loop|]. intros rawComments.
  apply stops_bind.
  { apply stops_for_each. intros raw.
    apply stops_bind; [apply stops_lift|]. intros comment.
    apply stops_bind; [apply stops_fetchReplies | intros; apply stops_ret]. }
  intros comments.
  apply stops_bind; [apply stops_lift | intros; apply stops_ret].
Qed.

(** A refused request in the log of a run that started with none is
    the last request of the run, and the run threw its error. *)
Lemma refusal_is_final A (m : M A) (out : outcome A) (log' : list string)
  (url : string) (status : nat) (statusText : string) (body : option value) :
  stops_at_refusal m ->
  m [] = (out, log') ->
  In url log' ->
  upstream url = Http status statusText body ->
  ok status = false ->
  out = Throw (TransportError (msg_api_error status statusText url))
  /\ exists earlier, log' = (earlier ++ [url])%list /\ ~ In url earlier.
Proof.
  intros Hm Hrun Hin Hup Hok.
  assert (Hno : forall l, Forall accepted l -> ~ In url l).
  { intros l Hl Hin'. rewrite Forall_forall in Hl.
    specialize (Hl _ Hin' _ _ _ Hup). congruence. }
  destruct (Hm [] out log' (Forall_nil _) Hrun)
    as [Hall | (earlier & url0 & st & tx & bd & -> & Hearlier & Hup0 & _ & ->)].
  - now elim (Hno _ Hall).
  - apply in_app_or in Hin as [Hin | [<- | []]]; [now elim (Hno _ Hearlier)|].
    rewrite Hup in Hup0. injection Hup0 as <- <- <-.
    split; [reflexivity|]. exists earlier. split; [reflexivity | now apply Hno].
Qed.

End Transport.

Lemma msg_api_error_names (status : nat) (statusText url : string) :
  occurs_in (number_to_string (Z.of_nat status)) (msg_api_error status statusText url)
  /\ occurs_in statusText (msg_api_error status statusText url)
  /\ occurs_in "GET" (msg_api_error status statusText url)
  /\ occurs_in url (msg_api_error status statusText url).
Proof.
  unfold msg_api_error. repeat split.
  - apply occurs_in_later, occurs_in_here.
  - do 3 apply occurs_in_later. apply occurs_in_here.
  - do 4 apply occurs_in_later. exists ": ", (" " ++ url). reflexivity.
  - do 5 apply occurs_in_later. exists "", "". now rewrite append_empty_r.
Qed.

(** C5.  A request that is answered with a status outside 200..299
    makes [apiGet] throw an error whose message names the status code,
    the status text, the method and the URL.  In [fetchAllPages] and in
    [fetchConfluencePage] that request is the last one issued and was
    issued once: the call ends with that error, it returns neither a
    list of results nor an export, and nothing is requested again. *)
Theorem non_success_aborts :
  (forall upstream base pathOrUrl log status statusText body,
      upstream (request_url base pathOrUrl) = Http status statusText body ->
      ok status = false ->
      client_apiGet upstream base pathOrUrl log
      = (Throw (TransportError
                  (msg_api_error status statusText (request_url base pathOrUrl))),
         (log ++ [request_url base pathOrUrl])%list)
      /\ occurs_in (number_to_string (Z.of_nat status))
           (msg_api_error status statusText (request_url base pathOrUrl))
      /\ occurs_in statusText
           (msg_api_error status statusText (request_url base pathOrUrl))
      /\ occurs_in "GET"
           (msg_api_error status statusText (request_url base pathOrUrl))
      /\ occurs_in (request_url base pathOrUrl)
           (msg_api_error status statusText (request_url base pathOrUrl)))
  /\ (forall upstream base fuel path out log' url status statusText body,
         client_fetchAllPages upstream base fuel path [] = (out, log') ->
         In url log' ->
         upstream url = Http status statusText body ->
         ok status = false ->
         out = Throw (TransportError (msg_api_error status statusText url))
         /\ exists earlier, log' = (earlier ++ [url])%list /\ ~ In url earlier)
  /\ (forall parseURL upstream now fuel config idOrUrl out log'
             url status statusText body,
         fetchConfluencePage parseURL upstream now fuel config idOrUrl []
         = (out, log') ->
         In url log' ->
         upstream url = Http status statusText body ->
         ok status = false ->
         out = Throw (TransportError (msg_api_error status statusText url))
         /\ exists earlier, log' = (earlier ++ [url])%list /\ ~ In url earlier).
Proof.
  split; [|split].
  - intros upstream base pathOrUrl log status statusText body Hup Hok.
    split; [|apply msg_api_error_names].
    unfold client_apiGet. now rewrite Hup, Hok.
  - intros upstream base fuel path out log' url status statusText body.
    apply refusal_is_final. apply stops_loop.
  - intros parseURL upstream now fuel config idOrUrl out log'
      url status statusText body.
    apply refusal_is_final. apply stops_fetchConfluencePage.
Qed.

(** The sample page 500 is refused with the status 503. *)
Lemma non_success_aborts_witness :
  Sample.run 10 "500"
  = (Throw (TransportError
              ("Confluence API error 503 Service Unavailable: GET "
                 ++ Sample.base ++ page_path "500")),
     [Sample.base ++ page_path "500"]).
Proof.
  destruct (Sample.run 10 "500") as [out log'] eqn:E.
  assert (Hlog : log' = [Sample.base ++ page_path "500"])
    by (apply (f_equal snd) in E; vm_compute in E; now subst log').
  destruct (proj2 (proj2 non_success_aborts) _ _ _ _ _ _ _ _
              (Sample.base ++ page_path "500") 503 "Service Unavailable" None E)
    as [-> _]; [rewrite Hlog; now left | reflexivity | reflexivity |].
  rewrite Hlog. reflexivity.
Defined.

(** ** The comment tree builder *)

Lemma bind_run A B (m : M A) (k : A -> M B) (log log1 : list string) (a : A) :
  m log = (Done a, log1) -> bind m k log = k a log1.
Proof. unfold bind. now intros ->. Qed.

Lemma comments_path_not_empty (parent : string) : comments_path parent <> "".
Proof. discriminate. Qed.

Section Replies.

Variable upstream : string -> Response.
Variable config : RequiredConfig.

Local Notation "'client'" := (createClient upstream config).
Local Notation "'base'" := (baseUrl (createClient upstream config)).

(** The body of the loops over raw comments, for replies fetched
    with [fuel]. *)
Definition with_replies (fuel : nat) (raw : value) : M Comment :=
  reply <- lift (parseComment raw) ;;
  replies <- fetchReplies client fuel (raw @. "id") ;;
  ret (set_children reply replies).

Definition replies_fetched (parent : string) (replies : list Comment) : Prop :=
  exists enough,
    forall fuel commentId log,
      enough <= fuel ->
      to_string commentId = parent ->
      exists log',
        fetchReplies client fuel commentId log = (Done replies, log').

Definition forest_fetched (raws : list value) (comments : list Comment) : Prop :=
  exists enough,
    forall fuel collected log,
      enough <= fuel ->
      exists log',
        for_each_raw (with_replies fuel) raws collected log
        = (Done (collected ++ comments)%list, log').

Lemma reply_trees_fetched :
  (forall parent replies,
      thread upstream base parent replies -> replies_fetched parent replies)
  /\ (forall raws comments,
         forest upstream base raws comments -> forest_fetched raws comments).
Proof.
  apply (@reply_trees_ind upstream base replies_fetched forest_fetched).
  - intros parent pages replies Hserved _ [enough Hforest].
    exists (S (Nat.max enough (length pages))).
    intros [|fuel] commentId log Hfuel <-; [lia|].
    cbn [fetchReplies]. cbn [createClient fetchAllPages].
    erewrite bind_run.
    2:{ unfold client_fetchAllPages.
        apply (loop_served _ _ _ _ Hserved); [apply comments_path_not_empty | lia]. }
    apply (Hforest fuel []). lia.
  - exists 0. intros fuel collected log _. exists log.
    cbn [for_each_raw]. unfold ret. now rewrite app_nil_r.
  - intros raw raws comment replies rest Hparse _ [fa Hthread] _ [fb Hrest].
    exists (Nat.max fa fb). intros fuel collected log Hfuel.
    destruct (Hthread fuel (raw @. "id") log ltac:(lia) eq_refl) as [log1 Hrun].
    destruct (Hrest fuel (collected ++ [set_children comment replies])%list log1
                ltac:(lia)) as [log2 Hloop].
    exists log2. cbn [for_each_raw]. erewrite bind_run.
    2:{ unfold with_replies. rewrite Hparse. cbn [lift].
        erewrite bind_run by reflexivity. erewrite bind_run by exact Hrun.
        reflexivity. }
    rewrite Hloop. now rewrite <- app_assoc.
Qed.

(** The reply listing of every comment of [replies] is among the
    requests [issued]. *)
Definition asked (issued : list string) (replies : list Comment) : Prop :=
  forall c,
    In c (nodes replies) ->
    In (base ++ comments_path (to_string (id c))) issued.

Definition replies_traversed (parent : string) (replies : list Comment) : Prop :=
  exists enough,
    forall fuel commentId log,
      enough <= fuel ->
      to_string commentId = parent ->
      exists issued,
        fetchReplies client fuel commentId log
        = (Done replies, (log ++ issued)%list)
        /\ In (base ++ comments_path parent) issued
        /\ asked issued replies.

Definition forest_traversed (raws : list value) (comments : list Comment) : Prop :=
  exists enough,
    forall fuel collected log,
      enough <= fuel ->
      exists issued,
        for_each_raw (with_replies fuel) raws collected log
        = (Done (collected ++ comments)%list, (log ++ issued)%list)
        /\ asked issued comments.

Lemma served_first_request (path : string) (pages : list value) :
  served upstream base path pages ->
  In (request_url base path) (requests base path pages).
Proof. destruct 1; now left. Qed.

Lemma reply_trees_traversed :
  (forall parent replies,
      thread upstream base parent replies -> replies_traversed parent replies)
  /\ (forall raws comments,
         forest upstream base raws comments -> forest_traversed raws comments).
Proof.
  apply (@reply_trees_ind upstream base replies_traversed forest_traversed).
  - intros parent pages replies Hserved _ [enough Hforest].
    exists (S (Nat.max enough (length pages))).
    intros [|fuel] commentId log Hfuel <-; [lia|].
    destruct (Hforest fuel []
                (log ++ requests base (comments_path (to_string commentId)) pages)%list
                ltac:(lia)) as (issued & Hloop & Hasked).
    exists (requests base (comments_path (to_string commentId)) pages ++ issued)%list.
    split; [|split].
    + cbn [fetchReplies]. cbn [createClient fetchAllPages].
      erewrite bind_run.
      2:{ unfold client_fetchAllPages.
          apply (loop_served _ _ _ _ Hserved); [apply comments_path_not_empty | lia]. }
      rewrite <- app_assoc in Hloop. exact Hloop.
    + apply in_or_app. left.
      rewrite <- request_url_comments. now apply served_first_request.
    + intros c Hc. apply in_or_app. right. now apply Hasked.
  - exists 0. intros fuel collected log _. exists [].
    split; [|intros c []].
    cbn [for_each_raw]. unfold ret. now rewrite !app_nil_r.
  - intros raw raws comment replies rest Hparse _ [fa Hthread] _ [fb Hrest].
    exists (Nat.max fa fb). intros fuel collected log Hfuel.
    destruct (Hthread fuel (raw @. "id") log ltac:(lia) eq_refl)
      as (issued1 & Hrun & Hfirst & Hasked1).
    destruct (Hrest fuel (collected ++ [set_children comment replies])%list
                (log ++ issued1)%list ltac:(lia)) as (issued2 & Hloop & Hasked2).
    exists (issued1 ++ issued2)%list. split.
    + cbn [for_each_raw]. erewrite bind_run.
      2:{ unfold with_replies. rewrite Hparse. cbn [lift].
          erewrite bind_run by reflexivity. erewrite bind_run by exact Hrun.
          reflexivity. }
      rewrite Hloop. now rewrite <- !app_assoc.
    + intros c Hc. unfold nodes in Hc. cbn [flat_map] in Hc.
      apply in_app_or in Hc as [Hc | Hc]; apply in_or_app.
      * left. rewrite nodes_of_unfold in Hc. cbn [children set_children] in Hc.
        destruct Hc as [<- | Hc].
        -- cbn [id set_children]. now rewrite (parseComment_id _ _ Hparse).
        -- now apply Hasked1.
      * right. now apply Hasked2.
Qed.

(** With enough fuel, the run of [fetchConfluencePage] on a page
    whose record the service gives and whose comments form a thread
    goes through the whole thread and ends. *)
Lemma export_traversed parseURL now idOrUrl pageId status statusText record
  tree :
  resolvePageIdForSite parseURL idOrUrl (site config) = Ok pageId ->
  upstream (base ++ page_path pageId) = Http status statusText (Some record) ->
  ok status = true ->
  thread upstream base pageId tree ->
  exists enough,
    forall fuel log,
      enough <= fuel ->
      exists out log',
        fetchConfluencePage parseURL upstream now fuel config idOrUrl log
        = (out, log')
        /\ out <> OutOfFuel
        /\ In (base ++ comments_path pageId) log'
        /\ asked log' tree
        /\ (forall export, out = Done export -> comments export = tree).
Proof.
  intros Hid Hup Hok Hthread.
  inversion Hthread as [parent pages replies Hserved Hforest]; subst.
  destruct (proj2 reply_trees_traversed _ _ Hforest) as [enough Htraversed].
  exists (Nat.max enough (length pages)). intros fuel log Hfuel.
  destruct (Htraversed fuel []
              ((log ++ [request_url base (page_path pageId)])
                 ++ requests base (comments_path pageId) pages)%list
              ltac:(lia)) as (issued & Hloop & Hasked).
  assert (Hrun : forall out,
             out = match page_info base record with
                   | Ok info =>
                       Done {| page := info;
                               comments := tree;
                               meta := {| fetchedAt := now;
                                          totalComments := countComments tree |} |}
                   | Err e => Throw e
                   end ->
             fetchConfluencePage parseURL upstream now fuel config idOrUrl log
             = (out,
                (((log ++ [request_url base (page_path pageId)])
                    ++ requests base (comments_path pageId) pages) ++ issued)%list)).
  { intros out ->. unfold fetchConfluencePage. rewrite Hid. cbn [lift].
    erewrite bind_run by reflexivity.
    erewrite bind_run.
    2:{ cbn [createClient apiGet]. unfold client_apiGet.
        rewrite request_url_page. cbn [createClient baseUrl] in Hup.
        rewrite Hup, Hok. reflexivity. }
    erewrite bind_run.
    2:{ cbn [createClient fetchAllPages]. unfold client_fetchAllPages.
        apply (loop_served _ _ _ _ Hserved); [apply comments_path_not_empty | lia]. }
    erewrite bind_run by exact Hloop.
    now destruct (page_info base record). }
  eexists. eexists. split; [apply Hrun; reflexivity|].
  split; [now destruct (page_info base record)|].
  split; [|split].
  - apply in_or_app. left. apply in_or_app. right.
    rewrite <- request_url_comments. now apply served_first_request.
  - intros c Hc. apply in_or_app. right. now apply Hasked.
  - intros export. destruct (page_info base record); [|discriminate].
    now intros [= <-].
Qed.

End Replies.

(** ** Chains of replies of every length *)

Lemma ones_snoc (k : nat) : Chain.ones k ++ "1" = Chain.ones (S k).
Proof. induction k as [|k IH]; [reflexivity|]. simpl. now rewrite IH. Qed.

Lemma ones_length (k : nat) : String.length (Chain.ones k) = k.
Proof. induction k; simpl; auto. Qed.

Lemma ones_every (k : nat) : every (Ascii.eqb "1") (Chain.ones k) = true.
Proof. induction k; simpl; auto. Qed.

Lemma ones_no_slash (k : nat) :
  every (fun c => negb (Ascii.eqb c "/")) (Chain.ones k) = true.
Proof. induction k; simpl; auto. Qed.

Lemma chain_parent_of (k : nat) :
  Chain.parent_of (Sample.base ++ comments_path (Chain.ones k))
  = Some (Chain.ones k).
Proof.
  unfold Chain.parent_of, comments_path.
  rewrite <- (append_assoc Sample.base "/rest/api/content/").
  fold Chain.prefix. rewrite startsWith_append, slice_append.
  rewrite (span_append _ _ _ (ones_no_slash k)); reflexivity.
Qed.

Lemma chain_thread (n levels : nat) :
  forall k,
    1 <= k ->
    k + levels = S n ->
    thread (Chain.service n) Sample.base (Chain.ones k) (Chain.below k levels).
Proof.
  induction levels as [|levels IH]; intros k Hk Hsum.
  - apply thread_listed with (pages := [Sample.result_page [] None]);
      [|constructor].
    apply served_last; [|reflexivity].
    exists 200, "OK". rewrite request_url_comments. unfold Chain.service.
    rewrite chain_parent_of, ones_every, ones_length.
    replace (k <=? n)%nat with false by (symmetry; apply Nat.leb_gt; lia).
    rewrite andb_false_r. auto.
  - apply thread_listed
      with (pages := [Sample.result_page [Chain.raw_reply (Chain.ones (S k))] None]).
    + apply served_last; [|reflexivity].
      exists 200, "OK". rewrite request_url_comments. unfold Chain.service.
      rewrite chain_parent_of, ones_every, ones_length, ones_snoc.
      replace (1 <=? k)%nat with true by (symmetry; apply Nat.leb_le; lia).
      replace (k <=? n)%nat with true by (symmetry; apply Nat.leb_le; lia).
      auto.
    + cbn [flat_map results_of app]. cbn [Chain.below].
      change [Chain.reply (Chain.ones (S k)) (Chain.below (S k) levels)]
        with [set_children (Chain.reply (Chain.ones (S k)) [])
                (Chain.below (S k) levels)].
      apply forest_reply; [reflexivity | apply IH; lia | constructor].
Qed.

Lemma chain_depth (levels : nat) :
  forall k, depth (Chain.below k levels) = levels.
Proof.
  induction levels as [|levels IH]; intros k; [reflexivity|].
  cbn [Chain.below depth fold_right]. rewrite Nat.max_0_r.
  cbn [depth_of Chain.reply children]. f_equal. apply (IH (S k)).
Qed.

Lemma chain_converts (levels : nat) :
  forall k,
    forallb (fun c => converts (id c)) (nodes (Chain.below k levels)) = true.
Proof.
  induction levels as [|levels IH]; intros k; [reflexivity|].
  cbn [Chain.below]. unfold nodes. cbn [flat_map].
  rewrite app_nil_r, nodes_of_unfold. cbn [forallb Chain.reply id children].
  apply (IH (S k)).
Qed.

(** ** Well-founded reply relations *)

Section WellFounded.

Variable upstream : string -> Response.
Variable base : string.

Lemma answers_unique (path : string) (page1 page2 : value) :
  answers upstream base path page1 ->
  answers upstream base path page2 ->
  page1 = page2.
Proof.
  intros (s1 & t1 & H1 & _) (s2 & t2 & H2 & _). congruence.
Qed.

(** The service being a function of the URL, a path has one
    listing. *)
Lemma served_unique (path : string) (pages1 pages2 : list value) :
  served upstream base path pages1 ->
  served upstream base path pages2 ->
  pages1 = pages2.
Proof.
  intros H1. revert pages2.
  induction H1 as [path page Hans Hlast | path page link pages Hans Hnext Hlink _ IH];
    intros pages2 H2;
    inversion H2 as [path' page' Hans' Hlast' | path' page' link' pages' Hans' Hnext' Hlink' Hrest'];
    subst; pose proof (answers_unique _ _ _ Hans Hans') as <-.
  - reflexivity.
  - rewrite Hnext' in Hlast. simpl in Hlast.
    apply negb_false_iff, String.eqb_eq in Hlast. contradiction.
  - rewrite Hnext in Hlast'. simpl in Hlast'.
    apply negb_false_iff, String.eqb_eq in Hlast'. contradiction.
  - rewrite Hnext in Hnext'. injection Hnext' as <-.
    f_equal. now apply IH.
Qed.

Lemma forest_of_threads (raws : list value) :
  Forall (fun raw => nullish raw = false) raws ->
  (forall raw,
      In raw raws ->
      exists replies, thread upstream base (to_string (raw @. "id")) replies) ->
  exists comments, forest upstream base raws comments.
Proof.
  induction 1 as [|raw raws Hraw _ IH]; intros Hthreads.
  - exists []. constructor.
  - destruct (parseComment_total raw Hraw) as [comment Hparse].
    destruct (Hthreads raw (or_introl eq_refl)) as [replies Hthread].
    destruct IH as [rest Hrest]; [intros; apply Hthreads; now right|].
    exists (set_children comment replies :: rest).
    now apply forest_reply.
Qed.

(** When every chain of replies below [parent] ends, and the
    listings along them are served, the replies form a thread. *)
Lemma accessible_thread (parent : string) :
  Acc (reply_of upstream base) parent ->
  (forall id,
      clos_refl_trans _ (reply_of upstream base) id parent ->
      well_served upstream base id) ->
  exists replies, thread upstream base parent replies.
Proof.
  induction 1 as [parent _ IH]. intros Hserved.
  destruct (Hserved parent (rt_refl _ _ _)) as (raws & (pages & Hpages & ->) & Hraws).
  assert (Hrecords : Forall (fun raw => nullish raw = false)
                       (flat_map results_of pages))
    by (revert Hraws; apply Forall_impl; now intros raw [H _]).
  destruct (forest_of_threads _ Hrecords) as [comments Hforest].
  - intros raw Hin.
    assert (Hchild : reply_of upstream base (to_string (raw @. "id")) parent).
    { exists (flat_map results_of pages), raw. split; [|auto].
      exists pages. auto. }
    apply (IH _ Hchild). intros id Hid. apply Hserved.
    eapply rt_trans; [exact Hid | now apply rt_step].
  - exists comments. now apply thread_listed with (pages := pages).
Qed.

End WellFounded.

Lemma depth_only_reply (comment : Comment) (replies : list Comment) :
  depth [set_children comment replies] = S (depth replies).
Proof. unfold depth. cbn [fold_right]. now rewrite Nat.max_0_r. Qed.

Lemma converts_only_reply (comment : Comment) (replies : list Comment) :
  forallb (fun c => converts (id c)) (nodes [set_children comment replies])
  = converts (id comment) && forallb (fun c => converts (id c)) (nodes replies).
Proof.
  unfold nodes. cbn [flat_map]. now rewrite app_nil_r, nodes_of_unfold.
Qed.

(** C8.  When every chain of replies below a comment reaches a
    comment without replies (the reply relation of the service is
    well-founded there, and the listings along the chains are served),
    the replies form a finite tree, and [fetchReplies] returns with that
    whole tree, given fuel for its depth and its result pages.  The
    traversal that [fetchConfluencePage] starts from a page goes
    through the whole tree in the same way: with enough fuel the run
    ends, by then the reply listing of every comment of the tree has
    been requested, and an export that is returned holds the whole
    tree.  The traversal has no bound of its own on the depth: for
    every [n] there is a service with a chain of replies [n] deep, and
    the tree returned is [n] deep.  The IDs are values that a template
    literal converts to a string. *)
Theorem fetchReplies_returns_thread :
  (forall upstream config parent,
      Acc (reply_of upstream (baseUrl (createClient upstream config))) parent ->
      (forall id,
          clos_refl_trans _
            (reply_of upstream (baseUrl (createClient upstream config))) id parent ->
          well_served upstream (baseUrl (createClient upstream config)) id) ->
      exists replies enough,
        thread upstream (baseUrl (createClient upstream config)) parent replies
        /\ forall fuel commentId log,
            enough <= fuel ->
            converts commentId = true ->
            to_string commentId = parent ->
            exists log',
              fetchReplies (createClient upstream config) fuel commentId log
              = (Done replies, log'))
  /\ (forall upstream config parent replies,
         thread upstream (baseUrl (createClient upstream config)) parent replies ->
         forallb (fun c => converts (id c)) (nodes replies) = true ->
         exists enough,
           forall fuel commentId log,
             enough <= fuel ->
             converts commentId = true ->
             to_string commentId = parent ->
             exists log',
               fetchReplies (createClient upstream config) fuel commentId log
               = (Done replies, log'))
  /\ (forall parseURL upstream now config idOrUrl pageId status statusText
             record tree,
         resolvePageIdForSite parseURL idOrUrl (site config) = Ok pageId ->
         upstream (baseUrl (createClient upstream config) ++ page_path pageId)
         = Http status statusText (Some record) ->
         ok status = true ->
         thread upstream (baseUrl (createClient upstream config)) pageId tree ->
         forallb (fun c => converts (id c)) (nodes tree) = true ->
         exists enough,
           forall fuel log,
             enough <= fuel ->
             exists out log',
               fetchConfluencePage parseURL upstream now fuel config idOrUrl log
               = (out, log')
               /\ out <> OutOfFuel
               /\ In (baseUrl (createClient upstream config) ++ comments_path pageId)
                    log'
               /\ (forall c,
                      In c (nodes tree) ->
                      In (baseUrl (createClient upstream config)
                            ++ comments_path (to_string (id c))) log')
               /\ (forall export, out = Done export -> comments export = tree))
  /\ (forall n,
         exists upstream replies,
           depth replies = n
           /\ forallb (fun c => converts (id c)) (nodes replies) = true
           /\ exists enough,
               forall fuel log,
                 enough <= fuel ->
                 exists log',
                   fetchReplies (createClient upstream Sample.config) fuel
                     (VStr "1") log
                   = (Done replies, log')).
Proof.
  split; [|split; [|split]].
  - intros upstream config parent Hacc Hserved.
    destruct (accessible_thread _ _ _ Hacc Hserved) as [replies Hthread].
    destruct (proj1 (reply_trees_fetched upstream config) _ _ Hthread)
      as [enough Hfetched].
    exists replies, enough. auto.
  - intros upstream config parent replies Hthread _.
    destruct (proj1 (reply_trees_fetched upstream config) _ _ Hthread)
      as [enough Hfetched].
    exists enough. auto.
  - intros parseURL upstream now config idOrUrl pageId status statusText
      record tree Hid Hup Hok Hthread _.
    exact (export_traversed upstream config parseURL now idOrUrl pageId
             status statusText record tree Hid Hup Hok Hthread).
  - intros n. exists (Chain.service n), (Chain.below 1 n).
    split; [apply chain_depth|]. split; [apply chain_converts|].
    destruct (proj1 (reply_trees_fetched (Chain.service n) Sample.config)
                "1" (Chain.below 1 n)) as [enough Hfetched].
    { apply (chain_thread n n 1); lia. }
    exists enough. intros fuel log Hfuel. now apply Hfetched.
Qed.

(** The replies under the sample comment 201, two deep, first from
    the reply relation of the sample service, then from the tree; and
    the run on the sample page 100, which asks for the replies of the
    comment 401, three levels down. *)
Lemma fetchReplies_returns_thread_witness :
  (exists replies enough,
      thread Sample.wiki Sample.base "201" replies
      /\ forall fuel,
          enough <= fuel ->
          exists log',
            fetchReplies (createClient Sample.wiki Sample.config) fuel
              (VStr "201") []
            = (Done replies, log'))
  /\ (exists replies enough,
         map id replies = [VStr "301"]
         /\ depth replies = 2
         /\ forall fuel,
             enough <= fuel ->
             exists log',
               fetchReplies (createClient Sample.wiki Sample.config) fuel
                 (VStr "201") []
               = (Done replies, log'))
  /\ (exists tree enough,
         map id tree = [VStr "201"; VStr "202"]
         /\ forall fuel,
             enough <= fuel ->
             exists out log',
               Sample.run fuel "100" = (out, log')
               /\ out <> OutOfFuel
               /\ In (Sample.base ++ comments_path "401") log'
               /\ forall export, out = Done export -> comments export = tree).
Proof.
  pose (R := reply_of Sample.wiki Sample.base).
  assert (S401 : served Sample.wiki Sample.base (comments_path "401")
                   [Sample.result_page [] None])
    by (apply served_last; [apply sample_answers|]; reflexivity).
  assert (S301 : served Sample.wiki Sample.base (comments_path "301")
                   [Sample.result_page
                      [Sample.raw_comment "401" "<p>deep</p>"] None])
    by (apply served_last; [apply sample_answers|]; reflexivity).
  assert (S201 : served Sample.wiki Sample.base (comments_path "201")
                   [Sample.result_page
                      [Sample.raw_comment "301" "<p>reply</p>"] None])
    by (apply served_last; [apply sample_answers|]; reflexivity).
  assert (H401 : thread Sample.wiki Sample.base "401" [])
    by (eapply thread_listed; [exact S401 | constructor]).
  assert (H301 : exists replies,
             thread Sample.wiki Sample.base "301" replies
             /\ map id replies = [VStr "401"] /\ depth replies = 1
             /\ forallb (fun c => converts (id c)) (nodes replies) = true
             /\ In (VStr "401") (map id (nodes replies))).
  { eexists. split.
    - eapply thread_listed; [exact S301|].
      eapply forest_reply; [reflexivity | exact H401 | constructor].
    - split; [reflexivity|]. split; [now rewrite depth_only_reply|].
      split; [reflexivity | now left]. }
  destruct H301 as (r301 & H301 & Hid301 & Hdepth301 & Hconv301 & Hin301).
  assert (H201 : exists replies,
             thread Sample.wiki Sample.base "201" replies
             /\ map id replies = [VStr "301"] /\ depth replies = 2
             /\ forallb (fun c => converts (id c)) (nodes replies) = true
             /\ In (VStr "401") (map id (nodes replies))).
  { eexists. split.
    - eapply thread_listed; [exact S201|].
      eapply forest_reply; [reflexivity | exact H301 | constructor].
    - split; [reflexivity|]. split; [now rewrite depth_only_reply, Hdepth301|].
      split; [now rewrite converts_only_reply, Hconv301|].
      unfold nodes. cbn [flat_map]. rewrite app_nil_r, nodes_of_unfold.
      right. exact Hin301. }
  destruct H201 as (r201 & H201 & Hid201 & Hdepth201 & Hconv201 & Hin201).
  assert (H202 : thread Sample.wiki Sample.base "202" []).
  { apply thread_listed with (pages := [VObj []]); [|constructor].
    apply served_last; [apply sample_answers|]; reflexivity. }
  split; [|split].
  - assert (C401 : forall child, ~ R child "401").
    { intros child (raws & raw & (pages & Hs & ->) & Hin & _).
      rewrite (served_unique _ _ _ _ _ Hs S401) in Hin. exact Hin. }
    assert (C301 : forall child, R child "301" -> child = "401").
    { intros child (raws & raw & (pages & Hs & ->) & Hin & ->).
      rewrite (served_unique _ _ _ _ _ Hs S301) in Hin.
      destruct Hin as [<- | []]. reflexivity. }
    assert (C201 : forall child, R child "201" -> child = "301").
    { intros child (raws & raw & (pages & Hs & ->) & Hin & ->).
      rewrite (served_unique _ _ _ _ _ Hs S201) in Hin.
      destruct Hin as [<- | []]. reflexivity. }
    assert (A401 : Acc R "401")
      by (constructor; intros child H; now elim (C401 child)).
    assert (A301 : Acc R "301")
      by (constructor; intros child H; rewrite (C301 _ H); exact A401).
    assert (A201 : Acc R "201")
      by (constructor; intros child H; rewrite (C201 _ H); exact A301).
    assert (W : forall id,
               clos_refl_trans _ R id "201" ->
               well_served Sample.wiki Sample.base id).
    { intros id H. apply clos_rt_rtn1 in H.
      inversion H as [|y z Hstep Hrest]; subst.
      { eexists. split; [eexists; split; [exact S201 | reflexivity]|].
        repeat constructor. }
      apply C201 in Hstep. subst y.
      inversion Hrest as [|y z Hstep Hrest']; subst.
      { eexists. split; [eexists; split; [exact S301 | reflexivity]|].
        repeat constructor. }
      apply C301 in Hstep. subst y.
      inversion Hrest' as [|y z Hstep Hrest'']; subst.
      { eexists. split; [eexists; split; [exact S401 | reflexivity]|].
        repeat constructor. }
      now elim (C401 _ Hstep). }
    destruct (proj1 fetchReplies_returns_thread Sample.wiki Sample.config
                "201" A201 W) as (replies & enough & Hthread & Hfetched).
    exists replies, enough. split; [exact Hthread|].
    intros fuel Hfuel. exact (Hfetched fuel (VStr "201") [] Hfuel eq_refl eq_refl).
  - destruct (proj1 (proj2 fetchReplies_returns_thread) Sample.wiki Sample.config
                "201" r201 H201 Hconv201) as [enough Hfetched].
    exists r201, enough. split; [exact Hid201|]. split; [exact Hdepth201|].
    intros fuel Hfuel. exact (Hfetched fuel (VStr "201") [] Hfuel eq_refl eq_refl).
  - assert (H100 : exists tree,
               thread Sample.wiki Sample.base "100" tree
               /\ map id tree = [VStr "201"; VStr "202"]
               /\ forallb (fun c => converts (id c)) (nodes tree) = true
               /\ In (VStr "401") (map id (nodes tree))).
    { eexists. split.
      - apply thread_listed
          with (pages := [Sample.result_page
                            [Sample.raw_comment "201" "<p>first</p>"]
                            (Some "/wiki/rest/api/content/100/child/comment?start=1");
                          Sample.result_page [Sample.raw_inline "202" "resolved"] None]).
        + eapply served_more;
            [apply sample_answers; reflexivity | reflexivity | discriminate |].
          apply served_last; [apply sample_answers|]; reflexivity.
        + eapply forest_reply; [reflexivity | exact H201 |].
          eapply forest_reply; [reflexivity | exact H202 | constructor].
      - split; [reflexivity|].
        unfold nodes. cbn [flat_map]. rewrite app_nil_r, !nodes_of_unfold.
        cbn [children set_children flat_map app].
        fold (nodes r201). split.
        + cbn [forallb]. rewrite forallb_app, Hconv201. reflexivity.
        + right. rewrite map_app. apply in_or_app. now left. }
    destruct H100 as (tree & H100 & Hid100 & Hconv100 & Hin100).
    destruct (proj1 (proj2 (proj2 fetchReplies_returns_thread)) SimpleURL.parse
                Sample.wiki Sample.now Sample.config "100" "100" 200 "OK"
                Sample.raw_page tree eq_refl eq_refl eq_refl H100 Hconv100)
      as [enough Hrun].
    exists tree, enough. split; [exact Hid100|].
    intros fuel Hfuel.
    destruct (Hrun fuel [] Hfuel) as (out & log' & Hout & Hends & _ & Hasked & Hdone).
    exists out, log'. split; [exact Hout|]. split; [exact Hends|].
    split; [|exact Hdone].
    apply in_map_iff in Hin100 as (c & Hc & Hin).
    specialize (Hasked c Hin). now rewrite Hc in Hasked.
Defined.

(** * Further properties of the program *)

(** ** White space around a page identifier *)

Lemma trimStart_spaces (pre s : string) :
  every is_space pre = true -> trimStart (pre ++ s) = trimStart s.
Proof.
  induction pre as [|c pre IH]; simpl; [reflexivity|].
  intros H. apply andb_true_iff in H as [Hc Hpre]. now rewrite Hc, IH.
Qed.

Lemma trimEnd_all_spaces (s : string) :
  every is_space s = true -> trimEnd s = "".
Proof.
  induction s as [|c s IH]; simpl; [reflexivity|].
  intros H. apply andb_true_iff in H as [Hc Hs]. now rewrite (IH Hs), Hc.
Qed.

Lemma trimEnd_spaces (s post : string) :
  every is_space post = true -> trimEnd (s ++ post) = trimEnd s.
Proof.
  intros Hpost. induction s as [|c s IH]; simpl.
  - now apply trimEnd_all_spaces.
  - now rewrite IH.
Qed.

Lemma trimStart_all_spaces (s : string) :
  every is_space s = true -> trimStart s = "".
Proof.
  induction s as [|c s IH]; simpl; [reflexivity|].
  intros H. apply andb_true_iff in H as [Hc Hs]. now rewrite Hc, IH.
Qed.

Lemma trimStart_append (s post : string) :
  every is_space s = false -> trimStart (s ++ post) = trimStart s ++ post.
Proof.
  induction s as [|c s IH]; simpl; [discriminate|].
  destruct (is_space c); simpl; [exact IH | reflexivity].
Qed.

Lemma trim_surrounded (pre s post : string) :
  every is_space pre = true ->
  every is_space post = true ->
  trim (pre ++ s ++ post) = trim s.
Proof.
  intros Hpre Hpost. unfold trim. rewrite (trimStart_spaces _ _ Hpre).
  destruct (every is_space s) eqn:Hs.
  - rewrite <- (append_empty_r (s ++ post)), trimStart_spaces.
    + now rewrite (trimStart_all_spaces _ Hs).
    + clear - Hs Hpost. induction s as [|c s IH]; simpl in *; [exact Hpost|].
      apply andb_true_iff in Hs as [-> Hs]. now apply IH.
  - rewrite (trimStart_append _ _ Hs). now apply trimEnd_spaces.
Qed.

Lemma trimEnd_no_spaces (s : string) :
  every (fun c => negb (is_space c)) s = true -> trimEnd s = s.
Proof.
  induction s as [|c s IH]; simpl; [reflexivity|].
  intros H. apply andb_true_iff in H as [Hc Hs]. rewrite (IH Hs).
  apply negb_true_iff in Hc. rewrite Hc. now destruct s.
Qed.

Lemma trim_no_spaces (s : string) :
  every (fun c => negb (is_space c)) s = true -> trim s = s.
Proof.
  intros H. unfold trim.
  assert (Hstart : trimStart s = s).
  { destruct s as [|c s]; [reflexivity|]. simpl in *.
    apply andb_true_iff in H as [Hc _]. apply negb_true_iff in Hc.
    now rewrite Hc. }
  rewrite Hstart. now apply trimEnd_no_spaces.
Qed.

Lemma every_weaken (p q : ascii -> bool) (s : string) :
  (forall c, p c = true -> q c = true) ->
  every p s = true -> every q s = true.
Proof.
  intros Hpq. induction s as [|c s IH]; simpl; [reflexivity|].
  intros H. apply andb_true_iff in H as [Hc Hs]. now rewrite (Hpq _ Hc), IH.
Qed.

Lemma digit_is_no_space (c : ascii) :
  is_digit c = true -> negb (is_space c) = true.
Proof.
  unfold is_digit, is_space. intros H.
  apply andb_true_iff in H as [H1 H2].
  apply Nat.leb_le in H1, H2.
  apply negb_true_iff. apply orb_false_iff; split; [apply orb_false_iff; split|].
  - apply andb_false_iff. right. apply Nat.leb_gt. lia.
  - apply Nat.eqb_neq. lia.
  - apply Nat.eqb_neq. lia.
Qed.

Lemma trim_digits (s : string) : all_digits s = true -> trim s = s.
Proof.
  intros H. apply all_digits_every in H as [_ H].
  apply trim_no_spaces. revert H. apply every_weaken, digit_is_no_space.
Qed.

Lemma parsePageInput_digits (parseURL : string -> option URL) (idOrUrl : string)
  (parsed : ParsedPageInput) :
  parsePageInput parseURL idOrUrl = Ok parsed -> all_digits (pageId parsed) = true.
Proof.
  unfold parsePageInput.
  destruct (all_digits (trim idOrUrl)) eqn:Hnum; [now intros [= <-]|].
  destruct (parseURL (trim idOrUrl)) as [url|]; [|discriminate].
  destruct (match_pages (pathname url)) as [d|] eqn:E.
  - apply match_pages_some in E as (pre & post & (_ & Hd & _) & _).
    rewrite (all_digits_not_empty _ Hd). now intros [= <-].
  - destruct (searchParams_get "pageId" (searchParams url)) as [q|];
      [|discriminate].
    destruct (all_digits q) eqn:Hq.
    + destruct q; [discriminate Hq|]. now intros [= <-].
    + cbn [negb]. rewrite orb_true_r. discriminate.
Qed.

Lemma resolvePageIdForSite_digits (parseURL : string -> option URL)
  (idOrUrl configuredSite id : string) :
  resolvePageIdForSite parseURL idOrUrl configuredSite = Ok id ->
  all_digits id = true.
Proof.
  unfold resolvePageIdForSite.
  destruct (parsePageInput parseURL idOrUrl) as [parsed|e] eqn:Hp; [|discriminate].
  apply parsePageInput_digits in Hp.
  destruct (hostFromUrl parsed) as [h|]; [|now intros [= <-]].
  destruct (_ && _); [discriminate | now intros [= <-]].
Qed.

(** X1.  A page ID that [resolvePageIdForSite] returns is made of
    digits only, and resolving it again gives it back, whatever the
    configured site and with no use of the URL parser. *)
Theorem resolved_id_resolves_to_itself :
  forall parseURL idOrUrl configuredSite id,
    resolvePageIdForSite parseURL idOrUrl configuredSite = Ok id ->
    all_digits id = true
    /\ forall parseURL' configuredSite',
        resolvePageIdForSite parseURL' id configuredSite' = Ok id.
Proof.
  intros parseURL idOrUrl configuredSite id H.
  apply resolvePageIdForSite_digits in H. split; [exact H|].
  intros parseURL' configuredSite'.
  unfold resolvePageIdForSite, parsePageInput.
  now rewrite (trim_digits _ H), H.
Qed.

Lemma resolved_id_resolves_to_itself_witness :
  all_digits "22982787097" = true
  /\ forall parseURL' configuredSite',
      resolvePageIdForSite parseURL' "22982787097" configuredSite'
      = Ok "22982787097".
Proof.
  exact (resolved_id_resolves_to_itself SimpleURL.parse
           "https://example.atlassian.net/wiki/spaces/ENG/pages/22982787097/My+Page"
           "example.atlassian.net" "22982787097" eq_refl).
Defined.

(** X2.  White space before and after the identifier does not count:
    [parsePageInput] and [resolvePageIdForSite] give the same result, the
    same error included, with and without it. *)
Theorem surrounding_space_ignored :
  forall parseURL pre idOrUrl post,
    every is_space pre = true ->
    every is_space post = true ->
    parsePageInput parseURL (pre ++ idOrUrl ++ post)
    = parsePageInput parseURL idOrUrl
    /\ forall configuredSite,
        resolvePageIdForSite parseURL (pre ++ idOrUrl ++ post) configuredSite
        = resolvePageIdForSite parseURL idOrUrl configuredSite.
Proof.
  intros parseURL pre idOrUrl post Hpre Hpost.
  assert (H : parsePageInput parseURL (pre ++ idOrUrl ++ post)
              = parsePageInput parseURL idOrUrl)
    by (unfold parsePageInput; now rewrite trim_surrounded).
  split; [exact H|]. intros configuredSite.
  unfold resolvePageIdForSite. now rewrite H.
Qed.

Lemma surrounding_space_ignored_witness :
  parsePageInput SimpleURL.parse
    (String (ascii_of_nat 9) " "
       ++ "https://example.atlassian.net/wiki/pages/viewpage.action?pageId=55"
       ++ String (ascii_of_nat 10) "")
  = Ok {| pageId := "55"; hostFromUrl := Some "example.atlassian.net" |}.
Proof.
  rewrite (proj1 (surrounding_space_ignored SimpleURL.parse
                    (String (ascii_of_nat 9) " ")
                    "https://example.atlassian.net/wiki/pages/viewpage.action?pageId=55"
                    (String (ascii_of_nat 10) "") eq_refl eq_refl)).
  reflexivity.
Defined.

(** ** Counting, continued *)

Lemma countComments_app (a b : list Comment) :
  countComments (a ++ b) = countComments a + countComments b.
Proof.
  induction a as [|c a IH]; [reflexivity|].
  cbn [app]. rewrite !countComments_cons, IH. lia.
Qed.

Lemma countComments_zero (cs : list Comment) :
  countComments cs = 0 <-> cs = [].
Proof.
  destruct cs as [|c cs]; [easy|]. rewrite countComments_cons.
  split; [lia | discriminate].
Qed.

Lemma countComments_length (cs : list Comment) :
  length cs <= countComments cs
  /\ (countComments cs = length cs <-> Forall (fun c => children c = []) cs).
Proof.
  induction cs as [|c cs [IHle IHeq]].
  - split; [reflexivity|]. split; [constructor | reflexivity].
  - rewrite countComments_cons. cbn [length]. split; [lia|]. split.
    + intros H. constructor.
      * apply countComments_zero. lia.
      * apply IHeq. lia.
    + intros H. inversion H as [|? ? Hc Hcs]; subst.
      rewrite Hc. apply IHeq in Hcs. rewrite Hcs. reflexivity.
Qed.

(** X3.  In every export, [meta.totalComments] is at least the number
    of top-level comments, and equals it exactly when no top-level comment
    has a reply; the count of two forests put one after the other is
    the sum of their counts. *)
Theorem totalComments_and_top_level :
  (forall parseURL upstream now fuel config idOrUrl log export log',
      fetchConfluencePage parseURL upstream now fuel config idOrUrl log
      = (Done export, log') ->
      length (comments export) <= totalComments (meta export)
      /\ (totalComments (meta export) = length (comments export)
          <-> Forall (fun c => children c = []) (comments export)))
  /\ (forall a b, countComments (a ++ b) = countComments a + countComments b).
Proof.
  split; [|exact countComments_app].
  intros parseURL upstream now fuel config idOrUrl log export log' H.
  apply export_total in H. rewrite H. apply countComments_length.
Qed.

(** The sample page 100: two top-level comments, four in all. *)
Lemma totalComments_and_top_level_witness :
  exists export log',
    Sample.run 10 "100" = (Done export, log')
    /\ length (comments export) <= totalComments (meta export)
    /\ ~ Forall (fun c => children c = []) (comments export).
Proof.
  destruct (Sample.run 10 "100") as [[export| |] log'] eqn:E;
    try (vm_compute in E; discriminate).
  exists export, log'. split; [reflexivity|].
  destruct (proj1 totalComments_and_top_level _ _ _ _ _ _ _ _ _ E) as [Hle Heq].
  split; [exact Hle|]. intros Hnone. apply Heq in Hnone.
  assert (Hexp : fst (Sample.run 10 "100") = Done export) by now rewrite E.
  vm_compute in Hexp. injection Hexp as <-. discriminate Hnone.
Defined.

(** ** The other members of a comment and of the page *)

Lemma opt_chain_first (v : value) (k : string) (path : list string) :
  nullish v = false ->
  fold_left opt path (v @. k) = fold_left opt (k :: path) v.
Proof. intros H. cbn [fold_left]. now rewrite (get_is_opt v k H). Qed.

(** X4.  [parseComment] fails on a record that is [null], with a type
    error.  On any other record it copies [id] as it is, gives [title]
    the empty string when the record has none, gives [updated] the
    version timestamp or else the empty string (the history is not
    consulted, so [updated] can be empty where [created] is not), and
    starts every comment without children. *)
Theorem parseComment_other_members :
  forall raw,
    (nullish raw = true -> parseComment raw = Err TypeError)
    /\ (nullish raw = false ->
        exists c,
          parseComment raw = Ok c
          /\ id c = raw @. "id"
          /\ title c = first_of [field_at ["title"] raw] (VStr "")
          /\ updated c = first_of [field_at ["version"; "when"] raw] (VStr "")
          /\ children c = []
          /\ (field_at ["version"; "when"] raw = None ->
              updated c = VStr ""
              /\ created c
                 = first_of [field_at ["history"; "createdDate"] raw] (VStr ""))).
Proof.
  intros raw. unfold parseComment. split; intros Hraw; rewrite Hraw;
    [reflexivity|].
  eexists; split; [reflexivity|]. cbn [id title updated children created].
  assert (Htitle : raw @. "title" ?? VStr ""
                   = first_of [field_at ["title"] raw] (VStr "")).
  { apply coalesce_first_of. cbn [fold_left]. now apply get_is_opt. }
  assert (Hupdated : raw @. "version" ?. "when" ?? VStr ""
                     = first_of [field_at ["version"; "when"] raw] (VStr "")).
  { apply coalesce_first_of. apply (opt_chain_first raw "version" ["when"] Hraw). }
  split; [reflexivity|]. split; [exact Htitle|]. split; [exact Hupdated|].
  split; [reflexivity|]. intros Hnone.
  rewrite Hupdated, Hnone. split; [reflexivity|].
  rewrite !(fun k => get_is_opt raw k Hraw).
  etransitivity;
    [exact (coalesce2_first_of ["version"; "when"] ["history"; "createdDate"]
              raw (VStr ""))|].
  now rewrite Hnone.
Qed.

(** The sample inline comment has a history and no version. *)
Lemma parseComment_other_members_witness :
  exists c,
    parseComment (Sample.raw_inline "202" "open") = Ok c
    /\ id c = VStr "202"
    /\ title c = VStr ""
    /\ updated c = VStr ""
    /\ created c = VStr "2026-01-01T00:00:00.000Z"
    /\ children c = [].
Proof.
  destruct (proj2 (parseComment_other_members (Sample.raw_inline "202" "open"))
              eq_refl) as (c & Hc & Hid & Htitle & _ & Hchildren & Hnone).
  destruct (Hnone eq_refl) as [Hupdated Hcreated].
  exists c. repeat split; assumption.
Defined.

Lemma label_names_ok (items : list value) (names : list value) :
  label_names items = Ok names <->
  Forall (fun label => nullish label = false) items
  /\ names = map (fun label => label @. "name") items.
Proof.
  revert names; induction items as [|label items IH]; intros names; simpl.
  - split; [intros [= <-]; auto | intros [_ ->]; reflexivity].
  - destruct (nullish label) eqn:Hl.
    + split; [discriminate | intros [H _]; inversion H; congruence].
    + destruct (label_names items) as [rest|e].
      * destruct (IH rest) as [IH1 _]. destruct (IH1 eq_refl) as [Hall ->].
        split; [intros [= <-]; auto | intros [_ ->]; reflexivity].
      * split; [discriminate|]. intros [H _]. inversion H as [|? ? _ Hitems]; subst.
        destruct (IH (map (fun label => label @. "name") items)) as [_ IH2].
        now specialize (IH2 (conj Hitems eq_refl)).
Qed.

Lemma label_names_error (items : list value) (e : error) :
  label_names items = Err e -> e = TypeError.
Proof.
  induction items as [|label items IH]; simpl; [discriminate|].
  destruct (nullish label); [now intros [= <-]|].
  destruct (label_names items) as [names|e']; [discriminate|].
  intros [= <-]. now apply IH.
Qed.

(** X5.  The [page] member of an export: [id] and [title] are copied;
    [space], [lastUpdated] and [bodyHtml] fall back to the empty string
    and [author] to ["unknown"]; [created] is the history creation date
    and only without one the version timestamp (the other way round than
    for a comment); [url] is the base URL followed by the web UI path,
    if any; [labels] are the names of the listed labels in their order,
    none when the record lists no labels.  The member is assembled for
    every record that is not [null], whose web UI path is a value that
    a template literal converts to a string, and whose labels, if any,
    are an array without [null] items.  A record that is [null], labels
    that are no array, or a label that is [null] make the assembly fail
    with a type error. *)
Theorem page_info_members :
  forall base record,
    (nullish record = true -> page_info base record = Err TypeError)
    /\ (forall info,
           page_info base record = Ok info ->
           Page.id info = record @. "id"
           /\ Page.title info = record @. "title"
           /\ Page.space info = first_of [field_at ["space"; "key"] record] (VStr "")
           /\ Page.url info
              = base ++ to_string
                          (first_of [field_at ["_links"; "webui"] record] (VStr ""))
           /\ Page.author info
              = first_of [field_at ["version"; "by"; "displayName"] record]
                  (VStr "unknown")
           /\ Page.created info
              = first_of [field_at ["history"; "createdDate"] record;
                          field_at ["version"; "when"] record] (VStr "")
           /\ Page.lastUpdated info
              = first_of [field_at ["version"; "when"] record] (VStr "")
           /\ Page.bodyHtml info
              = first_of [field_at ["body"; "storage"; "value"] record] (VStr "")
           /\ exists items,
               first_of [field_at ["metadata"; "labels"; "results"] record] (VArr [])
               = VArr items
               /\ Forall (fun label => nullish label = false) items
               /\ Page.labels info = map (fun label => label @. "name") items)
    /\ (nullish record = false ->
        converts (first_of [field_at ["_links"; "webui"] record] (VStr "")) = true ->
        forall items,
          first_of [field_at ["metadata"; "labels"; "results"] record] (VArr [])
          = VArr items ->
          Forall (fun label => nullish label = false) items ->
          exists info,
            page_info base record = Ok info
            /\ Page.labels info = map (fun label => label @. "name") items)
    /\ (nullish record = false ->
        converts (first_of [field_at ["_links"; "webui"] record] (VStr "")) = true ->
        field_at ["metadata"; "labels"; "results"] record = None ->
        exists info, page_info base record = Ok info /\ Page.labels info = [])
    /\ (nullish record = false ->
        (forall items,
            first_of [field_at ["metadata"; "labels"; "results"] record] (VArr [])
            <> VArr items)
        \/ (exists items,
               first_of [field_at ["metadata"; "labels"; "results"] record] (VArr [])
               = VArr items
               /\ Exists (fun label => nullish label = true) items) ->
        page_info base record = Err TypeError).
Proof.
  intros base record.
  assert (Hlabels : nullish record = false ->
            record @. "metadata" ?. "labels" ?. "results" ?? VArr []
            = first_of [field_at ["metadata"; "labels"; "results"] record] (VArr [])).
  { intros Hnn. apply coalesce_first_of.
    apply (opt_chain_first record "metadata" ["labels"; "results"] Hnn). }
  unfold page_info, page_labels. split; [|split; [|split; [|split]]].
  - now intros ->.
  - intros info. destruct (nullish record) eqn:Hnn; [discriminate|].
    rewrite (Hlabels eq_refl).
    destruct (first_of _ (VArr [])) as [| | | | |items|] eqn:Hfirst;
      try discriminate.
    destruct (label_names items) as [names|e] eqn:Hnames; [|discriminate].
    apply label_names_ok in Hnames as [Hall ->].
    intros [= <-].
    cbn [Page.id Page.title Page.space Page.url Page.author Page.created
           Page.lastUpdated Page.bodyHtml Page.labels].
    split; [reflexivity|]. split; [reflexivity|].
    split; [apply coalesce_first_of, (opt_chain_first record "space" ["key"] Hnn)|].
    split; [f_equal; f_equal;
            apply coalesce_first_of, (opt_chain_first record "_links" ["webui"] Hnn)|].
    split; [apply coalesce_first_of,
              (opt_chain_first record "version" ["by"; "displayName"] Hnn)|].
    split.
    { rewrite !(fun k => get_is_opt record k Hnn).
      exact (coalesce2_first_of ["history"; "createdDate"] ["version"; "when"]
               record (VStr "")). }
    split; [apply coalesce_first_of,
              (opt_chain_first record "version" ["when"] Hnn)|].
    split; [apply coalesce_first_of,
              (opt_chain_first record "body" ["storage"; "value"] Hnn)|].
    exists items. auto.
  - intros Hnn _ items Hitems Hall. rewrite Hnn, (Hlabels Hnn), Hitems.
    rewrite (proj2 (label_names_ok items _) (conj Hall eq_refl)).
    eexists. split; reflexivity.
  - intros Hnn _ Hnone. rewrite Hnn, (Hlabels Hnn), Hnone.
    cbn [first_of label_names]. eexists. split; reflexivity.
  - intros Hnn H. rewrite Hnn, (Hlabels Hnn).
    destruct H as [Hno | (items & -> & Hnull)].
    + destruct (first_of _ (VArr [])) as [| | | | |items|]; try reflexivity.
      now elim (Hno items).
    + destruct (label_names items) as [names|e] eqn:Hnames.
      * apply label_names_ok in Hnames as [Hall _].
        apply Exists_exists in Hnull as (label & Hin & Hlabel).
        rewrite Forall_forall in Hall. specialize (Hall label Hin). congruence.
      * now rewrite (label_names_error _ _ Hnames).
Qed.

(** A page with two labels and a web UI path; the same page with a
    label that is [null]. *)
Lemma page_info_members_witness :
  (exists info,
      page_info Sample.base
        (VObj [("id", VStr "100");
               ("title", VStr "Home");
               ("_links", VObj [("webui", VStr "/spaces/ENG/pages/100/Home")]);
               ("metadata",
                VObj [("labels",
                       VObj [("results",
                              VArr [VObj [("name", VStr "draft")];
                                    VObj [("name", VStr "api")]])])])])
      = Ok info
      /\ Page.labels info = [VStr "draft"; VStr "api"]
      /\ Page.url info = Sample.base ++ "/spaces/ENG/pages/100/Home"
      /\ Page.space info = VStr ""
      /\ Page.author info = VStr "unknown")
  /\ page_info Sample.base
       (VObj [("id", VStr "100");
              ("metadata",
               VObj [("labels",
                      VObj [("results",
                             VArr [VObj [("name", VStr "draft")]; VNull])])])])
     = Err TypeError
  /\ exists info,
      page_info Sample.base Sample.raw_page = Ok info
      /\ Page.labels info = []
      /\ Page.created info = VStr "2026-01-02T00:00:00.000Z".
Proof.
  split; [|split].
  - match goal with |- exists info, page_info _ ?r = _ /\ _ => set (record := r) end.
    destruct (page_info_members Sample.base record) as (_ & Hmembers & Hok & _).
    destruct (Hok eq_refl eq_refl
                [VObj [("name", VStr "draft")]; VObj [("name", VStr "api")]]
                eq_refl)
      as (info & Hinfo & Hlabels); [repeat constructor|].
    destruct (Hmembers info Hinfo)
      as (_ & _ & Hspace & Hurl & Hauthor & _).
    exists info. repeat split; assumption.
  - match goal with |- page_info _ ?r = _ => set (record := r) end.
    apply (proj2 (proj2 (proj2 (proj2 (page_info_members Sample.base record))))
             eq_refl).
    right. eexists. split; [reflexivity|].
    apply Exists_cons_tl, Exists_cons_hd. reflexivity.
  - destruct (proj1 (proj2 (proj2 (proj2
                (page_info_members Sample.base Sample.raw_page))))
                eq_refl eq_refl eq_refl) as (info & Hinfo & Hlabels).
    destruct (proj1 (proj2 (page_info_members Sample.base Sample.raw_page))
                info Hinfo)
      as (_ & _ & _ & _ & _ & Hcreated & _).
    exists info. repeat split; assumption.
Defined.

(** ** Next links and the URL requested for them *)

(** X6.  How a next link is requested by the client of a site.  A link
    under [/wiki/], relative to the origin, is requested at the origin
    followed by the link: the [/wiki] of the base URL is not doubled.  A
    link that begins with [http://] or [https://] is requested as it is,
    whatever its host.  Any other link is requested under the base URL,
    with a slash put before it when it has none. *)
Theorem next_link_request :
  forall (upstream : string -> Response) (config : RequiredConfig) (link : string),
    (forall rest,
        link = "/wiki/" ++ rest ->
        request_url (baseUrl (createClient upstream config))
          (normalizePaginationLink link)
        = "https://" ++ site config ++ link)
    /\ (startsWith "http://" link = true \/ startsWith "https://" link = true ->
        request_url (baseUrl (createClient upstream config))
          (normalizePaginationLink link)
        = link)
    /\ (startsWith "http://" link = false ->
        startsWith "https://" link = false ->
        startsWith "/wiki/" link = false ->
        request_url (baseUrl (createClient upstream config))
          (normalizePaginationLink link)
        = "https://" ++ site config ++ "/wiki"
            ++ (if startsWith "/" link then link else "/" ++ link)).
Proof.
  intros upstream config link. cbn [createClient baseUrl]. split; [|split].
  - intros rest ->.
    change (normalizePaginationLink ("/wiki/" ++ rest)) with ("/" ++ rest).
    change (request_url ("https://" ++ site config ++ "/wiki") ("/" ++ rest))
      with (("https://" ++ site config ++ "/wiki") ++ "/" ++ rest).
    now rewrite !append_assoc.
  - intros H.
    rewrite (proj1 (normalizePaginationLink_spec link) H).
    unfold request_url. destruct H as [-> | ->]; [reflexivity|].
    now rewrite orb_true_r.
  - intros H1 H2 H3.
    rewrite (proj2 (proj2 (normalizePaginationLink_spec link)) H3).
    unfold request_url. rewrite H1, H2. cbn [orb].
    now rewrite !append_assoc.
Qed.

(** A next link under [/wiki/] on the site [example.atlassian.net]. *)
Lemma next_link_request_witness :
  request_url
    (baseUrl (createClient (fun _ => NoResponse)
                {| site := "example.atlassian.net";
                   email := "user@example.com";
                   apikey := "token" |}))
    (normalizePaginationLink "/wiki/rest/api/content/1/child/comment?start=100")
  = "https://example.atlassian.net/wiki/rest/api/content/1/child/comment?start=100".
Proof.
  exact (proj1 (next_link_request (fun _ => NoResponse)
                  {| site := "example.atlassian.net";
                     email := "user@example.com";
                     apikey := "token" |}
                  "/wiki/rest/api/content/1/child/comment?start=100")
           "rest/api/content/1/child/comment?start=100" eq_refl).
Defined.

(** ** What the comment tree builder returns *)

Lemma served_not_empty (upstream : string -> Response) (base path : string)
  (pages : list value) :
  served upstream base path pages -> 1 <= length pages.
Proof. destruct 1; simpl; lia. Qed.

Lemma forest_ids (upstream : string -> Response) (base : string)
  (raws : list value) (comments : list Comment) :
  forest upstream base raws comments ->
  map id comments = map (fun raw => raw @. "id") raws.
Proof.
  induction 1 as [|raw raws comment replies rest Hparse _ _ IH]; [reflexivity|].
  cbn [map]. rewrite IH. f_equal. cbn [set_children id].
  now apply parseComment_id.
Qed.

Section Soundness.

Variable upstream : string -> Response.
Variable config : RequiredConfig.

Local Notation "'client'" := (createClient upstream config).
Local Notation "'base'" := (baseUrl (createClient upstream config)).

(** What a run that returned [replies] for [parent] went through. *)
Definition faithful (parent : string) (log : list string)
  (replies : list Comment) (log' : list string) : Prop :=
  thread upstream base parent replies
  /\ exists extra,
      log' = (log ++ extra)%list /\ 1 + countComments replies <= length extra.

Lemma for_each_faithful (fuel : nat) :
  (forall commentId log replies log',
      fetchReplies client fuel commentId log = (Done replies, log') ->
      faithful (to_string commentId) log replies log') ->
  forall raws collected log comments log',
    for_each_raw (with_replies upstream config fuel) raws collected log
    = (Done comments, log') ->
    exists new extra,
      comments = (collected ++ new)%list
      /\ forest upstream base raws new
      /\ log' = (log ++ extra)%list
      /\ countComments new <= length extra.
Proof.
  intros Hfuel. induction raws as [|raw raws IH];
    intros collected log comments log' H; cbn [for_each_raw] in H.
  - apply ret_done in H as [<- ->]. exists [], [].
    rewrite !app_nil_r. repeat split; [constructor | reflexivity].
  - apply bind_done in H as (comment & log1 & Hbody & H).
    unfold with_replies in Hbody.
    apply bind_done in Hbody as (reply & log0 & Hparse & Hbody).
    apply lift_done in Hparse as [Hparse ->].
    apply bind_done in Hbody as (replies & log2 & Hreplies & Hbody).
    apply ret_done in Hbody as [<- ->].
    apply Hfuel in Hreplies as (Hthread & e1 & -> & Hcount1).
    apply IH in H as (new & e2 & -> & Hforest & -> & Hcount2).
    exists (set_children reply replies :: new), (e1 ++ e2)%list.
    rewrite <- !app_assoc. split; [reflexivity|].
    split; [now apply forest_reply|]. split; [reflexivity|].
    rewrite countComments_cons, length_app. cbn [set_children children]. lia.
Qed.

Lemma fetchReplies_faithful (fuel : nat) :
  forall commentId log replies log',
    fetchReplies client fuel commentId log = (Done replies, log') ->
    faithful (to_string commentId) log replies log'.
Proof.
  induction fuel as [|fuel IH]; intros commentId log replies log' H;
    cbn [fetchReplies] in H; [discriminate|].
  apply bind_done in H as (raws & log1 & Hlist & H).
  cbn [createClient fetchAllPages] in Hlist. unfold client_fetchAllPages in Hlist.
  apply loop_done in Hlist as (pages & Hserved & _ & -> & ->);
    [|apply comments_path_not_empty].
  apply (for_each_faithful fuel IH) in H as (new & extra & -> & Hforest & -> & Hcount).
  cbn [app] in *. split.
  - now apply thread_listed with (pages := pages).
  - exists (requests base (comments_path (to_string commentId)) pages ++ extra)%list.
    rewrite app_assoc. split; [reflexivity|].
    rewrite length_app.
    pose proof (requests_length _ _ _ _ Hserved) as Hlen.
    pose proof (served_not_empty _ _ _ _ Hserved).
    cbn [createClient baseUrl] in *. lia.
Qed.

Lemma thread_ids (parent : string) (replies : list Comment) :
  thread upstream base parent replies ->
  exists raws,
    lists upstream base parent raws
    /\ map id replies = map (fun raw => raw @. "id") raws.
Proof.
  intros H. inversion H as [parent' pages replies' Hserved Hforest]; subst.
  exists (flat_map results_of pages). split; [exists pages; auto|].
  eapply forest_ids; eauto.
Qed.

(** What a run of [fetchConfluencePage] that returned an export went
    through, for its comments. *)
Lemma export_faithful parseURL now fuel idOrUrl log export log' :
  fetchConfluencePage parseURL upstream now fuel config idOrUrl log
  = (Done export, log') ->
  exists pageId,
    resolvePageIdForSite parseURL idOrUrl (site config) = Ok pageId
    /\ thread upstream base pageId (comments export)
    /\ exists extra,
        log' = (log ++ extra)%list
        /\ 2 + totalComments (meta export) <= length extra.
Proof.
  unfold fetchConfluencePage. intros H.
  apply bind_done in H as (pageId & log0 & Hid & H).
  apply lift_done in Hid as [Hid ->].
  apply bind_done in H as (record & log1 & Hpage & H).
  apply apiGet_done in Hpage as [_ ->].
  apply bind_done in H as (raws & log2 & Hlist & H).
  cbn [createClient fetchAllPages] in Hlist. unfold client_fetchAllPages in Hlist.
  apply loop_done in Hlist as (pages & Hserved & _ & -> & ->);
    [|apply comments_path_not_empty].
  apply bind_done in H as (comments & log3 & Hloop & H).
  apply (for_each_faithful fuel (fetchReplies_faithful fuel)) in Hloop
    as (new & extra & -> & Hforest & -> & Hcount).
  apply bind_done in H as (info & log4 & Hinfo & H).
  apply lift_done in Hinfo as [_ ->].
  apply ret_done in H as [<- ->]. cbn [app comments meta totalComments] in *.
  exists pageId. split; [exact Hid|].
  split; [now apply thread_listed with (pages := pages)|].
  eexists. rewrite <- !app_assoc. split; [reflexivity|].
  rewrite !length_app. cbn [length].
  pose proof (requests_length _ _ _ _ Hserved) as Hlen.
  pose proof (served_not_empty _ _ _ _ Hserved).
  cbn [createClient baseUrl] in *. lia.
Qed.

End Soundness.

Lemma parseComment_unique (raw : value) (c1 c2 : Comment) :
  parseComment raw = Ok c1 -> parseComment raw = Ok c2 -> c1 = c2.
Proof. congruence. Qed.

(** The service being a function of the URL, a parent has one
    thread. *)
Lemma reply_trees_unique (upstream : string -> Response) (base : string) :
  (forall parent replies,
      thread upstream base parent replies ->
      forall replies', thread upstream base parent replies' -> replies = replies')
  /\ (forall raws comments,
         forest upstream base raws comments ->
         forall comments', forest upstream base raws comments' -> comments = comments').
Proof.
  apply (@reply_trees_ind upstream base
           (fun parent replies =>
              forall replies', thread upstream base parent replies' -> replies = replies')
           (fun raws comments =>
              forall comments', forest upstream base raws comments' -> comments = comments')).
  - intros parent pages replies Hserved _ IH replies' H'.
    inversion H' as [parent' pages' replies'' Hserved' Hforest']; subst.
    rewrite <- (served_unique _ _ _ _ _ Hserved Hserved') in Hforest'.
    now apply IH.
  - intros comments' H'. now inversion H'.
  - intros raw raws comment replies rest Hparse _ IHthread _ IHrest comments' H'.
    inversion H' as [|raw' raws' comment' replies' rest' Hparse' Hthread' Hrest'];
      subst.
    rewrite (parseComment_unique _ _ _ Hparse Hparse').
    now rewrite (IHthread _ Hthread'), (IHrest _ Hrest').
Qed.

(** X7.  Whatever [fetchReplies] returns for a comment is the reply
    tree that the service describes, and no other: the comments are the
    listed records, normalized, in the order of the listing, each with
    the tree of its own replies; the IDs of the returned comments are
    the IDs of the listed records, in that order. *)
Theorem fetchReplies_returns_the_listed_replies :
  forall upstream config fuel commentId log replies log',
    fetchReplies (createClient upstream config) fuel commentId log
    = (Done replies, log') ->
    thread upstream (baseUrl (createClient upstream config))
      (to_string commentId) replies
    /\ (forall replies',
           thread upstream (baseUrl (createClient upstream config))
             (to_string commentId) replies' ->
           replies' = replies)
    /\ exists raws,
        lists upstream (baseUrl (createClient upstream config))
          (to_string commentId) raws
        /\ map id replies = map (fun raw => raw @. "id") raws.
Proof.
  intros upstream config fuel commentId log replies log' H.
  apply fetchReplies_faithful in H as [Hthread _].
  split; [exact Hthread|]. split.
  - intros replies' H'. symmetry.
    exact (proj1 (reply_trees_unique upstream _) _ _ Hthread _ H').
  - now apply thread_ids.
Qed.

(** The replies under the sample comment 201. *)
Lemma fetchReplies_returns_the_listed_replies_witness :
  exists replies log',
    fetchReplies (createClient Sample.wiki Sample.config) 10 (VStr "201") []
    = (Done replies, log')
    /\ thread Sample.wiki Sample.base "201" replies
    /\ map id replies = [VStr "301"].
Proof.
  destruct (fetchReplies (createClient Sample.wiki Sample.config) 10 (VStr "201") [])
    as [[replies| |] log'] eqn:E; try (vm_compute in E; discriminate).
  exists replies, log'. split; [reflexivity|].
  destruct (fetchReplies_returns_the_listed_replies _ _ _ _ _ _ _ E)
    as (Hthread & _ & _).
  split; [exact Hthread|].
  apply (f_equal fst) in E. vm_compute in E. injection E as <-. reflexivity.
Defined.

(** X8.  The comments of every export are the thread that the service
    describes under the resolved page ID: the top-level comments are
    the records of the page's comment listing, in its order, and below
    each comment comes the tree of its replies. *)
Theorem export_comments_are_the_thread :
  forall parseURL upstream now fuel config idOrUrl log export log',
    fetchConfluencePage parseURL upstream now fuel config idOrUrl log
    = (Done export, log') ->
    exists pageId,
      resolvePageIdForSite parseURL idOrUrl (site config) = Ok pageId
      /\ thread upstream (baseUrl (createClient upstream config)) pageId
           (comments export)
      /\ exists raws,
          lists upstream (baseUrl (createClient upstream config)) pageId raws
          /\ length (comments export) = length raws
          /\ map id (comments export) = map (fun raw => raw @. "id") raws.
Proof.
  intros parseURL upstream now fuel config idOrUrl log export log' H.
  apply export_faithful in H as (pageId & Hid & Hthread & _).
  exists pageId. split; [exact Hid|]. split; [exact Hthread|].
  destruct (thread_ids _ _ _ _ Hthread) as (raws & Hlists & Hids).
  exists raws. split; [exact Hlists|]. split; [|exact Hids].
  apply (f_equal (@length _)) in Hids. now rewrite !length_map in Hids.
Qed.

(** The comments of the sample page 100. *)
Lemma export_comments_are_the_thread_witness :
  exists export log',
    Sample.run 10 "100" = (Done export, log')
    /\ thread Sample.wiki Sample.base "100" (comments export)
    /\ map id (comments export) = [VStr "201"; VStr "202"].
Proof.
  destruct (Sample.run 10 "100") as [[export| |] log'] eqn:E;
    try (vm_compute in E; discriminate).
  exists export, log'. split; [reflexivity|].
  destruct (export_comments_are_the_thread _ _ _ _ _ _ _ _ _ E)
    as (pageId & Hid & Hthread & _).
  vm_compute in Hid. injection Hid as <-.
  split; [exact Hthread|].
  apply (f_equal fst) in E. vm_compute in E. injection E as <-. reflexivity.
Defined.

(** X9.  A run only adds to the requests issued before it, and it
    issues at least one request per comment it returns: [fetchReplies]
    at least one more than the comments of the returned tree, and
    [fetchConfluencePage] at least two more than [meta.totalComments]
    (the page, its comment listing, and the reply listing of every
    comment). *)
Theorem one_listing_per_comment :
  (forall upstream config fuel commentId log replies log',
      fetchReplies (createClient upstream config) fuel commentId log
      = (Done replies, log') ->
      exists extra,
        log' = (log ++ extra)%list
        /\ 1 + countComments replies <= length extra)
  /\ (forall parseURL upstream now fuel config idOrUrl log export log',
         fetchConfluencePage parseURL upstream now fuel config idOrUrl log
         = (Done export, log') ->
         exists extra,
           log' = (log ++ extra)%list
           /\ 2 + totalComments (meta export) <= length extra).
Proof.
  split.
  - intros upstream config fuel commentId log replies log' H.
    now apply fetchReplies_faithful in H as [_ H].
  - intros parseURL upstream now fuel config idOrUrl log export log' H.
    now apply export_faithful in H as (_ & _ & _ & H).
Qed.

(** The sample page 100 has four comments; seven requests are
    issued, its comment listing having two pages. *)
Lemma one_listing_per_comment_witness :
  exists export log',
    Sample.run 10 "100" = (Done export, log')
    /\ totalComments (meta export) = 4
    /\ 2 + totalComments (meta export) <= length log'
    /\ length log' = 7.
Proof.
  destruct (Sample.run 10 "100") as [[export| |] log'] eqn:E;
    try (vm_compute in E; discriminate).
  exists export, log'. split; [reflexivity|].
  destruct (proj2 one_listing_per_comment _ _ _ _ _ _ _ _ _ E)
    as (extra & -> & Hcount).
  assert (Hrun : Sample.run 10 "100" = (Done export, extra)) by exact E.
  apply (f_equal fst) in E. vm_compute in E. injection E as <-.
  apply (f_equal snd) in Hrun. vm_compute in Hrun. subst extra.
  repeat split; [exact Hcount].
Defined.

(** ** Errors of the input and errors of the network *)

Section Discipline.

Variable upstream : string -> Response.

(** The request of [url] is answered with a success status and a
    body that is JSON. *)
Definition answered (url : string) : Prop :=
  exists status statusText json,
    upstream url = Http status statusText (Some json) /\ ok status = true.

(** The error that [apiGet] throws for a request that is not
    answered this way. *)
Definition failure_of (url : string) : error :=
  match upstream url with
  | NoResponse => FetchFailed
  | Http status statusText _ =>
      if ok status then BodyNotJson
      else TransportError (msg_api_error status statusText url)
  end.

Definition network_error (e : error) : Prop :=
  match e with
  | InvalidInput _ | HostMismatch _ => False
  | _ => True
  end.

(** [m] only adds requests, throws no error of the input, and stops
    at the first request that is not answered. *)
Definition disciplined {A} (m : M A) : Prop :=
  forall log out log',
    m log = (out, log') ->
    exists extra,
      log' = (log ++ extra)%list
      /\ (forall e, out = Throw e -> network_error e)
      /\ (Forall answered extra
          \/ exists earlier url,
              extra = (earlier ++ [url])%list
              /\ Forall answered earlier
              /\ ~ answered url
              /\ out = Throw (failure_of url)).

Lemma disciplined_ret A (a : A) : disciplined (ret a).
Proof.
  intros log out log' [= <- <-]. exists []. rewrite app_nil_r.
  split; [reflexivity|]. split; [discriminate | now left].
Qed.

Lemma disciplined_throw A (e : error) :
  network_error e -> disciplined (@throw A e).
Proof.
  intros He log out log' [= <- <-]. exists []. rewrite app_nil_r.
  split; [reflexivity|]. split; [now intros ? [= <-] | now left].
Qed.

Lemma disciplined_out_of_fuel A : disciplined (@out_of_fuel A).
Proof.
  intros log out log' [= <- <-]. exists []. rewrite app_nil_r.
  split; [reflexivity|]. split; [discriminate | now left].
Qed.

Lemma disciplined_lift A (r : result A) :
  (forall e, r = Err e -> e = TypeError) -> disciplined (lift r).
Proof.
  destruct r as [a|e]; intros H; [apply disciplined_ret|].
  apply disciplined_throw. now rewrite (H e eq_refl).
Qed.

Lemma disciplined_bind A B (m : M A) (k : A -> M B) :
  disciplined m -> (forall a, disciplined (k a)) -> disciplined (bind m k).
Proof.
  intros Hm Hk log out log'. unfold bind.
  destruct (m log) as [[a|e|] log1] eqn:E; intros H.
  - destruct (Hm _ _ _ E) as (e1 & -> & _ & [Hall1 | (? & ? & _ & _ & _ & [=])]).
    destruct (Hk a _ _ _ H) as (e2 & -> & Herr & Hrest).
    exists (e1 ++ e2)%list. rewrite app_assoc. split; [reflexivity|].
    split; [exact Herr|].
    destruct Hrest as [Hall2 | (earlier & url & -> & Hearlier & Hurl & Hout)].
    + left. apply Forall_app; auto.
    + right. exists (e1 ++ earlier)%list, url. rewrite app_assoc.
      split; [reflexivity|]. split; [apply Forall_app; auto | auto].
  - injection H as <- <-.
    destruct (Hm _ _ _ E) as (e1 & -> & Herr & Hrest).
    exists e1. split; [reflexivity|].
    split; [intros e' [= <-]; now apply (Herr e)|].
    destruct Hrest as [Hall | (earlier & url & -> & Hearlier & Hurl & [= ->])];
      [now left|].
    right. exists earlier, url. auto.
  - injection H as <- <-.
    destruct (Hm _ _ _ E) as (e1 & -> & _ & [Hall | (? & ? & _ & _ & _ & [=])]).
    exists e1. split; [reflexivity|]. split; [discriminate | now left].
Qed.

Lemma disciplined_apiGet (base pathOrUrl : string) :
  disciplined (client_apiGet upstream base pathOrUrl).
Proof.
  intros log out log'. unfold client_apiGet.
  set (url := request_url base pathOrUrl).
  intros H. exists [url]. 
  assert (Hsingle : forall e,
             ~ answered url -> failure_of url = e -> network_error e ->
             out = Throw e ->
             (forall e', out = Throw e' -> network_error e')
             /\ (Forall answered [url]
                 \/ exists earlier url0,
                     [url] = (earlier ++ [url0])%list
                     /\ Forall answered earlier
                     /\ ~ answered url0
                     /\ out = Throw (failure_of url0))).
  { intros e Hno Hfail He ->. split; [now intros e' [= <-]|].
    right. exists [], url. rewrite Hfail. auto. }
  unfold failure_of in Hsingle.
  destruct (upstream url) as [|status statusText body] eqn:Hup.
  - injection H as <- <-. split; [reflexivity|].
    apply (Hsingle FetchFailed); try easy.
    intros (? & ? & ? & Ha & _). congruence.
  - destruct (ok status) eqn:Hok; cbn [negb] in H.
    + destruct body as [json|]; injection H as <- <-; (split; [reflexivity|]).
      * split; [discriminate|]. left. constructor; [|constructor].
        exists status, statusText, json. rewrite Hup. auto.
      * apply (Hsingle BodyNotJson); try easy.
        intros (? & ? & ? & Ha & _). congruence.
    + injection H as <- <-. split; [reflexivity|].
      apply (Hsingle (TransportError (msg_api_error status statusText url)));
        try easy.
      intros (? & ? & ? & Ha & Hok'). congruence.
Qed.

Lemma disciplined_loop (base : string) (fuel : nat) :
  forall results next,
    disciplined (fetchAllPages_loop upstream base fuel results next).
Proof.
  induction fuel as [|fuel IH]; intros results [path|]; cbn [fetchAllPages_loop];
    try apply disciplined_ret;
    (destruct (String.eqb path ""); [apply disciplined_ret|]);
    [apply disciplined_out_of_fuel|].
  apply disciplined_bind; [apply disciplined_apiGet|]. intros page.
  destruct (nullish page); [now apply disciplined_throw|].
  destruct (truthy _); [|apply IH].
  destruct (page @. "_links" ?. "next"); try (now apply disciplined_throw).
  apply IH.
Qed.

Lemma disciplined_for_each (body : value -> M Comment) (raws : list value) :
  (forall raw, disciplined (body raw)) ->
  forall replies, disciplined (for_each_raw body raws replies).
Proof.
  intros Hbody. induction raws as [|raw raws IH]; intros replies;
    cbn [for_each_raw]; [apply disciplined_ret|].
  apply disciplined_bind; [apply Hbody | intros; apply IH].
Qed.

Lemma parseComment_error (raw : value) (e : error) :
  parseComment raw = Err e -> e = TypeError.
Proof.
  unfold parseComment. destruct (nullish raw); [now intros [= <-] | discriminate].
Qed.

Lemma page_info_error (base : string) (record : value) (e : error) :
  page_info base record = Err e -> e = TypeError.
Proof.
  unfold page_info. destruct (nullish record); [now intros [= <-]|].
  destruct (page_labels record) as [labels|e'] eqn:E; [discriminate|].
  intros [= <-]. unfold page_labels in E.
  destruct (_ ?? VArr []); try (now injection E as <-).
  now apply label_names_error in E.
Qed.

Lemma disciplined_fetchReplies (config : RequiredConfig) (fuel : nat) :
  forall commentId,
    disciplined (fetchReplies (createClient upstream config) fuel commentId).
Proof.
  induction fuel as [|fuel IH]; intros commentId; cbn [fetchReplies];
    [apply disciplined_out_of_fuel|].
  apply disciplined_bind; [apply disciplined_loop|]. intros rawReplies.
  apply disciplined_for_each. intros raw.
  apply disciplined_bind; [apply disciplined_lift, parseComment_error|].
  intros reply.
  apply disciplined_bind; [apply IH | intros; apply disciplined_ret].
Qed.

(** [fetchConfluencePage] from the request of the page on, and
    from its answer on. *)
Definition after_page (now : string) (fuel : nat) (config : RequiredConfig)
  (pageId : string) (page : value) : M PageExport :=
  let client := createClient upstream config in
  rawComments <- fetchAllPages client fuel (comments_path pageId) ;;
  comments <-
    for_each_raw
      (fun raw =>
         comment <- lift (parseComment raw) ;;
         replies <- fetchReplies client fuel (raw @. "id") ;;
         ret (set_children comment replies))
      rawComments [] ;;
  info <- lift (page_info (baseUrl client) page) ;;
  ret {| page := info;
         comments := comments;
         meta := {| fetchedAt := now;
                    totalComments := countComments comments |} |}.

Definition after_resolving (now : string) (fuel : nat) (config : RequiredConfig)
  (pageId : string) : M PageExport :=
  page <- apiGet (createClient upstream config) (page_path pageId) ;;
  after_page now fuel config pageId page.

Lemma fetchConfluencePage_unfold parseURL now fuel config idOrUrl :
  fetchConfluencePage parseURL upstream now fuel config idOrUrl
  = (pageId <- lift (resolvePageIdForSite parseURL idOrUrl (site config)) ;;
     after_resolving now fuel config pageId).
Proof. reflexivity. Qed.

Lemma disciplined_after_page now fuel config pageId page :
  disciplined (after_page now fuel config pageId page).
Proof.
  unfold after_page.
  apply disciplined_bind; [apply disciplined_loop|]. intros rawComments.
  apply disciplined_bind.
  { apply disciplined_for_each. intros raw.
    apply disciplined_bind; [apply disciplined_lift, parseComment_error|].
    intros comment.
    apply disciplined_bind; [apply disciplined_fetchReplies|].
    intros; apply disciplined_ret. }
  intros comments.
  apply disciplined_bind; [apply disciplined_lift, page_info_error|].
  intros; apply disciplined_ret.
Qed.

Lemma disciplined_after_resolving now fuel config pageId :
  disciplined (after_resolving now fuel config pageId).
Proof.
  unfold after_resolving.
  apply disciplined_bind; [apply disciplined_apiGet|].
  intros page. apply disciplined_after_page.
Qed.

Lemma apiGet_appends (base pathOrUrl : string) (log : list string)
  (out : outcome value) (log1 : list string) :
  client_apiGet upstream base pathOrUrl log = (out, log1) ->
  log1 = (log ++ [request_url base pathOrUrl])%list.
Proof.
  unfold client_apiGet.
  destruct (upstream _) as [|status statusText [json|]];
    [|destruct (negb (ok status))..]; now intros [= _ <-].
Qed.

Definition page_url (config : RequiredConfig) (pageId : string) : string :=
  "https://" ++ site config ++ "/wiki" ++ page_path pageId.

Lemma after_resolving_first now fuel config pageId log out log' :
  after_resolving now fuel config pageId log = (out, log') ->
  exists rest, log' = (log ++ page_url config pageId :: rest)%list.
Proof.
  unfold after_resolving, bind. cbn [createClient apiGet].
  destruct (client_apiGet _ _ _ log) as [[page| |] log1] eqn:E; intros H;
    apply apiGet_appends in E; rewrite request_url_page, !append_assoc in E;
    fold (page_url config pageId) in E.
  - destruct (disciplined_after_page now fuel config pageId page _ _ _ H)
      as (extra & -> & _).
    subst log1. exists extra. now rewrite <- app_assoc.
  - injection H as <- <-. now exists [].
  - injection H as <- <-. now exists [].
Qed.

End Discipline.

(** X10.  The page identifier is dealt with before the network is
    touched.  When it cannot be resolved, [fetchConfluencePage] throws
    the resolver's error and issues no request; an invalid-input or
    host-mismatch error never comes with a request.  When it is resolved,
    the first request, whatever follows, is for the page with that ID,
    made of digits only, on the configured site. *)
Theorem identifier_checked_before_requests :
  forall parseURL upstream now fuel config idOrUrl log out log',
    fetchConfluencePage parseURL upstream now fuel config idOrUrl log
    = (out, log') ->
    (forall e,
        resolvePageIdForSite parseURL idOrUrl (site config) = Err e ->
        out = Throw e /\ log' = log)
    /\ (forall pageId,
           resolvePageIdForSite parseURL idOrUrl (site config) = Ok pageId ->
           all_digits pageId = true
           /\ exists rest,
               log' = (log ++ ("https://" ++ site config
                                 ++ "/wiki/rest/api/content/" ++ pageId
                                 ++ "?expand=body.storage,version,history,space,metadata.labels")%string
                           :: rest)%list)
    /\ (forall message,
           out = Throw (InvalidInput message) \/ out = Throw (HostMismatch message) ->
           log' = log).
Proof.
  intros parseURL upstream now fuel config idOrUrl log out log' H.
  rewrite fetchConfluencePage_unfold in H. unfold bind in H.
  destruct (resolvePageIdForSite parseURL idOrUrl (site config)) as [pageId|e] eqn:Hid;
    cbn [lift ret throw] in H.
  - split; [discriminate|]. split.
    + intros pageId' [= <-].
      split; [exact (resolvePageIdForSite_digits _ _ _ _ Hid)|].
      exact (after_resolving_first _ _ _ _ _ _ _ _ H).
    + intros message Hout.
      destruct (disciplined_after_resolving _ _ _ _ _ _ _ _ H) as (_ & _ & Herr & _).
      destruct Hout as [-> | ->]; now elim (Herr _ eq_refl).
  - injection H as <- <-. split; [now intros e' [= <-]|].
    split; [discriminate | reflexivity].
Qed.

(** An address without a page ID, and the sample page 500, which is
    refused. *)
Lemma identifier_checked_before_requests_witness :
  Sample.run 10 "https://example.atlassian.net/wiki/spaces/ENG/overview"
  = (Throw (InvalidInput msg_no_page_id), [])
  /\ exists out rest,
      Sample.run 10 "https://example.atlassian.net/wiki/spaces/ENG/pages/500/Down"
      = (out,
         "https://example.atlassian.net/wiki/rest/api/content/500?expand=body.storage,version,history,space,metadata.labels"
           :: rest).
Proof.
  split.
  - destruct (Sample.run 10 "https://example.atlassian.net/wiki/spaces/ENG/overview")
      as [out log'] eqn:E.
    destruct (proj1 (identifier_checked_before_requests _ _ _ _ _ _ _ _ _ E)
                (InvalidInput msg_no_page_id) eq_refl) as [-> ->].
    reflexivity.
  - destruct (Sample.run 10
                "https://example.atlassian.net/wiki/spaces/ENG/pages/500/Down")
      as [out log'] eqn:E.
    destruct (proj1 (proj2 (identifier_checked_before_requests _ _ _ _ _ _ _ _ _ E))
                "500" eq_refl) as (_ & rest & ->).
    exists out, rest. reflexivity.
Defined.

(** X11.  An export is returned only when every request was answered
    with a success status and a JSON body.  A request that gets no
    response, or a body that is not JSON, is the last request of the
    run, after answered ones only, and the run ends with the error of
    that failure. *)
Theorem unanswered_request_ends_the_run :
  forall parseURL upstream now fuel config idOrUrl out log',
    fetchConfluencePage parseURL upstream now fuel config idOrUrl []
    = (out, log') ->
    (forall export, out = Done export -> Forall (answered upstream) log')
    /\ (forall url,
           In url log' ->
           upstream url = NoResponse ->
           out = Throw FetchFailed
           /\ exists earlier,
               log' = (earlier ++ [url])%list
               /\ Forall (answered upstream) earlier)
    /\ (forall url status statusText,
           In url log' ->
           upstream url = Http status statusText None ->
           ok status = true ->
           out = Throw BodyNotJson
           /\ exists earlier,
               log' = (earlier ++ [url])%list
               /\ Forall (answered upstream) earlier).
Proof.
  intros parseURL upstream now fuel config idOrUrl out log' H.
  assert (Hrun : Forall (answered upstream) log'
                 \/ exists earlier url,
                     log' = (earlier ++ [url])%list
                     /\ Forall (answered upstream) earlier
                     /\ ~ answered upstream url
                     /\ out = Throw (failure_of upstream url)).
  { rewrite fetchConfluencePage_unfold in H. unfold bind in H.
    destruct (resolvePageIdForSite parseURL idOrUrl (site config)) as [pageId|e];
      cbn [lift ret throw] in H.
    - now destruct (disciplined_after_resolving _ _ _ _ _ _ _ _ H)
        as (extra & -> & _ & Hrest).
    - injection H as <- <-. left. constructor. }
  assert (Hlast : forall url,
             In url log' ->
             ~ answered upstream url ->
             out = Throw (failure_of upstream url)
             /\ exists earlier,
                 log' = (earlier ++ [url])%list
                 /\ Forall (answered upstream) earlier).
  { intros url Hin Hno.
    destruct Hrun as [Hall | (earlier & url0 & -> & Hearlier & _ & ->)].
    - rewrite Forall_forall in Hall. now elim Hno; apply Hall.
    - apply in_app_or in Hin as [Hin | [<- | []]].
      + rewrite Forall_forall in Hearlier. now elim Hno; apply Hearlier.
      + split; [reflexivity|]. exists earlier. auto. }
  split; [|split].
  - intros export ->.
    destruct Hrun as [Hall | (? & ? & _ & _ & _ & [=])]. exact Hall.
  - intros url Hin Hup.
    destruct (Hlast url Hin) as [-> Hrest].
    + intros (? & ? & ? & Ha & _). congruence.
    + unfold failure_of. rewrite Hup. auto.
  - intros url status statusText Hin Hup Hok.
    destruct (Hlast url Hin) as [-> Hrest].
    + intros (? & ? & ? & Ha & _). congruence.
    + unfold failure_of. rewrite Hup, Hok. auto.
Qed.

(** The sample page 100 against the sample service, and against a
    network that gives no response. *)
Lemma unanswered_request_ends_the_run_witness :
  (exists export log',
      Sample.run 10 "100" = (Done export, log')
      /\ Forall (answered Sample.wiki) log')
  /\ fetchConfluencePage SimpleURL.parse (fun _ => NoResponse) Sample.now 10
       Sample.config "100" []
     = (Throw FetchFailed, [Sample.base ++ page_path "100"]).
Proof.
  split.
  - destruct (Sample.run 10 "100") as [[export| |] log'] eqn:E;
      try (vm_compute in E; discriminate).
    exists export, log'. split; [reflexivity|].
    exact (proj1 (unanswered_request_ends_the_run _ _ _ _ _ _ _ _ E) export eq_refl).
  - destruct (fetchConfluencePage SimpleURL.parse (fun _ => NoResponse) Sample.now
                10 Sample.config "100" []) as [out log'] eqn:E.
    assert (Hlog : log' = [Sample.base ++ page_path "100"])
      by (apply (f_equal snd) in E; vm_compute in E; now subst log').
    destruct (proj1 (proj2 (unanswered_request_ends_the_run _ _ _ _ _ _ _ _ E))
                (Sample.base ++ page_path "100")) as [-> _];
      [rewrite Hlog; now left | reflexivity |].
    now rewrite Hlog.
Defined.

(** * The local configuration *)

Import ConfigFile.

(** ** Trimming twice *)

Lemma trimEnd_idempotent (s : string) : trimEnd (trimEnd s) = trimEnd s.
Proof.
  induction s as [|c s IH]; [reflexivity|]. cbn [trimEnd].
  destruct (trimEnd s) as [|d t] eqn:E.
  - destruct (is_space c) eqn:Hc; [reflexivity|]. cbn [trimEnd]. now rewrite Hc.
  - cbn [trimEnd]. cbn [trimEnd] in IH. now rewrite IH.
Qed.

Lemma trimStart_head (s : string) :
  trimStart s = "" \/ exists c t, trimStart s = String c t /\ is_space c = false.
Proof.
  induction s as [|c s IH]; [now left|]. simpl.
  destruct (is_space c) eqn:Hc; [exact IH|]. right. eauto.
Qed.

Lemma trimEnd_head (c : ascii) (t : string) :
  is_space c = false -> exists t', trimEnd (String c t) = String c t'.
Proof.
  intros Hc. cbn [trimEnd]. destruct (trimEnd t); [rewrite Hc|]; eauto.
Qed.

Lemma trim_idempotent (s : string) : trim (trim s) = trim s.
Proof.
  unfold trim.
  destruct (trimStart_head s) as [-> | (c & t & -> & Hc)]; [reflexivity|].
  destruct (trimEnd_head c t Hc) as [t' Ht']. rewrite Ht' at 1.
  cbn [trimStart]. rewrite Hc, <- Ht'. apply trimEnd_idempotent.
Qed.

Lemma trim_empty (s : string) : trim s = "" <-> every is_space s = true.
Proof.
  split.
  - unfold trim. intros H.
    assert (Hstart : trimStart s = "").
    { destruct (trimStart_head s) as [E | (c & t & E & Hc)]; [exact E|].
      rewrite E in H. destruct (trimEnd_head c t Hc) as [t' Ht'].
      rewrite Ht' in H. discriminate. }
    clear H. induction s as [|c s IH]; [reflexivity|]. simpl in *.
    destruct (is_space c); [now apply IH | discriminate].
  - intros H. unfold trim. now rewrite (trimStart_all_spaces _ H).
Qed.

Lemma trim_keeps_prefix (p s : string) :
  (exists c t, p = String c t /\ is_space c = false) ->
  trim s = s -> s <> "" -> trim (p ++ s) = p ++ s.
Proof.
  intros (c & t & -> & Hc) Hs Hne. unfold trim.
  cbn [append trimStart]. rewrite Hc.
  assert (Hend : trimEnd s = s).
  { rewrite <- Hs at 1. unfold trim. rewrite trimEnd_idempotent. exact Hs. }
  change (String c (t ++ s)) with (String c t ++ s).
  generalize (String c t). intros q.
  induction q as [|d q IH]; [exact Hend|].
  cbn [append trimEnd]. rewrite IH.
  destruct (q ++ s) eqn:E; [|reflexivity].
  destruct q; [now elim Hne | discriminate].
Qed.

(** ** An email address *)

Definition is_email_local (s : string) : Prop :=
  s <> "" /\ every email_char s = true.

(** What [/^[^@\s]+@[^@\s]+\.[^@\s]+$/] says of a string. *)
Definition email_shape (s : string) : Prop :=
  exists local a b,
    s = local ++ "@" ++ a ++ "." ++ b
    /\ is_email_local local /\ is_email_local a /\ is_email_local b.

Lemma dot_and_rest_spec (s : string) :
  dot_and_rest s = true <-> exists b, s = "." ++ b /\ is_email_local b.
Proof.
  unfold dot_and_rest. destruct s as [|c [|d rest]].
  - split; [discriminate | intros (b & [=] & _)].
  - split; [discriminate|]. intros (b & [= -> <-] & Hne & _). now elim Hne.
  - rewrite andb_true_iff, Ascii.eqb_eq. split.
    + intros [-> H]. exists (String d rest). split; [reflexivity|].
      split; [discriminate | exact H].
    + intros (b & [= -> <-] & _ & H). auto.
Qed.

Lemma dotted_spec (s : string) :
  dotted s = true <->
  exists a b, s = a ++ "." ++ b /\ is_email_local a /\ is_email_local b.
Proof.
  induction s as [|c s IH]; cbn [dotted].
  - split; [discriminate|]. intros ([|? ?] & b & [=] & [Hne _] & _). 
  - rewrite andb_true_iff, orb_true_iff, dot_and_rest_spec, IH. split.
    + intros [Hc [(b & -> & Hb) | (a & b & -> & [Hane Ha] & Hb)]].
      * exists (String c ""), b. split; [reflexivity|].
        split; [split; [discriminate | simpl; now rewrite Hc] | exact Hb].
      * exists (String c a), b. split; [reflexivity|].
        split; [split; [discriminate | simpl; now rewrite Hc, Ha] | exact Hb].
    + intros ([|c' a] & b & E & [Hane Ha] & Hb); [now elim Hane|].
      injection E as <- ->. simpl in Ha. apply andb_true_iff in Ha as [Hc Ha].
      split; [exact Hc|]. destruct a as [|d a].
      * left. now exists b.
      * right. exists (String d a), b. split; [reflexivity|].
        split; [split; [discriminate | exact Ha] | exact Hb].
Qed.

Lemma is_email_spec (s : string) : is_email s = true <-> email_shape s.
Proof.
  unfold is_email, email_shape. split.
  - destruct (span email_char s) as [local rest] eqn:E.
    apply span_split in E as (-> & Hlocal & _).
    destruct local as [|l local]; [discriminate|].
    destruct rest as [|c domain]; [discriminate|].
    rewrite andb_true_iff, Ascii.eqb_eq, dotted_spec.
    intros [-> (a & b & -> & Ha & Hb)].
    exists (String l local), a, b. split; [reflexivity|].
    split; [split; [discriminate | exact Hlocal] | auto].
  - intros (local & a & b & -> & [Hne Hlocal] & Ha & Hb).
    rewrite (span_append email_char local ("@" ++ a ++ "." ++ b) Hlocal);
      [|reflexivity].
    destruct local; [now elim Hne|].
    cbn [append]. rewrite Ascii.eqb_refl. cbn [andb].
    apply dotted_spec. now exists a, b.
Qed.

Lemma email_char_no_space (c : ascii) :
  email_char c = true -> negb (is_space c) = true.
Proof. unfold email_char. now intros [_ H]%andb_true_iff. Qed.

Lemma every_append (p : ascii -> bool) (a b : string) :
  every p (a ++ b) = every p a && every p b.
Proof. induction a as [|c a IH]; simpl; [reflexivity|]. now rewrite IH, andb_assoc. Qed.

Lemma email_shape_no_space (s : string) :
  email_shape s -> every (fun c => negb (is_space c)) s = true.
Proof.
  intros (local & a & b & -> & [_ Hl] & [_ Ha] & [_ Hb]).
  rewrite !every_append.
  rewrite (every_weaken _ _ _ email_char_no_space Hl),
    (every_weaken _ _ _ email_char_no_space Ha),
    (every_weaken _ _ _ email_char_no_space Hb).
  reflexivity.
Qed.

(** X12.  [normalizeEmail] accepts exactly the inputs that, once
    trimmed, are made of a local part, an [@], and a domain with a dot
    that is neither its first nor its last character, all without [@]
    and without white space; it returns the trimmed input, and throws
    ["Invalid email address"] otherwise.  What it returns it accepts
    again, unchanged. *)
Theorem normalizeEmail_spec :
  forall input,
    (forall v,
        normalizeEmail input = Success v <-> v = trim input /\ email_shape v)
    /\ (forall message,
           normalizeEmail input = Failure message <->
           message = msg_email_invalid /\ ~ email_shape (trim input))
    /\ (forall v, normalizeEmail input = Success v -> normalizeEmail v = Success v).
Proof.
  intros input. unfold normalizeEmail.
  destruct (is_email (trim input)) eqn:E; cbn [negb].
  - apply is_email_spec in E. split; [|split].
    + intros v. split; [now intros [= <-] | now intros [-> _]].
    + intros message. split; [discriminate | now intros [_ H]].
    + intros v [= <-].
      rewrite (trim_no_spaces _ (email_shape_no_space _ E)).
      apply is_email_spec in E. now rewrite E.
  - assert (Hno : ~ email_shape (trim input))
      by (intros H; apply is_email_spec in H; congruence).
    split; [|split].
    + intros v. split; [discriminate | now intros [-> H]].
    + intros message. split; [now intros [= <-] | now intros [-> _]].
    + discriminate.
Qed.

Lemma normalizeEmail_spec_witness :
  normalizeEmail "  user@example.com " = Success "user@example.com"
  /\ normalizeEmail "user@example.com" = Success "user@example.com"
  /\ ~ email_shape (trim "user@localhost")
  /\ normalizeEmail "user@localhost" = Failure msg_email_invalid.
Proof.
  destruct (normalizeEmail_spec "  user@example.com ") as (Hok & _ & Hagain).
  destruct (normalizeEmail_spec "user@localhost") as (_ & Hfail & _).
  assert (H1 : normalizeEmail "  user@example.com " = Success "user@example.com").
  { apply Hok. split; [reflexivity|].
    exists "user", "example", "com". repeat split; discriminate. }
  split; [exact H1|]. split; [exact (Hagain _ H1)|].
  destruct (proj1 (Hfail msg_email_invalid) eq_refl) as [_ Hno].
  split; [exact Hno|]. apply Hfail. split; [reflexivity | exact Hno].
Defined.

(** X13.  [normalizeApiKey] throws ["API key cannot be empty"] exactly
    when the input is empty or white space only; otherwise it returns
    the input without the white space around it, which is not empty
    and which it accepts again, unchanged. *)
Theorem normalizeApiKey_spec :
  forall input,
    (normalizeApiKey input = Failure msg_apikey_empty <->
     every is_space input = true)
    /\ (forall v,
           normalizeApiKey input = Success v <-> v = trim input /\ v <> "")
    /\ (forall message,
           normalizeApiKey input = Failure message -> message = msg_apikey_empty)
    /\ (forall v, normalizeApiKey input = Success v -> normalizeApiKey v = Success v).
Proof.
  intros input. unfold normalizeApiKey.
  destruct (String.eqb (trim input) "") eqn:E.
  - apply String.eqb_eq in E. split; [|split; [|split]].
    + split; [intros _; now apply trim_empty | reflexivity].
    + intros v. split; [discriminate | intros [-> H]; now elim H].
    + now intros message [= <-].
    + discriminate.
  - apply String.eqb_neq in E. split; [|split; [|split]].
    + split; [discriminate | intros H; apply trim_empty in H; now elim E].
    + intros v. split; [now intros [= <-] | now intros [-> _]].
    + discriminate.
    + intros v [= <-]. rewrite trim_idempotent.
      apply String.eqb_neq in E. now rewrite E.
Qed.

Lemma normalizeApiKey_spec_witness :
  normalizeApiKey "   " = Failure msg_apikey_empty
  /\ normalizeApiKey " secret token " = Success "secret token"
  /\ normalizeApiKey "secret token" = Success "secret token".
Proof.
  split; [|split].
  - now apply (proj1 (normalizeApiKey_spec "   ")).
  - apply (proj1 (proj2 (normalizeApiKey_spec " secret token "))).
    split; [reflexivity | discriminate].
  - apply (proj2 (proj2 (proj2 (normalizeApiKey_spec " secret token ")))).
    reflexivity.
Defined.

(** ** Required and masked values *)

(** A member that is missing or is the empty string. *)
Definition not_set (config : AtlasCtlConfig.t) (key : ConfigKey) : Prop :=
  AtlasCtlConfig.get config key = None \/ AtlasCtlConfig.get config key = Some "".

(** The place of a key in [CONFIG_KEYS]. *)
Definition key_rank (key : ConfigKey) : nat :=
  match key with
  | KeySite => 0
  | KeyEmail => 1
  | KeyApikey => 2
  end.

Lemma unset_not_set (config : AtlasCtlConfig.t) (key : ConfigKey) :
  unset (AtlasCtlConfig.get config key) = true <-> not_set config key.
Proof.
  unfold unset, not_set. destruct (AtlasCtlConfig.get config key) as [s|].
  - rewrite String.eqb_eq. split; [intros ->; now right | intros [[=] | [= ->]]; auto].
  - split; auto.
Qed.

Lemma missing_keys (config : AtlasCtlConfig.t) :
  let missing :=
    filter (fun key => unset (AtlasCtlConfig.get config key)) CONFIG_KEYS in
  (forall key, In key missing <-> not_set config key)
  /\ StronglySorted (fun a b => key_rank a < key_rank b) missing.
Proof.
  cbv zeta. split.
  - intros key. rewrite filter_In, unset_not_set. split; [now intros [_ H]|].
    intros H. split; [destruct key; simpl; auto | exact H].
  - unfold CONFIG_KEYS. cbn [filter].
    destruct (unset (AtlasCtlConfig.get config KeySite)),
      (unset (AtlasCtlConfig.get config KeyEmail)),
      (unset (AtlasCtlConfig.get config KeyApikey));
      repeat constructor; simpl; lia.
Qed.

(** X14.  [requireFetchConfig] returns the three values exactly when
    each of them is there and is not the empty string.  Otherwise it
    throws, and the message lists the keys that are missing or empty,
    all of them, each once, in the order site, email, apikey. *)
Theorem requireFetchConfig_spec :
  forall config,
    (forall required,
        requireFetchConfig config = Success required <->
        AtlasCtlConfig.site config = Some (site required) /\ site required <> ""
        /\ AtlasCtlConfig.email config = Some (email required)
        /\ email required <> ""
        /\ AtlasCtlConfig.apikey config = Some (apikey required)
        /\ apikey required <> "")
    /\ (forall message,
           requireFetchConfig config = Failure message ->
           exists missing,
             missing <> []
             /\ message = msg_missing missing
             /\ (forall key, In key missing <-> not_set config key)
             /\ StronglySorted (fun a b => key_rank a < key_rank b) missing)
    /\ ((exists key, not_set config key) ->
        exists message, requireFetchConfig config = Failure message).
Proof.
  intros config. pose proof (missing_keys config) as [Hin Hsorted].
  cbv zeta in Hin, Hsorted. unfold requireFetchConfig.
  destruct (filter _ CONFIG_KEYS) as [|first others] eqn:E.
  - assert (Hset : forall key, ~ not_set config key)
      by (intros key H; now apply Hin in H).
    destruct config as [[s|] [e|] [k|]]; cbn [AtlasCtlConfig.site
      AtlasCtlConfig.email AtlasCtlConfig.apikey];
      try (now elim (Hset KeySite); left);
      try (now elim (Hset KeyEmail); left);
      try (now elim (Hset KeyApikey); left).
    split; [|split].
    + intros [s' e' k']. cbn [site email apikey]. split.
      * intros [= -> -> ->]. repeat split; try reflexivity; intros ->.
        -- now elim (Hset KeySite); right.
        -- now elim (Hset KeyEmail); right.
        -- now elim (Hset KeyApikey); right.
      * now intros ([= ->] & _ & [= ->] & _ & [= ->] & _).
    + discriminate.
    + intros [key H]. now elim (Hset key).
  - split; [|split].
    + intros required. split; [discriminate|].
      intros (Hs & Hs' & He & He' & Hk & Hk').
      assert (Hfirst : not_set config first) by (apply Hin; now left).
      destruct first; unfold not_set in Hfirst; cbn in Hfirst;
        rewrite ?Hs, ?He, ?Hk in Hfirst;
        destruct Hfirst as [[=] | [= H]]; congruence.
    + intros message [= <-]. exists (first :: others).
      split; [discriminate|]. auto.
    + intros _. eauto.
Qed.

Lemma requireFetchConfig_spec_witness :
  requireFetchConfig
    {| AtlasCtlConfig.site := Some "example.atlassian.net";
       AtlasCtlConfig.email := Some "user@example.com";
       AtlasCtlConfig.apikey := Some "secret-token" |}
  = Success Sample.config
  /\ exists missing,
      requireFetchConfig
        {| AtlasCtlConfig.site := Some "example.atlassian.net";
           AtlasCtlConfig.email := None;
           AtlasCtlConfig.apikey := Some "" |}
      = Failure (msg_missing missing)
      /\ (forall key, In key missing <-> key = KeyEmail \/ key = KeyApikey).
Proof.
  split.
  - apply (proj1 (requireFetchConfig_spec _)). cbn.
    repeat split; discriminate.
  - pose (config := {| AtlasCtlConfig.site := Some "example.atlassian.net";
                       AtlasCtlConfig.email := None;
                       AtlasCtlConfig.apikey := Some "" |}).
    destruct (proj2 (proj2 (requireFetchConfig_spec config))) as [message Hm].
    { exists KeyEmail. now left. }
    destruct (proj1 (proj2 (requireFetchConfig_spec config)) message Hm)
      as (missing & _ & -> & Hin & _).
    exists missing. split; [exact Hm|]. intros key. rewrite Hin.
    unfold not_set. destruct key; cbn; split;
      intros [H | H]; try discriminate; auto.
Defined.

Lemma requireFetchConfig_accepts (config : AtlasCtlConfig.t) :
  (exists required, requireFetchConfig config = Success required)
  <-> forall key, ~ not_set config key.
Proof.
  pose proof (missing_keys config) as [Hin _]. cbv zeta in Hin.
  unfold requireFetchConfig.
  destruct (filter _ CONFIG_KEYS) as [|first others] eqn:E.
  - assert (Hset : forall key, ~ not_set config key)
      by (intros key H; now apply Hin in H).
    split; [intros _; exact Hset | intros _].
    destruct config as [[s|] [e|] [k|]]; cbn [AtlasCtlConfig.site
      AtlasCtlConfig.email AtlasCtlConfig.apikey];
      try (now elim (Hset KeySite); left);
      try (now elim (Hset KeyEmail); left);
      try (now elim (Hset KeyApikey); left).
    eauto.
  - split; [intros [? [=]]|]. intros Hall.
    now elim (Hall first); apply Hin; left.
Qed.

Lemma maskConfig_not_set (config : AtlasCtlConfig.t) (key : ConfigKey) :
  not_set (maskConfig config) key <-> not_set config key.
Proof.
  unfold maskConfig. destruct (unset (AtlasCtlConfig.apikey config)) eqn:E;
    [reflexivity|].
  destruct key; [reflexivity | reflexivity |].
  unfold not_set. cbn [AtlasCtlConfig.get AtlasCtlConfig.apikey].
  destruct (AtlasCtlConfig.apikey config) as [k|]; [|discriminate E].
  cbn [unset] in E. apply String.eqb_neq in E.
  split; intros [H | H]; try discriminate H.
  injection H as H. now elim E.
Qed.

(** X15.  [maskConfig] keeps [site] and [email], and puts
    ["***hidden***"] in the place of an API key that is there and not
    empty, so that this key is not in what it returns.  Masking twice is
    masking once, and a key is missing or empty after masking exactly
    when it was before: [requireFetchConfig] accepts the one when it
    accepts the other. *)
Theorem maskConfig_spec :
  forall config,
    AtlasCtlConfig.site (maskConfig config) = AtlasCtlConfig.site config
    /\ AtlasCtlConfig.email (maskConfig config) = AtlasCtlConfig.email config
    /\ (forall k,
           AtlasCtlConfig.apikey config = Some k ->
           k <> "" ->
           AtlasCtlConfig.apikey (maskConfig config) = Some mask
           /\ (k <> mask -> AtlasCtlConfig.apikey (maskConfig config) <> Some k))
    /\ (not_set config KeyApikey ->
        AtlasCtlConfig.apikey (maskConfig config) = AtlasCtlConfig.apikey config)
    /\ maskConfig (maskConfig config) = maskConfig config
    /\ (forall key, not_set (maskConfig config) key <-> not_set config key)
    /\ ((exists required, requireFetchConfig (maskConfig config) = Success required)
        <-> exists required, requireFetchConfig config = Success required).
Proof.
  intros config.
  split; [unfold maskConfig; now destruct (unset _)|].
  split; [unfold maskConfig; now destruct (unset _)|].
  split.
  { intros k Hk Hne. unfold maskConfig. rewrite Hk. cbn [unset].
    apply String.eqb_neq in Hne as ->. cbn [AtlasCtlConfig.apikey].
    split; [reflexivity|]. intros Hmask [= H]. now elim Hmask. }
  split.
  { intros H. apply (unset_not_set config KeyApikey) in H.
    cbn [AtlasCtlConfig.get] in H. unfold maskConfig. now rewrite H. }
  split.
  { unfold maskConfig. destruct (unset (AtlasCtlConfig.apikey config)) eqn:E;
      [now rewrite E | reflexivity]. }
  split; [apply maskConfig_not_set|].
  rewrite !requireFetchConfig_accepts.
  split; intros H key; specialize (H key); now rewrite maskConfig_not_set in *.
Qed.

Lemma maskConfig_spec_witness :
  maskConfig
    {| AtlasCtlConfig.site := Some "example.atlassian.net";
       AtlasCtlConfig.email := None;
       AtlasCtlConfig.apikey := Some "secret-token" |}
  = {| AtlasCtlConfig.site := Some "example.atlassian.net";
       AtlasCtlConfig.email := None;
       AtlasCtlConfig.apikey := Some "***hidden***" |}.
Proof.
  pose (config := {| AtlasCtlConfig.site := Some "example.atlassian.net";
                     AtlasCtlConfig.email := None;
                     AtlasCtlConfig.apikey := Some "secret-token" |}).
  destruct (maskConfig_spec config) as (Hsite & Hemail & Hkey & _).
  destruct (Hkey "secret-token" eq_refl ltac:(discriminate)) as [Hmask _].
  change (maskConfig config
          = {| AtlasCtlConfig.site := AtlasCtlConfig.site config;
               AtlasCtlConfig.email := AtlasCtlConfig.email config;
               AtlasCtlConfig.apikey := Some mask |}).
  destruct (maskConfig config) as [s e k]. cbn in Hsite, Hemail, Hmask.
  now rewrite Hsite, Hemail, Hmask.
Defined.

(** ** The site *)

Lemma lower_char_idempotent (c : ascii) : lower_char (lower_char c) = lower_char c.
Proof. destruct c as [[] [] [] [] [] [] [] []]; reflexivity. Qed.

Lemma toLowerCase_idempotent (s : string) :
  toLowerCase (toLowerCase s) = toLowerCase s.
Proof.
  induction s as [|c s IH]; [reflexivity|]. simpl.
  now rewrite lower_char_idempotent, IH.
Qed.

Lemma includes_scheme (v : string) : includes "://" ("https://" ++ v) = true.
Proof. reflexivity. Qed.

Lemma trim_trimmed (s : string) : trim s <> "" -> trim ("https://" ++ trim s) = "https://" ++ trim s.
Proof.
  intros Hne. apply trim_keeps_prefix; [|apply trim_idempotent | exact Hne].
  exists "h"%char, "ttps://". split; reflexivity.
Qed.

Section Site.

Variable parseURL : string -> option URL.
Variable hostname : URL -> string.

Local Notation "'normalizeSite''" := (normalizeSite parseURL hostname).

Lemma normalizeSite_not_blank (input r : string) :
  normalizeSite' input = Success r -> trim input <> "".
Proof.
  unfold normalizeSite. destruct (String.eqb (trim input) "") eqn:E;
    [discriminate|]. intros _. now apply String.eqb_neq.
Qed.

Lemma normalizeSite_trimmed (input : string) :
  normalizeSite' (trim input) = normalizeSite' input.
Proof. unfold normalizeSite. now rewrite trim_idempotent. Qed.

End Site.

(** X16.  [normalizeSite] throws ["Site cannot be empty"] on an input
    that is empty or white space only, and otherwise either throws
    ["Invalid site..."] or returns the host of the parsed URL in lower
    case, which lower-casing leaves as it is.  White space around the
    input does not count, and an input without [://] is read as the
    same input after [https://]. *)
Theorem normalizeSite_spec :
  forall (parseURL : string -> option URL) (hostname : URL -> string)
         (input : string),
    (every is_space input = true <->
     normalizeSite parseURL hostname input = Failure msg_site_empty)
    /\ (forall message,
           normalizeSite parseURL hostname input = Failure message ->
           message = msg_site_empty \/ message = msg_site_invalid)
    /\ (forall r,
           normalizeSite parseURL hostname input = Success r ->
           toLowerCase r = r
           /\ exists url,
               r = toLowerCase (host url)
               /\ hostname url <> ""
               /\ (parseURL (trim input) = Some url
                   \/ parseURL ("https://" ++ trim input) = Some url))
    /\ (forall pre post,
           every is_space pre = true ->
           every is_space post = true ->
           normalizeSite parseURL hostname (pre ++ input ++ post)
           = normalizeSite parseURL hostname input)
    /\ (trim input <> "" ->
        includes "://" (trim input) = false ->
        normalizeSite parseURL hostname ("https://" ++ trim input)
        = normalizeSite parseURL hostname input).
Proof.
  intros parseURL hostname input. split; [|split; [|split; [|split]]].
  - rewrite <- trim_empty. unfold normalizeSite.
    destruct (String.eqb (trim input) "") eqn:E.
    + apply String.eqb_eq in E. tauto.
    + apply String.eqb_neq in E. split; [tauto|].
      destruct (if includes "://" (trim input) then _ else _) as [url|];
        [destruct (String.eqb (hostname url) "")|]; discriminate.
  - intros message. unfold normalizeSite.
    destruct (String.eqb (trim input) ""); [intros [= <-]; now left|].
    destruct (if includes "://" (trim input) then _ else _) as [url|];
      [destruct (String.eqb (hostname url) "")|]; intros [= <-]; now right.
  - intros r. unfold normalizeSite.
    destruct (String.eqb (trim input) ""); [discriminate|].
    destruct (includes "://" (trim input));
      (match goal with |- context [parseURL ?u] =>
         destruct (parseURL u) as [url|] eqn:Hurl; [|discriminate] end);
      (destruct (String.eqb (hostname url) "") eqn:Hh; [discriminate|]);
      intros [= <-]; (split; [apply toLowerCase_idempotent|]);
      exists url; apply String.eqb_neq in Hh; auto.
  - intros pre post Hpre Hpost. unfold normalizeSite.
    now rewrite trim_surrounded.
  - intros Hne Hno. unfold normalizeSite at 1.
    rewrite (trim_trimmed _ Hne), includes_scheme.
    assert (Hnb : String.eqb ("https://" ++ trim input) "" = false) by reflexivity.
    rewrite Hnb. unfold normalizeSite.
    apply String.eqb_neq in Hne. now rewrite Hne, Hno.
Qed.

(** The inputs of the project's own tests. *)
Lemma normalizeSite_spec_witness :
  normalizeSite SimpleURL.parse host "https://Example.ATlassian.net/wiki"
  = Success "example.atlassian.net"
  /\ normalizeSite SimpleURL.parse host " example.atlassian.net "
     = Success "example.atlassian.net"
  /\ normalizeSite SimpleURL.parse host "https://example.atlassian.net"
     = Success "example.atlassian.net".
Proof.
  split; [reflexivity|].
  destruct (normalizeSite_spec SimpleURL.parse host " example.atlassian.net ")
    as (_ & _ & _ & _ & Hscheme).
  assert (H : normalizeSite SimpleURL.parse host "https://example.atlassian.net"
              = normalizeSite SimpleURL.parse host " example.atlassian.net ")
    by (apply Hscheme; [discriminate | reflexivity]).
  split; [rewrite <- H|]; reflexivity.
Defined.

(** ** The whole configuration *)

Lemma normalizeEmail_again (input v : string) :
  normalizeEmail input = Success v ->
  normalizeEmail v = Success v /\ trim v <> "".
Proof.
  unfold normalizeEmail. destruct (is_email (trim input)) eqn:E; [|discriminate].
  intros [= <-]. apply is_email_spec in E as Hshape.
  rewrite (trim_no_spaces _ (email_shape_no_space _ Hshape)), E.
  split; [reflexivity|].
  destruct Hshape as (local & a & b & -> & [Hne _] & _).
  destruct local; [now elim Hne | discriminate].
Qed.

Lemma normalizeApiKey_again (input v : string) :
  normalizeApiKey input = Success v ->
  normalizeApiKey v = Success v /\ trim v <> "".
Proof.
  unfold normalizeApiKey. destruct (String.eqb (trim input) "") eqn:E;
    [discriminate|].
  intros [= <-]. rewrite trim_idempotent, E. split; [reflexivity|].
  now apply String.eqb_neq.
Qed.

Section WholeConfig.

Variable parseURL : string -> option URL.
Variable hostname : URL -> string.

Local Notation "'value_of'" := (normalizeConfigValue parseURL hostname).

(** A member of the raw object that counts: a string that is not
    blank. *)
Definition given (raw : value) (key : ConfigKey) (s : string) : Prop :=
  raw @. (key_name key) = VStr s /\ trim s <> "".

Lemma given_unique (raw : value) (key : ConfigKey) (s s' : string) :
  given raw key s -> given raw key s' -> s = s'.
Proof. intros [H _] [H' _]. congruence. Qed.

Lemma normalize_member_spec (raw : value) (key : ConfigKey)
  (normalize : string -> attempt string) (config : AtlasCtlConfig.t) :
  (forall s, given raw key s ->
             normalize_member raw key normalize config
             = match normalize s with
               | Success v => Success (AtlasCtlConfig.set config key v)
               | Failure message => Failure message
               end)
  /\ ((forall s, ~ given raw key s) ->
      normalize_member raw key normalize config = Success config).
Proof.
  unfold normalize_member, given. split.
  - intros s [-> Hne]. apply String.eqb_neq in Hne. now rewrite Hne.
  - intros Hno. destruct (raw @. (key_name key)); try reflexivity.
    destruct (String.eqb (trim s) "") eqn:E; [reflexivity|].
    apply String.eqb_neq in E. now elim (Hno s).
Qed.

Lemma given_or_not (raw : value) (key : ConfigKey) :
  (exists s, given raw key s) \/ (forall s, ~ given raw key s).
Proof.
  unfold given. destruct (raw @. (key_name key)) eqn:E;
    try solve [right; intros ? [[=] _]].
  destruct (String.eqb (trim s) "") eqn:Hs.
  - right. intros s' [[= <-] H]. apply String.eqb_eq in Hs. contradiction.
  - left. exists s. apply String.eqb_neq in Hs. auto.
Qed.

(** The members of a configuration are values that the normalizers
    return for themselves. *)
Definition settled (config : AtlasCtlConfig.t) : Prop :=
  forall key v,
    AtlasCtlConfig.get config key = Some v -> value_of key v = Success v.

Lemma settled_not_blank (config : AtlasCtlConfig.t) (key : ConfigKey) (v : string) :
  settled config -> AtlasCtlConfig.get config key = Some v -> trim v <> "".
Proof.
  intros H Hv. specialize (H key v Hv). destruct key; cbn in H.
  - eapply normalizeSite_not_blank; eauto.
  - now apply normalizeEmail_again in H.
  - now apply normalizeApiKey_again in H.
Qed.

Lemma as_object_given (config : AtlasCtlConfig.t) (key : ConfigKey) :
  settled config ->
  match AtlasCtlConfig.get config key with
  | Some v => given (as_object config) key v
  | None => forall s, ~ given (as_object config) key s
  end.
Proof.
  intros Hsettled.
  destruct (AtlasCtlConfig.get config key) as [v|] eqn:E.
  - split; [|eapply settled_not_blank; eauto].
    destruct config as [s e k], key; cbn in *; now rewrite E.
  - intros s [H _]. destruct config as [s0 e k], key; cbn in *; now rewrite E in H.
Qed.

Lemma normalize_member_settled (config partial : AtlasCtlConfig.t)
  (key : ConfigKey) :
  settled config ->
  normalize_member (as_object config) key (value_of key) partial
  = Success match AtlasCtlConfig.get config key with
            | Some v => AtlasCtlConfig.set partial key v
            | None => partial
            end.
Proof.
  intros Hsettled. pose proof (as_object_given config key Hsettled) as Hgiven.
  destruct (AtlasCtlConfig.get config key) as [v|] eqn:E.
  - rewrite (proj1 (normalize_member_spec _ key _ partial) v Hgiven).
    now rewrite (Hsettled key v E).
  - now apply normalize_member_spec.
Qed.

Lemma normalizeConfig_settled (config : AtlasCtlConfig.t) :
  settled config ->
  normalizeConfig parseURL hostname (as_object config) = Success config.
Proof.
  intros Hsettled.
  change (normalizeConfig parseURL hostname (as_object config))
    with (match normalize_member (as_object config) KeySite (value_of KeySite)
                  AtlasCtlConfig.empty with
          | Failure message => Failure message
          | Success c1 =>
              match normalize_member (as_object config) KeyEmail
                      (value_of KeyEmail) c1 with
              | Failure message => Failure message
              | Success c2 =>
                  normalize_member (as_object config) KeyApikey
                    (value_of KeyApikey) c2
              end
          end).
  rewrite !(normalize_member_settled config _ _ Hsettled).
  now destruct config as [[s|] [e|] [k|]].
Qed.

End WholeConfig.

Lemma normalize_member_result (raw : value) (key : ConfigKey)
  (normalize : string -> attempt string) (partial config : AtlasCtlConfig.t) :
  normalize_member raw key normalize partial = Success config ->
  (exists s v,
      given raw key s /\ normalize s = Success v
      /\ config = AtlasCtlConfig.set partial key v)
  \/ ((forall s, ~ given raw key s) /\ config = partial).
Proof.
  destruct (given_or_not raw key) as [[s Hs] | Hno].
  - rewrite (proj1 (normalize_member_spec raw key normalize partial) s Hs).
    destruct (normalize s) as [v|] eqn:E; [|discriminate].
    intros [= <-]. left. now exists s, v.
  - rewrite (proj2 (normalize_member_spec raw key normalize partial) Hno).
    intros [= <-]. now right.
Qed.

Lemma normalize_member_fails (raw : value) (key : ConfigKey)
  (normalize : string -> attempt string) (partial : AtlasCtlConfig.t)
  (message : string) :
  normalize_member raw key normalize partial = Failure message ->
  exists s, given raw key s /\ normalize s = Failure message.
Proof.
  destruct (given_or_not raw key) as [[s Hs] | Hno].
  - rewrite (proj1 (normalize_member_spec raw key normalize partial) s Hs).
    destruct (normalize s) eqn:E; [discriminate|]. intros [= <-]. eauto.
  - now rewrite (proj2 (normalize_member_spec raw key normalize partial) Hno).
Qed.

Lemma normalize_member_accepts (raw : value) (key : ConfigKey)
  (normalize : string -> attempt string) (partial : AtlasCtlConfig.t) :
  (forall s, given raw key s -> exists v, normalize s = Success v) ->
  exists config, normalize_member raw key normalize partial = Success config.
Proof.
  intros Hok. destruct (given_or_not raw key) as [[s Hs] | Hno].
  - rewrite (proj1 (normalize_member_spec raw key normalize partial) s Hs).
    destruct (Hok s Hs) as [v ->]. eauto.
  - rewrite (proj2 (normalize_member_spec raw key normalize partial) Hno). eauto.
Qed.

Lemma normalize_member_refuses (raw : value) (key : ConfigKey)
  (normalize : string -> attempt string) (partial : AtlasCtlConfig.t)
  (s message : string) :
  given raw key s ->
  normalize s = Failure message ->
  normalize_member raw key normalize partial = Failure message.
Proof.
  intros Hs Hfail.
  now rewrite (proj1 (normalize_member_spec raw key normalize partial) s Hs), Hfail.
Qed.

(** X17.  [normalizeConfig] throws ["Config must be a JSON object"] on
    anything but an object.  On an object it keeps, of the members
    [site], [email] and [apikey], those that are strings and not blank,
    each normalized, and drops the others without complaint.  It throws
    exactly when one of the members it keeps is refused by its
    normalizer, and then with the message for the first such member in
    the order site, email, apikey; when none is refused it returns.  A
    configuration it returned is returned unchanged when it is
    normalized again, provided its site is a value that [normalizeSite]
    returns for itself. *)
Theorem normalizeConfig_spec :
  forall (parseURL : string -> option URL) (hostname : URL -> string)
         (raw : value),
    ((forall fields, raw <> VObj fields) ->
     normalizeConfig parseURL hostname raw = Failure msg_not_object)
    /\ (forall config,
           normalizeConfig parseURL hostname raw = Success config ->
           forall key v,
             AtlasCtlConfig.get config key = Some v <->
             exists s,
               given raw key s
               /\ normalizeConfigValue parseURL hostname key s = Success v)
    /\ (forall fields message,
           raw = VObj fields ->
           normalizeConfig parseURL hostname raw = Failure message ->
           exists key s,
             given raw key s
             /\ normalizeConfigValue parseURL hostname key s = Failure message)
    /\ (forall config,
           normalizeConfig parseURL hostname raw = Success config ->
           (forall v,
               AtlasCtlConfig.site config = Some v ->
               normalizeSite parseURL hostname v = Success v) ->
           normalizeConfig parseURL hostname (as_object config) = Success config)
    /\ (forall fields key s message,
           raw = VObj fields ->
           given raw key s ->
           normalizeConfigValue parseURL hostname key s = Failure message ->
           (forall earlier s',
               key_rank earlier < key_rank key ->
               given raw earlier s' ->
               exists v,
                 normalizeConfigValue parseURL hostname earlier s' = Success v) ->
           normalizeConfig parseURL hostname raw = Failure message)
    /\ (forall fields key s message,
           raw = VObj fields ->
           given raw key s ->
           normalizeConfigValue parseURL hostname key s = Failure message ->
           exists first,
             normalizeConfig parseURL hostname raw = Failure first)
    /\ (forall fields,
           raw = VObj fields ->
           (forall key s,
               given raw key s ->
               exists v, normalizeConfigValue parseURL hostname key s = Success v) ->
           exists config, normalizeConfig parseURL hostname raw = Success config).
Proof.
  intros parseURL hostname raw.
  assert (Hmembers : forall config,
             normalizeConfig parseURL hostname raw = Success config ->
             forall key v,
               AtlasCtlConfig.get config key = Some v <->
               exists s,
                 given raw key s
                 /\ normalizeConfigValue parseURL hostname key s = Success v).
  { intros config H. unfold normalizeConfig in H.
    destruct raw; try discriminate.
    destruct (normalize_member _ KeySite _ _) as [c1|] eqn:E1; [|discriminate].
    destruct (normalize_member _ KeyEmail _ _) as [c2|] eqn:E2; [|discriminate].
    apply normalize_member_result in E1, E2, H.
    intros key v.
    destruct E1 as [(s1 & v1 & G1 & N1 & ->) | [G1 ->]],
             E2 as [(s2 & v2 & G2 & N2 & ->) | [G2 ->]],
             H as [(s3 & v3 & G3 & N3 & ->) | [G3 ->]];
      destruct key; cbn [AtlasCtlConfig.get AtlasCtlConfig.set
                           AtlasCtlConfig.site AtlasCtlConfig.email
                           AtlasCtlConfig.apikey AtlasCtlConfig.empty
                           normalizeConfigValue];
      (split;
       [ intros [= <-]; eauto
       | intros (s & G & N);
         first [ now elim (G1 s) | now elim (G2 s) | now elim (G3 s)
               | rewrite <- (given_unique _ _ _ _ G1 G) in N; congruence
               | rewrite <- (given_unique _ _ _ _ G2 G) in N; congruence
               | rewrite <- (given_unique _ _ _ _ G3 G) in N; congruence ] ]). }
  assert (Hreturns : forall fields,
             raw = VObj fields ->
             (forall key s,
                 given raw key s ->
                 exists v,
                   normalizeConfigValue parseURL hostname key s = Success v) ->
             exists config, normalizeConfig parseURL hostname raw = Success config).
  { intros fields -> Hok. unfold normalizeConfig.
    destruct (normalize_member_accepts (VObj fields) KeySite
                (normalizeSite parseURL hostname) AtlasCtlConfig.empty
                (Hok KeySite)) as [c1 ->].
    destruct (normalize_member_accepts (VObj fields) KeyEmail normalizeEmail c1
                (Hok KeyEmail)) as [c2 ->].
    exact (normalize_member_accepts (VObj fields) KeyApikey normalizeApiKey c2
             (Hok KeyApikey)). }
  assert (Hfirst : forall fields key s message,
             raw = VObj fields ->
             given raw key s ->
             normalizeConfigValue parseURL hostname key s = Failure message ->
             (forall earlier s',
                 key_rank earlier < key_rank key ->
                 given raw earlier s' ->
                 exists v,
                   normalizeConfigValue parseURL hostname earlier s' = Success v) ->
             normalizeConfig parseURL hostname raw = Failure message).
  { intros fields key s message -> Hs Hfail Hearlier. unfold normalizeConfig.
    destruct key; cbn [normalizeConfigValue] in Hfail.
    - now rewrite (normalize_member_refuses _ _ _ _ _ _ Hs Hfail).
    - destruct (normalize_member_accepts (VObj fields) KeySite
                  (normalizeSite parseURL hostname) AtlasCtlConfig.empty)
        as [c1 ->].
      { intros s'. apply (Hearlier KeySite). cbn [key_rank]. lia. }
      now rewrite (normalize_member_refuses _ _ _ _ _ _ Hs Hfail).
    - destruct (normalize_member_accepts (VObj fields) KeySite
                  (normalizeSite parseURL hostname) AtlasCtlConfig.empty)
        as [c1 ->].
      { intros s'. apply (Hearlier KeySite). cbn [key_rank]. lia. }
      destruct (normalize_member_accepts (VObj fields) KeyEmail
                  normalizeEmail c1) as [c2 ->].
      { intros s'. apply (Hearlier KeyEmail). cbn [key_rank]. lia. }
      now rewrite (normalize_member_refuses _ _ _ _ _ _ Hs Hfail). }
  split; [|split; [exact Hmembers | split; [|split; [|split; [exact Hfirst|split;
    [|exact Hreturns]]]]]].
  - intros Hno. destruct raw; try reflexivity. now elim (Hno fields).
  - intros fields message -> H. unfold normalizeConfig in H.
    destruct (normalize_member _ KeySite _ _) as [c1|m1] eqn:E1.
    + destruct (normalize_member _ KeyEmail _ _) as [c2|m2] eqn:E2.
      * apply normalize_member_fails in H as (s & G & N). now exists KeyApikey, s.
      * injection H as <-.
        apply normalize_member_fails in E2 as (s & G & N). now exists KeyEmail, s.
    + injection H as <-.
      apply normalize_member_fails in E1 as (s & G & N). now exists KeySite, s.
  - intros config H Hsite. apply normalizeConfig_settled.
    intros key v Hv.
    destruct (proj1 (Hmembers config H key v) Hv) as (s & _ & N).
    destruct key; cbn [normalizeConfigValue] in *.
    + now apply Hsite.
    + now apply normalizeEmail_again in N.
    + now apply normalizeApiKey_again in N.
  - intros fields key s message Hraw Hs Hfail.
    destruct (normalizeConfig parseURL hostname raw) as [config|first] eqn:E;
      [exfalso | now exists first].
    subst raw. unfold normalizeConfig in E.
    destruct (normalize_member _ KeySite _ _) as [c1|] eqn:E1; [|discriminate].
    destruct (normalize_member _ KeyEmail _ _) as [c2|] eqn:E2; [|discriminate].
    apply normalize_member_result in E1, E2, E.
    destruct key; cbn [normalizeConfigValue] in Hfail.
    + destruct E1 as [(s1 & v1 & G1 & N1 & _) | [G1 _]]; [|now elim (G1 s)].
      rewrite (given_unique _ _ _ _ G1 Hs) in N1. congruence.
    + destruct E2 as [(s2 & v2 & G2 & N2 & _) | [G2 _]]; [|now elim (G2 s)].
      rewrite (given_unique _ _ _ _ G2 Hs) in N2. congruence.
    + destruct E as [(s3 & v3 & G3 & N3 & _) | [G3 _]]; [|now elim (G3 s)].
      rewrite (given_unique _ _ _ _ G3 Hs) in N3. congruence.
Qed.

(** An object with a site in capitals, a blank email and a number
    for the API key; the same object with an email that is refused. *)
Lemma normalizeConfig_spec_witness :
  normalizeConfig SimpleURL.parse host
    (VObj [("site", VStr "https://Example.ATlassian.net/wiki");
           ("email", VStr "   ");
           ("apikey", VNum 7)])
  = Success {| AtlasCtlConfig.site := Some "example.atlassian.net";
               AtlasCtlConfig.email := None;
               AtlasCtlConfig.apikey := None |}
  /\ normalizeConfig SimpleURL.parse host
       (as_object {| AtlasCtlConfig.site := Some "example.atlassian.net";
                     AtlasCtlConfig.email := None;
                     AtlasCtlConfig.apikey := None |})
     = Success {| AtlasCtlConfig.site := Some "example.atlassian.net";
                  AtlasCtlConfig.email := None;
                  AtlasCtlConfig.apikey := None |}
  /\ normalizeConfig SimpleURL.parse host (VArr []) = Failure msg_not_object
  /\ normalizeConfig SimpleURL.parse host
       (VObj [("site", VStr "https://Example.ATlassian.net/wiki");
              ("email", VStr "nobody");
              ("apikey", VNum 7)])
     = Failure msg_email_invalid.
Proof.
  pose (raw := VObj [("site", VStr "https://Example.ATlassian.net/wiki");
                     ("email", VStr "   ");
                     ("apikey", VNum 7)]).
  destruct (normalizeConfig_spec SimpleURL.parse host raw)
    as (_ & _ & _ & Hagain & _).
  split; [reflexivity|]. split; [|split].
  - apply Hagain; [reflexivity|]. now intros v [= <-].
  - apply (proj1 (normalizeConfig_spec SimpleURL.parse host (VArr []))).
    discriminate.
  - match goal with |- normalizeConfig _ _ ?r = _ => set (refused := r) end.
    destruct (normalizeConfig_spec SimpleURL.parse host refused)
      as (_ & _ & _ & _ & Hfirst & _).
    apply (Hfirst _ KeyEmail "nobody" msg_email_invalid eq_refl).
    + split; [reflexivity | discriminate].
    + reflexivity.
    + intros earlier s' Hrank [Hs' _].
      destruct earlier; cbn [key_rank] in Hrank; try lia.
      injection Hs' as <-. eexists. reflexivity.
Defined.

(** X18.  Setting a value in a configuration whose members are
    settled: when the value is refused, [setConfigValue] throws the
    normalizer's message and nothing is handed on for writing; when it is
    accepted, what is handed on for writing is the configuration with
    that key holding the normalized value and the other keys as they
    were, and it is settled again. *)
Theorem written_by_set_spec :
  forall (parseURL : string -> option URL) (hostname : URL -> string)
         (config : AtlasCtlConfig.t) (key : ConfigKey) (rawValue : string),
    settled parseURL hostname config ->
    (forall message,
        normalizeConfigValue parseURL hostname key rawValue = Failure message ->
        written_by_set parseURL hostname config key rawValue = Failure message)
    /\ (forall v,
           normalizeConfigValue parseURL hostname key rawValue = Success v ->
           (key = KeySite -> normalizeSite parseURL hostname v = Success v) ->
           written_by_set parseURL hostname config key rawValue
           = Success (AtlasCtlConfig.set config key v)
           /\ AtlasCtlConfig.get (AtlasCtlConfig.set config key v) key = Some v
           /\ (forall other,
                  other <> key ->
                  AtlasCtlConfig.get (AtlasCtlConfig.set config key v) other
                  = AtlasCtlConfig.get config other)
           /\ settled parseURL hostname (AtlasCtlConfig.set config key v)).
Proof.
  intros parseURL hostname config key rawValue Hsettled.
  unfold written_by_set. split; [now intros message ->|].
  intros v Hv Hsite. rewrite Hv.
  assert (Hagain : normalizeConfigValue parseURL hostname key v = Success v).
  { destruct key; cbn [normalizeConfigValue] in *.
    - now apply Hsite.
    - now apply normalizeEmail_again in Hv.
    - now apply normalizeApiKey_again in Hv. }
  assert (Hget : AtlasCtlConfig.get (AtlasCtlConfig.set config key v) key = Some v)
    by now destruct key.
  assert (Hother : forall other,
             other <> key ->
             AtlasCtlConfig.get (AtlasCtlConfig.set config key v) other
             = AtlasCtlConfig.get config other)
    by (intros other Hne; destruct key, other; try reflexivity; now elim Hne).
  assert (Hnew : settled parseURL hostname (AtlasCtlConfig.set config key v)).
  { intros k w Hw.
    assert (Hdec : k = key \/ k <> key)
      by (destruct k, key; auto; right; discriminate).
    destruct Hdec as [-> | Hne].
    - rewrite Hget in Hw. injection Hw as <-. exact Hagain.
    - rewrite (Hother k Hne) in Hw. now apply Hsettled. }
  split; [now apply normalizeConfig_settled|]. auto.
Qed.

(** The email of a configuration that holds a site is set. *)
Lemma written_by_set_spec_witness :
  written_by_set SimpleURL.parse host
    {| AtlasCtlConfig.site := Some "example.atlassian.net";
       AtlasCtlConfig.email := None;
       AtlasCtlConfig.apikey := None |}
    KeyEmail " user@example.com "
  = Success {| AtlasCtlConfig.site := Some "example.atlassian.net";
               AtlasCtlConfig.email := Some "user@example.com";
               AtlasCtlConfig.apikey := None |}.
Proof.
  refine (proj1 (proj2 (written_by_set_spec SimpleURL.parse host
                          {| AtlasCtlConfig.site := Some "example.atlassian.net";
                             AtlasCtlConfig.email := None;
                             AtlasCtlConfig.apikey := None |}
                          KeyEmail " user@example.com " _)
                   "user@example.com" eq_refl _)).
  - intros key v. destruct key; cbn; intros [= <-]. reflexivity.
  - discriminate.
Defined.
